(** * bladerfgpsjammer: the noise generator, the dual-channel interleaver,
    channel configuration, the transmit loop and shutdown

  A shallow embedding of the three scripts
  [transmit_gps_l5.py] (one TX channel),
  [transmit_gps_l1_l2_dual.py] and [transmit_gps_l2_l5_dual.py]
  (two TX channels; they differ in constants and messages only).

  - NumPy arrays of [int16] are [list Z]; strided views [a[start::step]]
    are read with [slice_get] and written with [slice_set].
  - [x * 0.95] is a binary64 product ([SFmul 53 1024]); [astype(np.int16)]
    is the C cast (truncation toward zero).
  - [np.random] is a state-passing generator behind the class
    [NumpyRuntime].
  - The bladeRF device and the operating system are an environment behind
    the class [Environment]: it answers every driver call and decides when
    the SIGINT handler runs.
  - Python exceptions are the [Raise] result of a state-and-error monad;
    [try/except/finally] are written out. *)

From Stdlib Require Import ZArith Lia Ascii String.
From Stdlib Require Import Floats.SpecFloat.
From stdpp Require Import base tactics option list strings gmap.

Local Open Scope Z_scope.

(* ===================================================================== *)
(** ** NumPy strided slices on one-dimensional arrays *)
(* ===================================================================== *)

Module Slice.

(** [len(range(start, len, step))] for [0 <= start], [0 < step]. *)
Definition slice_len (start step len : nat) : nat :=
  if decide (start < len)%nat then ((len - start + step - 1) `div` step)%nat
  else 0%nat.

(** [a[start::step]] *)
Definition slice_get (start step : nat) (a : list Z) : list Z :=
  (λ k, a !!! (start + k * step)%nat) <$> seq 0 (slice_len start step (length a)).

(** The element-wise store behind [dst[start::step] = src], once the
    shapes agree: [src[k]] goes to [dst[start + k*step]]. *)
Fixpoint slice_store (start step : nat) (src dst : list Z) : list Z :=
  match src with
  | [] => dst
  | v :: src' => slice_store (start + step) step src' (<[start := v]> dst)
  end.

(** [dst[start::step] = src]: NumPy stores when [src] has the shape of
    the view, broadcasts a one-element [src], and raises [ValueError]
    ([None]) otherwise. *)
Definition slice_set (start step : nat) (src dst : list Z) : option (list Z) :=
  let k := slice_len start step (length dst) in
  if decide (length src = k) then Some (slice_store start step src dst)
  else if decide (length src = 1%nat)
       then Some (slice_store start step (replicate k (src !!! 0%nat)) dst)
       else None.

End Slice.
Export Slice.

(* ===================================================================== *)
(** ** The headroom scaling [(x * 0.95).astype(np.int16)] *)
(* ===================================================================== *)

Module Scale.

(** binary64 *)
Definition prec : Z := 53.
Definition emax : Z := 1024.

(** An [int16] (any integer below [2^53] in magnitude) converts to
    binary64 exactly. *)
Definition float_of_int (x : Z) : spec_float := binary_normalize prec emax x 0 false.

(** The Python literal [0.95]: the binary64 number nearest to 95/100,
    [8556839292003942 * 2^-53]. *)
Definition headroom : spec_float := S754_finite false 8556839292003942 (-53).

(** Two's complement wrap-around of an integer into 16 signed bits. *)
Definition wrap_int16 (z : Z) : Z := (z + 32768) mod 65536 - 32768.

(** [astype(np.int16)] on a binary64: the C cast truncates toward zero.
    Out of the [int16] range C leaves the result to the platform; the
    wrap-around and the [0] for infinities and NaN are what x86-64
    produces.  [astype_in_range] below shows the generator never gets
    there. *)
Definition astype_int16 (f : spec_float) : Z :=
  match f with
  | S754_zero _ => 0
  | S754_finite s m e => wrap_int16 (cond_Zopp s (Z.shiftl (Zpos m) e))
  | S754_infinity _ | S754_nan => 0
  end.

(** [(x * 0.95).astype(np.int16)] for one element [x]. *)
Definition scale095 (x : Z) : Z :=
  astype_int16 (SFmul prec emax (float_of_int x) headroom).

(** Truncation toward zero of the exact product [x * 95/100]. *)
Definition trunc095 (x : Z) : Z := Z.quot (x * 95) 100.

(** The check that [scale095 x] is [trunc095 x] and that the cast stays
    inside [int16]; it is run over the whole range of the generator. *)
Definition scale095_checked (x : Z) : bool :=
  match SFmul prec emax (float_of_int x) headroom with
  | S754_zero _ => x =? 0
  | S754_finite s m e =>
      let t := cond_Zopp s (Z.shiftl (Zpos m) e) in
      (t =? trunc095 x) && (-32768 <=? t) && (t <=? 32767)
  | _ => false
  end.

End Scale.
Export Scale.

(* ===================================================================== *)
(** ** The NumPy runtime: [np.random] and [np.empty] *)
(* ===================================================================== *)

(** [randint lo hi] is one draw of [np.random.randint(lo, hi)], which
  NumPy documents as an integer from [lo] (inclusive) to [hi] (exclusive);
  [uninit g] is what a fresh [np.empty] array finds in memory. *)
Class NumpyRuntime (G : Type) := {
randint : Z → Z → G → Z * G;
uninit : G → nat → Z;
randint_range : ∀ lo hi g, lo < hi → lo ≤ (randint lo hi g).1 < hi
}.

Section Generator.
Context {G : Type} `{!NumpyRuntime G}.

(** [np.random.randint(lo, hi, n, dtype=np.int16)]: [n] draws in a row. *)
Fixpoint randint_array (lo hi : Z) (n : nat) (g : G) : list Z * G :=
  match n with
  | O => ([], g)
  | S n' =>
      let '(x, g1) := randint lo hi g in
      let '(xs, g2) := randint_array lo hi n' g1 in
      (x :: xs, g2)
  end.

(** [np.empty(n, dtype=np.int16)] *)
Definition np_empty (g : G) (n : nat) : list Z := uninit g <$> seq 0 n.

(** [generate_white_noise(num_samples)], the same function in the three
    scripts.  [num_samples] is an array size; [None] stands for the
    [ValueError] of a slice assignment whose shapes disagree. *)
Definition generate_white_noise (num_samples : nat) (g : G) : option (list Z) * G :=
  let '(i_samples, g) := randint_array (-2047) 2048 num_samples g in
  let '(q_samples, g) := randint_array (-2047) 2048 num_samples g in
  let i_samples := scale095 <$> i_samples in
  let q_samples := scale095 <$> q_samples in
  let samples := np_empty g (2 * num_samples) in
  (samples ← slice_set 0 2 i_samples samples;
   slice_set 1 2 q_samples samples,
   g).

(** The interleaving step of the dual-channel loop: [buffer_size] is the
    local of [main], [noise_ch0] and [noise_ch1] the two generated
    buffers.
<<
    dual_buffer_size = buffer_size * 2
    dual_samples = np.empty(dual_buffer_size * 2, dtype=np.int16)
    dual_samples[0::4] = noise_ch0[0::2]
    dual_samples[1::4] = noise_ch0[1::2]
    dual_samples[2::4] = noise_ch1[0::2]
    dual_samples[3::4] = noise_ch1[1::2]
>> *)
Definition dual_interleave (g : G) (buffer_size : nat) (noise_ch0 noise_ch1 : list Z)
  : option (list Z) :=
  let dual_buffer_size := (buffer_size * 2)%nat in
  let dual_samples := np_empty g (dual_buffer_size * 2) in
  dual_samples ← slice_set 0 4 (slice_get 0 2 noise_ch0) dual_samples;
  dual_samples ← slice_set 1 4 (slice_get 1 2 noise_ch0) dual_samples;
  dual_samples ← slice_set 2 4 (slice_get 0 2 noise_ch1) dual_samples;
  slice_set 3 4 (slice_get 1 2 noise_ch1) dual_samples.

(** De-interleaving, following the claim's words: the stride-4
    subsequences at offsets 0..3 are the I and Q streams of the two
    channels; pairing I with Q again gives the per-channel buffers. *)
Fixpoint pair_up (i q : list Z) : list Z :=
  match i, q with
  | a :: i', b :: q' => a :: b :: pair_up i' q'
  | _, _ => []
  end.

Definition dual_deinterleave (out : list Z) : list Z * list Z :=
  (pair_up (slice_get 0 4 out) (slice_get 1 4 out),
   pair_up (slice_get 2 4 out) (slice_get 3 4 out)).

(** The transfer buffer written out slot by slot from the four streams. *)
Fixpoint quad_up (i0 q0 i1 q1 : list Z) : list Z :=
  match i0, q0, i1, q1 with
  | a :: i0', b :: q0', c :: i1', d :: q1' => a :: b :: c :: d :: quad_up i0' q0' i1' q1'
  | _, _, _, _ => []
  end.

(** The raw draws behind a generated buffer, and the generator state
    it leaves. *)
Definition raw_i (n : nat) (g : G) : list Z := (randint_array (-2047) 2048 n g).1.
Definition raw_q (n : nat) (g : G) : list Z :=
  (randint_array (-2047) 2048 n (randint_array (-2047) 2048 n g).2).1.
Definition np_after (n : nat) (g : G) : G :=
  (randint_array (-2047) 2048 n (randint_array (-2047) 2048 n g).2).2.

End Generator.

(** A concrete runtime, to run the definitions: a linear congruential
  generator, and memory that holds [7] everywhere. *)
Module Lcg.
Definition next (g : Z) : Z := (g * 1103515245 + 12345) mod 2147483648.
Definition lcg_randint (lo hi : Z) (g : Z) : Z * Z :=
  (lo + (next g / 65536) mod (hi - lo), next g).

#[export] Program Instance lcg_runtime : NumpyRuntime Z :=
  {| randint := lcg_randint; uninit := λ _ _, 7 |}.
Next Obligation.
  intros lo hi g Hlt. unfold lcg_randint. cbn [fst].
  pose proof (Z.mod_pos_bound (next g / 65536) (hi - lo)). lia.
Qed.
End Lcg.
Export Lcg.

(* ===================================================================== *)
(** ** Strings: [str.lower] and the [in] test *)
(* ===================================================================== *)

Module Str.

(** [str.lower] on one character; stage names are ASCII. *)
Definition lower_ascii (c : ascii) : ascii :=
  let n := nat_of_ascii c in
  if ((65 <=? n) && (n <=? 90))%nat then ascii_of_nat (n + 32) else c.

(** [s.lower()] *)
Fixpoint lower (s : string) : string :=
  match s with
  | EmptyString => EmptyString
  | String c s' => String (lower_ascii c) (lower s')
  end.

(** [needle in hay]: [needle] starts at some position of [hay]. *)
Fixpoint contains (needle hay : string) : bool :=
  String.prefix needle hay ||
  match hay with
  | EmptyString => false
  | String _ hay' => contains needle hay'
  end.

End Str.
Export Str.

(** The value the stage loop writes to a stage,
<<
    if 'dsa' in stage.lower(): dev.set_gain_stage(channel, stage, 0)
    else:                      dev.set_gain_stage(channel, stage, 60)
>> *)
Definition stage_gain (stage : string) : Z :=
  if contains "dsa" (lower stage) then 0 else 60.

(* ===================================================================== *)
(** ** Module constants *)
(* ===================================================================== *)

Module Constants.

(** A decimal literal [num/den] read as binary64 (correctly rounded). *)
Definition py_float (num den : Z) : spec_float :=
  SFdiv prec emax (float_of_int num) (float_of_int den).

(** [int(f)]: truncation toward zero, unbounded. *)
Definition py_int (f : spec_float) : Z :=
  match f with
  | S754_finite s m e => cond_Zopp s (Z.shiftl (Zpos m) e)
  | _ => 0
  end.

(** [int(mhz * 1e6)] *)
Definition hz_of_mhz (mhz : spec_float) : Z :=
  py_int (SFmul prec emax mhz (float_of_int 1000000)).

Definition BANDWIDTH_HZ : Z := hz_of_mhz (py_float 20 10).
Definition SAMPLE_RATE_HZ : Z := hz_of_mhz (py_float 50 10).
(** L1, L2 and L5 centre frequencies *)
Definition L1_HZ : Z := hz_of_mhz (py_float 157542 100).
Definition L2_HZ : Z := hz_of_mhz (py_float 122760 100).
Definition L5_HZ : Z := hz_of_mhz (py_float 117645 100).

End Constants.
Export Constants.

(* ===================================================================== *)
(** ** The driver interface and the environment *)
(* ===================================================================== *)

(** [_bladerf.CHANNEL_TX(idx)] *)
Inductive channel := CHANNEL_TX (idx : Z).
(** [_bladerf.ChannelLayout] *)
Inductive channel_layout := TX_X1 | TX_X2.
(** [_bladerf.Format] *)
Inductive sample_format := SC16_Q11.

(** The driver calls the scripts make; [Open] is [_bladerf.BladeRF()]. *)
Inductive call :=
| Open
| SetFrequency (ch : channel) (hz : Z)
| GetFrequency (ch : channel)
| SetSampleRate (ch : channel) (hz : Z)
| GetSampleRate (ch : channel)
| SetBandwidth (ch : channel) (hz : Z)
| GetBandwidth (ch : channel)
| SetGain (ch : channel) (db : Z)
| GetGain (ch : channel)
| GetGainStages (ch : channel)
| SetGainStage (ch : channel) (stage : string) (gain : Z)
| SetBiasTee (ch : channel) (enable : bool)
| SyncConfig (layout : channel_layout) (fmt : sample_format)
             (num_buffers buffer_size num_transfers stream_timeout : Z)
| EnableModule (ch : channel) (enable : bool)
| SyncTx (buf : list Z) (timeout_ms : Z)
| Close.

(** The exceptions [main] tells apart: [_bladerf.BladeRFError], and any
    other subclass of [Exception] ([TypeError], [ValueError], ...). *)
Inductive exn := BladeRFError | PyError.

(** What a call hands back: Python is dynamically typed. *)
Inductive value := VNone | VNum (z : Z) | VStages (names : list string).

Inductive reply := Returns (v : value) | Raises (e : exn).

(** The return types of the binding: the four read-backs are numbers,
    [get_gain_stages] is a list of names. *)
Definition well_typed (c : call) (r : reply) : bool :=
  match r, c with
  | Raises _, _ => true
  | Returns (VNum _), (GetFrequency _ | GetSampleRate _ | GetBandwidth _ | GetGain _) => true
  | Returns _, (GetFrequency _ | GetSampleRate _ | GetBandwidth _ | GetGain _) => false
  | Returns (VStages _), GetGainStages _ => true
  | Returns _, GetGainStages _ => false
  | Returns _, _ => true
  end.

(** The environment answers the driver calls (with the return types of
    the binding), and says at each point where the interpreter can run a
    signal handler whether SIGINT is pending there. *)
Class Environment (S : Type) := {
  respond : call → S → reply * S;
  sigint : S → bool * S;
  respond_typed : ∀ c s, well_typed c (respond c s).1 = true
}.

#[global] Instance channel_eq_dec : EqDecision channel.
Proof. solve_decision. Defined.
#[global] Instance channel_layout_eq_dec : EqDecision channel_layout.
Proof. solve_decision. Defined.
#[global] Instance sample_format_eq_dec : EqDecision sample_format.
Proof. solve_decision. Defined.
#[global] Instance call_eq_dec : EqDecision call.
Proof. solve_decision. Defined.
#[global] Instance exn_eq_dec : EqDecision exn.
Proof. solve_decision. Defined.
#[global] Instance value_eq_dec : EqDecision value.
Proof. solve_decision. Defined.
#[global] Instance reply_eq_dec : EqDecision reply.
Proof. solve_decision. Defined.

(** What an observer sees of a run, in order. *)
Inductive event :=
| EvSigint                       (* [signal_handler] ran: [running = False] *)
| EvPoll (b : bool)              (* [while running] read [b] *)
| EvCall (c : call) (r : reply)  (* a driver call and its answer *)
| EvSleep.                       (* [time.sleep(0.001)] *)

(* ===================================================================== *)
(** ** Program state and the monad of statements *)
(* ===================================================================== *)

(** [running] is the module global, [dev] tells whether the local [dev]
    of [main] holds a device ([dev = None] before [BladeRF()] returns). *)
Record world (S G : Type) := World {
  env : S;
  np : G;
  running : bool;
  dev : bool;
  log : list event
}.
Arguments World {S G}.
Arguments env {S G}.
Arguments np {S G}.
Arguments running {S G}.
Arguments dev {S G}.
Arguments log {S G}.

(** A statement returns, raises, or ([Unfinished]) is still inside the
    transmit loop when the fuel of the model is spent. *)
Inductive result (A : Type) :=
| Ok (a : A)
| Raise (e : exn)
| Unfinished.
Arguments Ok {A}.
Arguments Raise {A}.
Arguments Unfinished {A}.

(** How [main] ends: [sys.exit(code)], an exception nobody caught, or
    not within the fuel. *)
Inductive outcome := Exit (code : Z) | Uncaught (e : exn) | StillRunning.

Section Program.
Context {S G : Type} `{!Environment S} `{!NumpyRuntime G}.

Definition M (A : Type) : Type := world S G → result A * world S G.

Definition ret {A} (a : A) : M A := λ w, (Ok a, w).

Definition bind {A B} (m : M A) (k : A → M B) : M B := λ w,
  match m w with
  | (Ok a, w') => k a w'
  | (Raise e, w') => (Raise e, w')
  | (Unfinished, w') => (Unfinished, w')
  end.

#[global] Instance M_ret : MRet M := @ret.
#[global] Instance M_bind : MBind M := λ A B k m, bind m k.

Definition raise {A} (e : exn) : M A := λ w, (Raise e, w).
Definition unfinished {A} : M A := λ w, (Unfinished, w).

(** [try: m / except: pass] *)
Definition try_pass (m : M unit) : M unit := λ w,
  match m w with
  | (Raise _, w') => (Ok tt, w')
  | r => r
  end.

Definition emit (e : event) (w : world S G) : world S G :=
  World (env w) (np w) (running w) (dev w) (log w ++ [e]).

(** A point where the interpreter runs a pending handler:
<<
    def signal_handler(sig, frame):
        global running
        running = False
>> *)
Definition handle_signals (w : world S G) : world S G :=
  let '(pending, s) := sigint (env w) in
  if pending
  then emit EvSigint (World s (np w) false (dev w) (log w))
  else World s (np w) (running w) (dev w) (log w).

(** A driver call. Handlers run between bytecodes, so a SIGINT that
    arrives while the call blocks is handled at the next such point. *)
Definition do_call (c : call) : M value := λ w,
  let w := handle_signals w in
  let '(r, s) := respond c (env w) in
  let w := emit (EvCall c r) (World s (np w) (running w) (dev w) (log w)) in
  match r with
  | Returns v => (Ok v, w)
  | Raises e => (Raise e, w)
  end.

(** A call whose value is dropped. *)
Definition do_ (c : call) : M unit := do_call c ;; mret tt.

(** The condition of [while running]. *)
Definition poll_running : M bool := λ w,
  let w := handle_signals w in
  (Ok (running w), emit (EvPoll (running w)) w).

(** [time.sleep(0.001)] *)
Definition sleep : M unit := λ w,
  let w := handle_signals w in
  (Ok tt, emit EvSleep w).

(** [dev = ...] after [BladeRF()] returned. *)
Definition bind_dev : M unit := λ w,
  (Ok tt, World (env w) (np w) (running w) true (log w)).

(** [if dev:] *)
Definition dev_bound : M bool := λ w, (Ok (dev w), w).

(** Statements on the NumPy runtime. *)
Definition np_run {A} (f : G → option A * G) : M A := λ w,
  let '(r, g) := f (np w) in
  let w := World (env w) g (running w) (dev w) (log w) in
  match r with
  | Some a => (Ok a, w)
  | None => (Raise PyError, w)
  end.

Definition np_randint (lo hi : Z) : M Z := np_run (λ g, let '(x, g) := randint lo hi g in (Some x, g)).

(** [x / 1e6] inside a message: a [TypeError] unless [x] is a number. *)
Definition per_million (v : value) : M unit :=
  match v with
  | VNum _ => mret tt
  | _ => raise PyError
  end.

(** [for x in l: body] *)
Fixpoint for_each {A} (l : list A) (body : A → M unit) : M unit :=
  match l with
  | [] => mret tt
  | x :: l' => body x ;; for_each l' body
  end.

(** [for stage in v: body], a [TypeError] unless [v] is a sequence. *)
Definition for_stage_in (v : value) (body : string → M unit) : M unit :=
  match v with
  | VStages names => for_each names body
  | _ => raise PyError
  end.

(** The stage loop, the same in [configure_channel] and in the
    single-channel [main]. *)
Definition set_gain_stages (channel : channel) (gain_stages : value) : M unit :=
  for_stage_in gain_stages (λ stage,
    try_pass (
      if contains "dsa" (lower stage)
      then do_ (SetGainStage channel stage 0)
      else do_ (SetGainStage channel stage 60))).

(** [configure_channel(dev, channel_idx, freq_hz, gain_db, name)] of the
    dual-channel scripts. *)
Definition configure_channel (channel_idx freq_hz gain_db : Z) : M channel :=
  let channel := CHANNEL_TX channel_idx in
  do_ (SetFrequency channel freq_hz) ;;
  actual_freq ← do_call (GetFrequency channel);
  per_million actual_freq ;;
  do_ (SetSampleRate channel SAMPLE_RATE_HZ) ;;
  actual_rate ← do_call (GetSampleRate channel);
  per_million actual_rate ;;
  do_ (SetBandwidth channel BANDWIDTH_HZ) ;;
  actual_bw ← do_call (GetBandwidth channel);
  per_million actual_bw ;;
  do_ (SetGain channel gain_db) ;;
  actual_gain ← do_call (GetGain channel);
  gain_stages ← do_call (GetGainStages channel);
  set_gain_stages channel gain_stages ;;
  try_pass (do_ (SetBiasTee channel true)) ;;
  mret channel.

(** One pass of the dual-channel [while running] body. *)
Definition dual_iteration (buffer_size : nat) (timeout_ms : Z) : M unit :=
  noise_ch0 ← np_run (generate_white_noise buffer_size);
  noise_ch1 ← np_run (generate_white_noise buffer_size);
  dual_samples ← np_run (λ g, (dual_interleave g buffer_size noise_ch0 noise_ch1, g));
  do_ (SyncTx dual_samples timeout_ms) ;;
  sleep.

(** [while running: ...] of the dual-channel scripts; [fuel] bounds the
    number of times the condition is evaluated. *)
Fixpoint dual_loop (fuel : nat) (buffer_size : nat) (timeout_ms : Z) : M unit :=
  match fuel with
  | O => unfinished
  | Datatypes.S fuel' =>
      go ← poll_running;
      if go : bool
      then dual_iteration buffer_size timeout_ms ;; dual_loop fuel' buffer_size timeout_ms
      else mret tt
  end.

(** One pass of the single-channel [while running] body; it returns the
    [noise_buffer] of the next pass.
<<
    dev.sync_tx(noise_buffer, timeout_ms)
    if np.random.randint(0, 100) == 0:
        noise_buffer = generate_white_noise(num_samples)
    time.sleep(0.001)
>> *)
Definition single_iteration (num_samples : nat) (timeout_ms : Z) (noise_buffer : list Z)
  : M (list Z) :=
  do_ (SyncTx noise_buffer timeout_ms) ;;
  draw ← np_randint 0 100;
  noise_buffer ← (if decide (draw = 0)
                  then np_run (generate_white_noise num_samples)
                  else mret noise_buffer);
  sleep ;;
  mret noise_buffer.

Fixpoint single_loop (fuel : nat) (num_samples : nat) (timeout_ms : Z)
  (noise_buffer : list Z) : M unit :=
  match fuel with
  | O => unfinished
  | Datatypes.S fuel' =>
      go ← poll_running;
      if go : bool
      then noise_buffer ← single_iteration num_samples timeout_ms noise_buffer;
           single_loop fuel' num_samples timeout_ms noise_buffer
      else mret tt
  end.

(** The module constants in which the two dual-channel scripts differ. *)
Record dual_script := DualScript {
  FREQ1_HZ : Z;
  FREQ2_HZ : Z;
  TX_GAIN_1_DB : Z;
  TX_GAIN_2_DB : Z
}.

(** The streaming locals of [main]. *)
Record stream_locals := StreamLocals {
  num_buffers : Z;
  buffer_size : nat;
  num_transfers : Z;
  timeout_ms : Z
}.

(** The body of [try:] in the dual-channel [main]. *)
Definition dual_try (k : dual_script) (p : stream_locals) (fuel : nat) : M unit :=
  do_ Open ;;
  bind_dev ;;
  ch0 ← configure_channel 0 (FREQ1_HZ k) (TX_GAIN_1_DB k);
  ch1 ← configure_channel 1 (FREQ2_HZ k) (TX_GAIN_2_DB k);
  do_ (SyncConfig TX_X2 SC16_Q11 (num_buffers p) (Z.of_nat (buffer_size p))
         (num_transfers p) (timeout_ms p)) ;;
  do_ (EnableModule ch0 true) ;;
  do_ (EnableModule ch1 true) ;;
  dual_loop fuel (buffer_size p) (timeout_ms p).

(** The body of [finally:] in the dual-channel [main]. *)
Definition dual_finally : M unit :=
  d ← dev_bound;
  if d : bool
  then try_pass (
         do_ (EnableModule (CHANNEL_TX 0) false) ;;
         do_ (EnableModule (CHANNEL_TX 1) false) ;;
         do_ Close)
  else mret tt.

(** The body of [try:] in the single-channel [main]. *)
Definition single_try (FREQUENCY_HZ TX_GAIN_DB : Z) (p : stream_locals) (fuel : nat) : M unit :=
  do_ Open ;;
  bind_dev ;;
  let channel := CHANNEL_TX 0 in
  do_ (SetFrequency channel FREQUENCY_HZ) ;;
  actual_freq ← do_call (GetFrequency channel);
  per_million actual_freq ;;
  do_ (SetSampleRate channel SAMPLE_RATE_HZ) ;;
  actual_rate ← do_call (GetSampleRate channel);
  per_million actual_rate ;;
  do_ (SetBandwidth channel BANDWIDTH_HZ) ;;
  actual_bw ← do_call (GetBandwidth channel);
  per_million actual_bw ;;
  gain_stages ← do_call (GetGainStages channel);
  do_ (SetGain channel TX_GAIN_DB) ;;
  actual_gain ← do_call (GetGain channel);
  set_gain_stages channel gain_stages ;;
  try_pass (do_ (SetBiasTee channel true)) ;;
  do_ (SyncConfig TX_X1 SC16_Q11 (num_buffers p) (Z.of_nat (buffer_size p))
         (num_transfers p) (timeout_ms p)) ;;
  do_ (EnableModule channel true) ;;
  let num_samples := buffer_size p in
  noise_buffer ← np_run (generate_white_noise num_samples);
  single_loop fuel num_samples (timeout_ms p) noise_buffer.

(** The body of [finally:] in the single-channel [main]. *)
Definition single_finally : M unit :=
  d ← dev_bound;
  if d : bool
  then try_pass (
         let channel := CHANNEL_TX 0 in
         do_ (EnableModule channel false) ;;
         do_ Close)
  else mret tt.

(** [try: ... except BladeRFError: return 1 / except Exception: return 1 /
    finally: ...] followed by [return 0]. An exception of the [finally]
    block would replace the pending [return]. *)
Definition try_except_finally (try_block finally_block : M unit)
  : world S G → outcome * world S G := λ w,
  match try_block w with
  | (Unfinished, w1) => (StillRunning, w1)
  | (r, w1) =>
      match finally_block w1 with
      | (Ok _, w2) => (Exit (match r with Raise _ => 1 | _ => 0 end), w2)
      | (Raise e, w2) => (Uncaught e, w2)
      | (Unfinished, w2) => (StillRunning, w2)
      end
  end.

(** The state [main] starts in: [running = True], [dev = None]. *)
Definition init_world (s : S) (g : G) : world S G := World s g true false [].

(** [main()] of a dual-channel script, on its constants and locals. *)
Definition dual_main (k : dual_script) (p : stream_locals) (fuel : nat)
  : world S G → outcome * world S G :=
  try_except_finally (dual_try k p fuel) dual_finally.

(** [main()] of the single-channel script. *)
Definition single_main (FREQUENCY_HZ TX_GAIN_DB : Z) (p : stream_locals) (fuel : nat)
  : world S G → outcome * world S G :=
  try_except_finally (single_try FREQUENCY_HZ TX_GAIN_DB p fuel) single_finally.

End Program.

(** The constants and locals as the scripts have them. *)
Definition l1_l2_script : dual_script := DualScript L1_HZ L2_HZ 60 60.
Definition l2_l5_script : dual_script := DualScript L2_HZ L5_HZ 60 60.
Definition script_locals : stream_locals := StreamLocals 16 (Z.to_nat 8192) 8 3500.

(** [transmit_gps_l1_l2_dual.main], [transmit_gps_l2_l5_dual.main] and
    [transmit_gps_l5.main]. *)
Definition main_l1_l2 {S G} `{!Environment S} `{!NumpyRuntime G} (fuel : nat) (s : S) (g : G) :=
  dual_main l1_l2_script script_locals fuel (init_world s g).
Definition main_l2_l5 {S G} `{!Environment S} `{!NumpyRuntime G} (fuel : nat) (s : S) (g : G) :=
  dual_main l2_l5_script script_locals fuel (init_world s g).
Definition main_l5 {S G} `{!Environment S} `{!NumpyRuntime G} (fuel : nat) (s : S) (g : G) :=
  single_main L5_HZ 60 script_locals fuel (init_world s g).

(* ===================================================================== *)
(** ** A simulated device, to run the scripts *)
(* ===================================================================== *)

Module Sim.

(** [sim_faulty n c]: call [c] raises when [n] transmissions were
    answered before it. *)
Record sim := MkSim {
  sim_points : nat;                 (* handler points passed so far *)
  sim_sigint_at : option nat;       (* the point at which SIGINT is handled *)
  sim_sent : nat;                   (* [sync_tx] calls answered so far *)
  sim_faulty : nat → call → bool;
  sim_stage_names : list string;
  sim_stage_gains : gmap string Z;  (* stage values written *)
  sim_enabled : list Z;             (* TX channels switched on *)
  sim_open : bool
}.

Definition sim_respond (c : call) (s0 : sim) : reply * sim :=
  let sent := match c with SyncTx _ _ => Datatypes.S (sim_sent s0) | _ => sim_sent s0 end in
  let s := MkSim (sim_points s0) (sim_sigint_at s0) sent (sim_faulty s0)
             (sim_stage_names s0) (sim_stage_gains s0) (sim_enabled s0) (sim_open s0) in
  if sim_faulty s0 (sim_sent s0) c then (Raises BladeRFError, s)
  else match c with
  | GetFrequency _ | GetSampleRate _ | GetBandwidth _ | GetGain _ => (Returns (VNum 1), s)
  | GetGainStages _ => (Returns (VStages (sim_stage_names s)), s)
  | SetGainStage _ stage v =>
      (Returns VNone,
       MkSim (sim_points s) (sim_sigint_at s) (sim_sent s) (sim_faulty s)
         (sim_stage_names s) (<[stage := v]> (sim_stage_gains s)) (sim_enabled s) (sim_open s))
  | EnableModule (CHANNEL_TX i) b =>
      (Returns VNone,
       MkSim (sim_points s) (sim_sigint_at s) (sim_sent s) (sim_faulty s)
         (sim_stage_names s) (sim_stage_gains s)
         (if b then i :: sim_enabled s else filter (λ j, j ≠ i) (sim_enabled s)) (sim_open s))
  | Open =>
      (Returns VNone,
       MkSim (sim_points s) (sim_sigint_at s) (sim_sent s) (sim_faulty s)
         (sim_stage_names s) (sim_stage_gains s) (sim_enabled s) true)
  | Close =>
      (Returns VNone,
       MkSim (sim_points s) (sim_sigint_at s) (sim_sent s) (sim_faulty s)
         (sim_stage_names s) (sim_stage_gains s) (sim_enabled s) false)
  | _ => (Returns VNone, s)
  end.

Definition sim_sigint (s : sim) : bool * sim :=
  (bool_decide (sim_sigint_at s = Some (sim_points s)),
   MkSim (Datatypes.S (sim_points s)) (sim_sigint_at s) (sim_sent s) (sim_faulty s)
     (sim_stage_names s) (sim_stage_gains s) (sim_enabled s) (sim_open s)).

#[export] Program Instance sim_environment : Environment sim :=
  {| respond := sim_respond; sigint := sim_sigint |}.
Next Obligation.
  intros c s. unfold sim_respond.
  destruct (sim_faulty _ _ c); [done|].
  destruct c as [| | | | | | | | | | | | |[]| |]; done.
Qed.

(** A board with the stages of the spec's example; SIGINT at point
    [sigint_at], calls failing as [faulty] says. *)
Definition board (sigint_at : option nat) (faulty : nat → call → bool) : sim :=
  MkSim 0 sigint_at 0 faulty ["txvga1"; "dsa1"; "dsa2"]%string ∅ [] false.

Definition never (_ : nat) (_ : call) : bool := false.

(** The second transmission times out. *)
Definition second_tx_fails (sent : nat) (c : call) : bool :=
  match c with SyncTx _ _ => bool_decide (sent = 1%nat) | _ => false end.

(** [get_gain_stages] fails. *)
Definition stages_fail (_ : nat) (c : call) : bool :=
  match c with GetGainStages _ => true | _ => false end.

(** Switching channel 0 off fails. *)
Definition disable0_fails (_ : nat) (c : call) : bool :=
  match c with EnableModule (CHANNEL_TX 0) false => true | _ => false end.

(** Switching channel 0 off fails (SIGINT stops the loop), and: the
    second transmission times out. *)
Definition no_fault_board : sim := board (Some 40%nat) never.
Definition disable0_board : sim := board (Some 40%nat) disable0_fails.
Definition second_tx_board : sim := board None second_tx_fails.

(** Small locals, as in the spec's end-to-end scenario. *)
Definition small_locals : stream_locals := StreamLocals 16 8 8 3500.

End Sim.
Export Sim.

(* ===================================================================== *)
(** ** Observations on a log, and assertions on statements *)
(* ===================================================================== *)

(** The driver calls of a log with their answers, in order. *)
Definition replies_of (l : list event) : list (call * reply) :=
  omap (λ e, match e with EvCall c r => Some (c, r) | _ => None end) l.

(** The driver calls of a log, in order. *)
Definition calls_of (l : list event) : list call := (replies_of l).*1.

Definition is_sigint (e : event) : bool :=
  match e with EvSigint => true | _ => false end.

Definition is_tx (e : event) : bool :=
  match e with EvCall (SyncTx _ _) _ => true | _ => false end.

Definition is_poll (e : event) : bool :=
  match e with EvPoll _ => true | _ => false end.

(** The cancellation flag has been set somewhere in the log. *)
Definition has_sigint (l : list event) : bool := existsb is_sigint l.

(** What follows the first time the flag is set. *)
Fixpoint after_sigint (l : list event) : list event :=
  match l with
  | [] => []
  | EvSigint :: l' => l'
  | _ :: l' => after_sigint l'
  end.

Definition count_tx (l : list event) : nat := length (List.filter is_tx l).
Definition count_poll (l : list event) : nat := length (List.filter is_poll l).

(** Transmit calls made after the flag was first set. *)
Definition tx_after_sigint (l : list event) : nat := count_tx (after_sigint l).

(** The calls whose failure ends the run: all but the per-stage writes,
    the bias tee, and the two calls of the shutdown path. *)
Definition fatal (c : call) : bool :=
  match c with
  | SetGainStage _ _ _ | SetBiasTee _ _ | EnableModule _ false | Close => false
  | _ => true
  end.

(** The frequency, sample-rate, bandwidth and aggregate-gain
    applications: the four settings with their read-backs. *)
Definition named_application (c : call) : bool :=
  match c with
  | SetFrequency _ _ | GetFrequency _ | SetSampleRate _ _ | GetSampleRate _
  | SetBandwidth _ _ | GetBandwidth _ | SetGain _ _ | GetGain _ => true
  | _ => false
  end.

(** The read-backs among them. *)
Definition read_back (c : call) : bool :=
  match c with
  | GetFrequency _ | GetSampleRate _ | GetBandwidth _ | GetGain _ => true
  | _ => false
  end.

(** The calls of channel configuration that are not guarded by a
    [try]: the named applications and the enumeration of the gain
    stages. *)
Definition application (c : call) : bool :=
  match c with
  | GetGainStages _ => true
  | _ => named_application c
  end.

(** Every call fails that [sim_faulty] can make fail without ending
    configuration. *)
Definition guarded_fail (_ : nat) (c : call) : bool :=
  match c with SetGainStage _ _ _ | SetBiasTee _ _ => true | _ => false end.

Definition failure_at (crit : call → bool) (e : event) : bool :=
  match e with EvCall c (Raises _) => crit c | _ => false end.

(** One of the calls [crit] selects failed somewhere in the log. *)
Definition failure (crit : call → bool) (l : list event) : bool :=
  existsb (failure_at crit) l.

(** A fatal call failed somewhere in the log. *)
Definition fatal_failure (l : list event) : bool := failure fatal l.

#[global] Instance event_eq_dec : EqDecision event.
Proof. solve_decision. Defined.

(** A guarded sequence of calls: the [steps] are made in order up to the
    first that raises, which is the last one made. *)
Fixpoint stops_at_first_failure (steps : list call) (rs : list (call * reply)) : Prop :=
  match steps, rs with
  | [], [] => True
  | c :: _, [(c', Raises _)] => c' = c
  | c :: steps', (c', Returns _) :: rs' => c' = c ∧ stops_at_first_failure steps' rs'
  | _, _ => False
  end.

(** The calls of the two [finally] blocks. *)
Definition dual_teardown : list call :=
  [EnableModule (CHANNEL_TX 0) false; EnableModule (CHANNEL_TX 1) false; Close].
Definition single_teardown : list call :=
  [EnableModule (CHANNEL_TX 0) false; Close].

(** The events a handler point adds. *)
Definition sig_events (pending : bool) : list event :=
  if pending then [EvSigint] else [].

Section Assertions.
Context {S G : Type} `{!Environment S} `{!NumpyRuntime G}.

(** A statement started where [P] holds ends where [Q] holds if it
    returns, where [E] holds if it raises, and where [U] holds if the
    fuel is spent inside it. *)
Definition triple {A} (P : world S G → Prop) (m : M A)
    (Q : A → world S G → Prop) (E : exn → world S G → Prop) (U : world S G → Prop) : Prop :=
  ∀ w, P w →
    match m w with
    | (Ok a, w') => Q a w'
    | (Raise e, w') => E e w'
    | (Unfinished, w') => U w'
    end.

(** The world a handler point leaves: [pending] says whether the
    handler ran. *)
Definition signalled (w : world S G) (pending : bool) : world S G :=
  World (sigint (env w)).2 (np w) (running w && negb pending) (dev w)
    (log w ++ sig_events pending).

(** The world an assignment to the NumPy state leaves. *)
Definition with_np (w : world S G) (g : G) : world S G :=
  World (env w) g (running w) (dev w) (log w).

(** The world a driver call leaves: [pending] says whether the handler
    ran before it, [r] is the answer, [s] the environment afterwards. *)
Definition after_call (w : world S G) (pending : bool) (c : call) (r : reply) (s : S)
  : world S G :=
  World s (np w) (running w && negb pending) (dev w)
    (log w ++ sig_events pending ++ [EvCall c r]).

(** Since the log was [base], none of the calls [crit] selects failed. *)
Definition clean (crit : call → bool) (base : list event) (w : world S G) : Prop :=
  ∃ evs, log w = base ++ evs ∧ failure crit evs = false.

(** Since the log was [base], the first call among those [crit] selects
    to fail raised [e], and it is the last event. *)
Definition broke (crit : call → bool) (base : list event) (e : exn) (w : world S G) : Prop :=
  ∃ pre c, log w = base ++ pre ++ [EvCall c (Raises e)] ∧
           crit c = true ∧ failure crit pre = false.

(** [I] survives every call [ok] selects, whatever its answer, and the
    assignments to the NumPy state and to [dev]. *)
Definition closed (ok : call → bool) (I : world S G → Prop) : Prop :=
  (∀ w pending c r s, I w → ok c = true → I (after_call w pending c r s)) ∧
  (∀ w g, I w → I (with_np w g)) ∧
  (∀ w, I w → I (World (env w) (np w) (running w) true (log w))).

(** The calls other than [sync_tx]. *)
Definition not_tx (c : call) : bool :=
  match c with SyncTx _ _ => false | _ => true end.

(** What a [finally] block adds to the log: no transmission, no
    evaluation of the loop condition, no fatal call; its [steps] up to the
    first failure when [dev] is bound, nothing otherwise. *)
Definition teardown_log (steps : list call) (w w' : world S G) (evs : list event) : Prop :=
  log w' = log w ++ evs ∧
  count_tx evs = 0%nat ∧ count_poll evs = 0%nat ∧ failure fatal evs = false ∧
  if dev w then stops_at_first_failure steps (replies_of evs) else evs = [].

(** How the run of a [main] reads in its log, [steps] being the calls
    of its [finally] block and [fuel] the bound on loop passes.
    - [Exit 0]: no fatal call failed; the loop condition read [False],
      and what follows is the shutdown.
    - [Exit 1]: a fatal call raised; nothing before it failed, and what
      follows it is the shutdown (no transmission, no further evaluation
      of the loop condition), or nothing at all when the call that failed
      is [BladeRF()] itself.
    - no exception leaves [main].
    - a run that has not ended made [fuel] transmissions and saw no
      fatal failure. *)
Definition verdict (steps : list call) (fuel : nat) (run : outcome * world S G) : Prop :=
  match run.1 with
  | Exit code =>
      (code = 0 ∧ fatal_failure (log run.2) = false ∧
       ∃ pre post,
         log run.2 = pre ++ [EvPoll false] ++ post ∧
         count_tx post = 0%nat ∧ count_poll post = 0%nat ∧
         stops_at_first_failure steps (replies_of post)) ∨
      (code = 1 ∧ fatal_failure (log run.2) = true ∧
       ∃ pre c e post,
         log run.2 = pre ++ [EvCall c (Raises e)] ++ post ∧
         fatal c = true ∧ fatal_failure pre = false ∧
         count_tx post = 0%nat ∧ count_poll post = 0%nat ∧
         (stops_at_first_failure steps (replies_of post) ∨ (c = Open ∧ post = [])))
  | Uncaught _ => False
  | StillRunning =>
      fatal_failure (log run.2) = false ∧ count_tx (log run.2) = fuel
  end.

(** The answers to the transmit calls of a log, in order. *)
Definition tx_replies (l : list event) : list reply :=
  omap (λ e, match e with EvCall (SyncTx _ _) r => Some r | _ => None end) l.

(** The last [n] events of a log. *)
Definition last_events (n : nat) (l : list event) : list event :=
  drop (length l - n) l.

(** [running] is [False] exactly when the handler ran. *)
Definition flag_tracks_log (w : world S G) : Prop :=
  running w = negb (has_sigint (log w)).

(** Loop accounting: at most [n] transmit calls since the flag was set,
    and [k] more evaluations of the loop condition than transmit calls. *)
Definition acct (n k : nat) (w : world S G) : Prop :=
  flag_tracks_log w ∧
  (tx_after_sigint (log w) ≤ n)%nat ∧
  count_poll (log w) = (count_tx (log w) + k)%nat.

End Assertions.

(* ===================================================================== *)
(** ** Further observations on a log *)
(* ===================================================================== *)

(** A buffer of [n] samples within the headroom bound. *)
Definition in_headroom (n : nat) (buf : list Z) : Prop :=
  length buf = (2 * n)%nat ∧ Forall (λ v, -1944 ≤ v ≤ 1944) buf.

(** A transmit call hands over [n] samples within the headroom bound,
    with the timeout [t0]; other events are not constrained. *)
Definition good_tx (n : nat) (t0 : Z) (e : event) : Prop :=
  match e with
  | EvCall (SyncTx buf t) _ => in_headroom n buf ∧ t = t0
  | _ => True
  end.

(** The per-stage writes, in the order of the stage names. *)
Definition stage_writes (ch : channel) (names : list string) : list call :=
  (λ stage, SetGainStage ch stage (stage_gain stage)) <$> names.

(** The unguarded calls of [configure_channel], in program order. *)
Definition channel_head (channel_idx freq_hz gain_db : Z) : list call :=
  let ch := CHANNEL_TX channel_idx in
  [SetFrequency ch freq_hz; GetFrequency ch;
   SetSampleRate ch SAMPLE_RATE_HZ; GetSampleRate ch;
   SetBandwidth ch BANDWIDTH_HZ; GetBandwidth ch;
   SetGain ch gain_db; GetGain ch;
   GetGainStages ch].

(** All the calls of a [configure_channel] that returns, [names] being
    the gain stages the device listed. *)
Definition channel_calls (channel_idx freq_hz gain_db : Z) (names : list string) : list call :=
  channel_head channel_idx freq_hz gain_db ++
  stage_writes (CHANNEL_TX channel_idx) names ++
  [SetBiasTee (CHANNEL_TX channel_idx) true].

(** The calls of the dual-channel [main] before its loop. *)
Definition dual_startup (k : dual_script) (p : stream_locals)
    (names0 names1 : list string) : list call :=
  [Open] ++
  channel_calls 0 (FREQ1_HZ k) (TX_GAIN_1_DB k) names0 ++
  channel_calls 1 (FREQ2_HZ k) (TX_GAIN_2_DB k) names1 ++
  [SyncConfig TX_X2 SC16_Q11 (num_buffers p) (Z.of_nat (buffer_size p))
     (num_transfers p) (timeout_ms p);
   EnableModule (CHANNEL_TX 0) true;
   EnableModule (CHANNEL_TX 1) true].

(** The calls of the single-channel [main] before its loop: the gain
    stages are listed before the gain is set. *)
Definition single_startup (FREQUENCY_HZ TX_GAIN_DB : Z) (p : stream_locals)
    (names : list string) : list call :=
  let ch := CHANNEL_TX 0 in
  [Open;
   SetFrequency ch FREQUENCY_HZ; GetFrequency ch;
   SetSampleRate ch SAMPLE_RATE_HZ; GetSampleRate ch;
   SetBandwidth ch BANDWIDTH_HZ; GetBandwidth ch;
   GetGainStages ch;
   SetGain ch TX_GAIN_DB; GetGain ch] ++
  stage_writes ch names ++
  [SetBiasTee ch true;
   SyncConfig TX_X1 SC16_Q11 (num_buffers p) (Z.of_nat (buffer_size p))
     (num_transfers p) (timeout_ms p);
   EnableModule ch true].

(** The calls made once the stream is set up: transmissions, and the
    calls of the shutdown path. *)
Definition streaming (c : call) : bool :=
  match c with
  | SyncTx _ _ | EnableModule _ false | Close => true
  | _ => false
  end.

(** The calls of the shutdown path. *)
Definition shutdown_call (c : call) : bool :=
  match c with
  | EnableModule _ false | Close => true
  | _ => false
  end.

Definition is_sleep (e : event) : bool :=
  match e with EvSleep => true | _ => false end.

Definition is_tx_ok (e : event) : bool :=
  match e with EvCall (SyncTx _ _) (Returns _) => true | _ => false end.

Definition count_sleep (l : list event) : nat := length (List.filter is_sleep l).
Definition count_tx_ok (l : list event) : nat := length (List.filter is_tx_ok l).

(** Each transmission returned and was followed by one pause. *)
Definition in_step (l : list event) : Prop :=
  count_sleep l = count_tx_ok l ∧ count_tx l = count_tx_ok l.

(** Each transmission that returned was followed by one pause, and at
    most one transmission failed. *)
Definition paced (l : list event) : Prop :=
  count_sleep l = count_tx_ok l ∧
  (count_tx_ok l ≤ count_tx l ≤ count_tx_ok l + 1)%nat.

Section MoreAssertions.
Context {S G : Type} `{!Environment S} `{!NumpyRuntime G}.

(** Since the log was [base] the calls made are [L], none of them a
    transmission. *)
Definition traced (base : list event) (L : list call) (w : world S G) : Prop :=
  ∃ evs, log w = base ++ evs ∧ calls_of evs = L ∧ count_tx evs = 0%nat.

(** The same, and none of the fatal calls among them failed. *)
Definition setting_up (base : list event) (L : list call) (w : world S G) : Prop :=
  ∃ evs, log w = base ++ evs ∧ calls_of evs = L ∧ count_tx evs = 0%nat ∧
         failure fatal evs = false.

(** The log starts with the calls [L], none of the fatal ones failing, and
    what follows are transmissions and calls of the shutdown path only. *)
Definition armed (L : list call) (w : world S G) : Prop :=
  ∃ pre post, log w = pre ++ post ∧
              calls_of pre = L ∧ count_tx pre = 0%nat ∧ failure fatal pre = false ∧
              Forall (λ c, streaming c = true) (calls_of post).

(** Either nothing was transmitted, or the stream had been set up by the
    calls [F names0 names1], for some gain stages the device listed. *)
Definition silent_or_armed (F : list string → list string → list call) (w : world S G) : Prop :=
  count_tx (log w) = 0%nat ∨ ∃ names0 names1, armed (F names0 names1) w.

(** Why a run ended: with [0] only after the handler ran, with [1] only
    after a fatal call failed; a run that has not ended made [fuel]
    transmissions.  The flag is down exactly when the handler ran. *)
Definition exit_reason (fuel : nat) (run : outcome * world S G) : Prop :=
  flag_tracks_log run.2 ∧
  match run.1 with
  | Exit code =>
      (code = 0 ∧ running run.2 = false ∧ has_sigint (log run.2) = true ∧
       fatal_failure (log run.2) = false) ∨
      (code = 1 ∧ fatal_failure (log run.2) = true)
  | Uncaught _ => False
  | StillRunning => count_tx (log run.2) = fuel ∧ fatal_failure (log run.2) = false
  end.

(** [BladeRF()] raised: it is the only call made, and [dev] is unbound. *)
Definition unopened (w : world S G) : Prop :=
  dev w = false ∧ ∃ e, replies_of (log w) = [(Open, Raises e)].

(** [BladeRF()] returned, as the first call made, and [dev] is bound. *)
Definition opened (w : world S G) : Prop :=
  dev w = true ∧ ∃ v rest, replies_of (log w) = (Open, Returns v) :: rest.

End MoreAssertions.

(* ===================================================================== *)
(** * Properties *)
(* ===================================================================== *)

(** ** Strings *)

Lemma prefix_spec (needle hay : string) :
  String.prefix needle hay = true ↔ ∃ post, hay = String.append needle post.
Proof.
  revert hay. induction needle as [|a needle IH]; intros hay.
  - split; [intros _; by exists hay|]. intros _. by destruct hay.
  - destruct hay as [|b hay].
    + change (String.prefix (String a needle) "") with false.
      split; [done|]. intros [post Hpost]. discriminate Hpost.
    + change (String.prefix (String a needle) (String b hay))
        with (if Ascii.ascii_dec a b then String.prefix needle hay else false).
      destruct (Ascii.ascii_dec a b) as [->|Hne].
      * rewrite IH. split; intros [post Hpost]; exists post.
        -- change (String.append (String b needle) post)
             with (String b (String.append needle post)). by rewrite Hpost.
        -- change (String.append (String b needle) post)
             with (String b (String.append needle post)) in Hpost. congruence.
      * split; [done|]. intros [post Hpost].
        change (String.append (String a needle) post)
          with (String a (String.append needle post)) in Hpost. congruence.
Qed.

(** [contains] is the substring test. *)
Lemma contains_spec (needle hay : string) :
  contains needle hay = true ↔
  ∃ pre post, hay = String.append pre (String.append needle post).
Proof.
  induction hay as [|b hay IH]; cbn [contains].
  - rewrite orb_false_r, prefix_spec. split.
    + intros [post Hpost]. by exists EmptyString, post.
    + intros ([|? pre] & post & Hpre); [by exists post|discriminate Hpre].
  - rewrite orb_true_iff, prefix_spec, IH. split.
    + intros [[post Hpost]|(pre & post & Hpre)].
      * by exists EmptyString, post.
      * exists (String b pre), post.
        change (String.append (String b pre) (String.append needle post))
          with (String b (String.append pre (String.append needle post))).
        by rewrite Hpre.
    + intros ([|a pre] & post & Hpre).
      * left. by exists post.
      * right. exists pre, post.
        change (String.append (String a pre) (String.append needle post))
          with (String a (String.append pre (String.append needle post))) in Hpre.
        congruence.
Qed.

Example stage_gain_examples :
  stage_gain "txvga1" = 60 ∧ stage_gain "dsa1" = 0 ∧ stage_gain "DSA2" = 0 ∧
  stage_gain "ds" = 60.
Proof. done. Qed.

(** ** Strided slices *)

Lemma slice_len_exact (r m n : nat) : (r < m)%nat → slice_len r m (m * n) = n.
Proof.
  intros Hr. unfold slice_len. case_decide as Hlt.
  - symmetry. apply (Nat.div_unique _ _ _ (m - 1 - r)); lia.
  - destruct n as [|n]; [reflexivity | nia].
Qed.

Lemma length_slice_get (start step : nat) (a : list Z) :
  length (slice_get start step a) = slice_len start step (length a).
Proof. unfold slice_get. by rewrite length_fmap, length_seq. Qed.

Lemma slice_get_lookup (r m n k : nat) (a : list Z) :
  (r < m)%nat → length a = (m * n)%nat → (k < n)%nat →
  slice_get r m a !! k = a !! (r + k * m)%nat.
Proof.
  intros Hr Hlen Hk. unfold slice_get.
  rewrite list_lookup_fmap, Hlen, slice_len_exact by done.
  rewrite lookup_seq_lt by done. cbn.
  symmetry. apply list_lookup_lookup_total_lt. nia.
Qed.

Lemma length_slice_store (start step : nat) (src dst : list Z) :
  length (slice_store start step src dst) = length dst.
Proof.
  revert start dst. induction src as [|v src IH]; intros start dst; cbn; [done|].
  by rewrite IH, length_insert.
Qed.

(** Positions outside the view keep their contents. *)
Lemma slice_store_miss (start step i : nat) (src dst : list Z) :
  (∀ k, (k < length src)%nat → i ≠ (start + k * step)%nat) →
  slice_store start step src dst !! i = dst !! i.
Proof.
  revert start dst. induction src as [|v src IH]; intros start dst Hne; cbn; [done|].
  rewrite IH.
  - apply list_lookup_insert_ne. specialize (Hne 0%nat). cbn in Hne. lia.
  - intros k Hk. specialize (Hne (Datatypes.S k)). cbn in Hne. lia.
Qed.

(** Position [start + k*step] receives [src[k]]. *)
Lemma slice_store_hit (start step k : nat) (v : Z) (src dst : list Z) :
  (0 < step)%nat → src !! k = Some v → (start + k * step < length dst)%nat →
  slice_store start step src dst !! (start + k * step)%nat = Some v.
Proof.
  intros Hstep. revert start dst k.
  induction src as [|x src IH]; intros start dst k Hk Hin; [done|].
  destruct k as [|k]; cbn in *.
  - simplify_eq. rewrite Nat.add_0_r in *.
    rewrite slice_store_miss by (intros; nia).
    by apply list_lookup_insert_eq.
  - replace (start + (step + k * step))%nat with ((start + step) + k * step)%nat by lia.
    apply IH; [done|]. rewrite length_insert. lia.
Qed.

Lemma slice_len_step (r m len : nat) :
  (r < m)%nat → slice_len r m (m + len) = Datatypes.S (slice_len r m len).
Proof.
  intros Hr. unfold slice_len. rewrite decide_True by lia. case_decide as Hlt.
  - symmetry. apply (Nat.div_unique _ _ _ ((len - r + m - 1) `mod` m)).
    + apply Nat.mod_upper_bound. lia.
    + pose proof (Nat.div_mod (len - r + m - 1) m). lia.
  - symmetry. apply (Nat.div_unique _ _ _ (m + len - r - 1)); lia.
Qed.

(** A view of stride [m] takes one element from each block of [m]. *)
Lemma slice_get_block (r m : nat) (block l : list Z) :
  (r < m)%nat → length block = m →
  slice_get r m (block ++ l) = block !!! r :: slice_get r m l.
Proof.
  intros Hr Hb. unfold slice_get.
  rewrite length_app, Hb, slice_len_step by done.
  cbn [seq fmap list_fmap]. f_equal.
  - rewrite Nat.add_0_r. apply lookup_total_app_l. lia.
  - rewrite <- fmap_S_seq, <- list_fmap_compose. apply list_fmap_ext.
    intros _ k _. cbn.
    rewrite lookup_total_app_r by lia. f_equal. lia.
Qed.

(** A slice assignment whose source has the shape of the view. *)
Lemma slice_set_exact (r m n : nat) (src dst : list Z) :
  (r < m)%nat → length dst = (m * n)%nat → length src = n →
  slice_set r m src dst = Some (slice_store r m src dst).
Proof.
  intros Hr Hdst Hsrc. unfold slice_set.
  rewrite Hdst, slice_len_exact by done. by rewrite decide_True.
Qed.

(** ** The headroom scaling *)

(** [headroom] is the literal [0.95]: the correctly rounded quotient
    [95/100]. *)
Lemma headroom_is_095 : headroom = py_float 95 100.
Proof. vm_compute. reflexivity. Qed.

Lemma scale095_checked_all :
  forallb (λ k, scale095_checked (Z.of_nat k - 2047)) (seq 0 4095) = true.
Proof. vm_compute. reflexivity. Qed.

Lemma scale095_checked_range (x : Z) : -2047 ≤ x ≤ 2047 → scale095_checked x = true.
Proof.
  intros Hx. pose proof scale095_checked_all as Hall.
  rewrite forallb_forall in Hall.
  specialize (Hall (Z.to_nat (x + 2047))).
  replace (Z.of_nat (Z.to_nat (x + 2047)) - 2047) with x in Hall by lia.
  apply Hall, in_seq. lia.
Qed.

(** On the range of the generator the binary64 product, truncated by
    the cast, is the truncated exact product; the cast stays inside
    [int16]. *)
Lemma scale095_exact (x : Z) : -2047 ≤ x ≤ 2047 → scale095 x = trunc095 x.
Proof.
  intros Hx. apply scale095_checked_range in Hx.
  unfold scale095_checked, scale095, astype_int16 in *.
  destruct (SFmul prec emax (float_of_int x) headroom) as [ | | |s m e]; try done.
  - apply Z.eqb_eq in Hx. by subst x.
  - apply andb_prop in Hx as [Hx Hhi]. apply andb_prop in Hx as [Heq Hlo].
    apply Z.eqb_eq in Heq. apply Z.leb_le in Hlo, Hhi.
    rewrite <- Heq. unfold wrap_int16.
    rewrite Z.mod_small; lia.
Qed.

Lemma astype_in_range (x : Z) :
  -2047 ≤ x ≤ 2047 →
  match SFmul prec emax (float_of_int x) headroom with
  | S754_zero _ => True
  | S754_finite s m e => -32768 ≤ cond_Zopp s (Z.shiftl (Zpos m) e) ≤ 32767
  | _ => False
  end.
Proof.
  intros Hx. apply scale095_checked_range in Hx. unfold scale095_checked in Hx.
  destruct (SFmul prec emax (float_of_int x) headroom) as [ | | |s m e]; try done.
  apply andb_prop in Hx as [Hx Hhi]. apply andb_prop in Hx as [_ Hlo].
  apply Z.leb_le in Hlo, Hhi. lia.
Qed.

Lemma trunc095_bound (x : Z) : -2047 ≤ x ≤ 2047 → -1944 ≤ trunc095 x ≤ 1944.
Proof.
  intros Hx. unfold trunc095. split.
  - change (-1944) with (Z.quot (-2047 * 95) 100). apply Z.quot_le_mono; lia.
  - change 1944 with (Z.quot (2047 * 95) 100). apply Z.quot_le_mono; lia.
Qed.

(** ** The generator *)

Section GeneratorFacts.
Context {G : Type} `{!NumpyRuntime G}.

Lemma length_randint_array (lo hi : Z) (n : nat) (g : G) :
  length (randint_array lo hi n g).1 = n.
Proof.
  revert g. induction n as [|n IH]; intros g; cbn; [done|].
  destruct (randint lo hi g) as [x g1]. specialize (IH g1).
  destruct (randint_array lo hi n g1) as [xs g2]. cbn in *. by rewrite IH.
Qed.

Lemma randint_array_range (lo hi : Z) (n : nat) (g : G) :
  lo < hi → Forall (λ x, lo ≤ x < hi) (randint_array lo hi n g).1.
Proof.
  intros Hlt. revert g. induction n as [|n IH]; intros g; cbn; [constructor|].
  pose proof (randint_range lo hi g Hlt) as Hx.
  destruct (randint lo hi g) as [x g1]. specialize (IH g1).
  destruct (randint_array lo hi n g1) as [xs g2]. cbn in *. by constructor.
Qed.

Lemma length_np_empty (g : G) (n : nat) : length (np_empty g n) = n.
Proof. unfold np_empty. by rewrite length_fmap, length_seq. Qed.

Lemma generate_white_noise_spec (n : nat) (g : G) :
  ∃ buf : list Z,
    generate_white_noise n g = (Some buf, np_after n g) ∧
    length buf = (2 * n)%nat ∧
    ∀ s, (s < n)%nat →
      buf !! (2 * s)%nat = Some (scale095 (raw_i n g !!! s)) ∧
      buf !! (2 * s + 1)%nat = Some (scale095 (raw_q n g !!! s)).
Proof.
  unfold generate_white_noise, raw_i, raw_q, np_after.
  pose proof (length_randint_array (-2047) 2048 n g) as Hli.
  destruct (randint_array (-2047) 2048 n g) as [i g1]. cbn [fst snd] in *.
  pose proof (length_randint_array (-2047) 2048 n g1) as Hlq.
  destruct (randint_array (-2047) 2048 n g1) as [q g2]. cbn [fst snd] in *.
  rewrite (slice_set_exact 0 2 n) by (rewrite ?length_np_empty, ?length_fmap; lia).
  cbn [mbind option_bind].
  rewrite (slice_set_exact 1 2 n)
    by (rewrite ?length_slice_store, ?length_np_empty, ?length_fmap; lia).
  eexists. split; [reflexivity|].
  split; [by rewrite !length_slice_store, length_np_empty|].
  intros s Hs. split.
  - rewrite slice_store_miss by (intros; lia).
    replace (2 * s)%nat with (0 + s * 2)%nat by lia.
    apply slice_store_hit; [lia| |rewrite length_np_empty; lia].
    rewrite list_lookup_fmap, (list_lookup_lookup_total_lt i s) by lia. done.
  - replace (2 * s + 1)%nat with (1 + s * 2)%nat by lia.
    apply slice_store_hit; [lia| |rewrite length_slice_store, length_np_empty; lia].
    rewrite list_lookup_fmap, (list_lookup_lookup_total_lt q s) by lia. done.
Qed.

End GeneratorFacts.

(** ** The dual-channel interleaver *)

Lemma pair_up_slices (n : nat) (a : list Z) :
  length a = (2 * n)%nat → pair_up (slice_get 0 2 a) (slice_get 1 2 a) = a.
Proof.
  revert a. induction n as [|n IH]; intros a Hlen.
  - by destruct a.
  - destruct a as [|x [|y a]]; cbn in Hlen; try lia.
    change (x :: y :: a) with ([x; y] ++ a).
    rewrite (slice_get_block 0 2 [x; y] a), (slice_get_block 1 2 [x; y] a) by (cbn; lia).
    cbn. rewrite IH by lia. done.
Qed.

Lemma quad_up_slices (n : nat) (a : list Z) :
  length a = (4 * n)%nat →
  quad_up (slice_get 0 4 a) (slice_get 1 4 a) (slice_get 2 4 a) (slice_get 3 4 a) = a.
Proof.
  revert a. induction n as [|n IH]; intros a Hlen.
  - by destruct a.
  - destruct a as [|x [|y [|z [|u a]]]]; cbn in Hlen; try lia.
    change (x :: y :: z :: u :: a) with ([x; y; z; u] ++ a).
    rewrite (slice_get_block 0 4 [x; y; z; u] a), (slice_get_block 1 4 [x; y; z; u] a),
      (slice_get_block 2 4 [x; y; z; u] a), (slice_get_block 3 4 [x; y; z; u] a)
      by (cbn; lia).
    cbn. rewrite IH by lia. done.
Qed.

Lemma quad_up_perm (i0 q0 i1 q1 : list Z) :
  length q0 = length i0 → length i1 = length i0 → length q1 = length i0 →
  quad_up i0 q0 i1 q1 ≡ₚ pair_up i0 q0 ++ pair_up i1 q1.
Proof.
  revert q0 i1 q1. induction i0 as [|a i0 IH]; intros q0 i1 q1 H0 H1 H2.
  - destruct q0, i1, q1; done.
  - destruct q0 as [|b q0], i1 as [|c i1], q1 as [|d q1]; try done.
    cbn in *. rewrite IH by lia.
    do 2 f_equiv.
    rewrite (Permutation_middle _ _ d), (Permutation_middle _ _ c). done.
Qed.

Section InterleaverFacts.
Context {G : Type} `{!NumpyRuntime G}.

Lemma dual_interleave_spec (g : G) (n : nat) (ch0 ch1 : list Z) :
  length ch0 = (2 * n)%nat → length ch1 = (2 * n)%nat →
  ∃ out : list Z,
    dual_interleave g n ch0 ch1 = Some out ∧
    length out = (4 * n)%nat ∧
    ∀ s, (s < n)%nat →
      out !! (4 * s)%nat = ch0 !! (2 * s)%nat ∧
      out !! (4 * s + 1)%nat = ch0 !! (2 * s + 1)%nat ∧
      out !! (4 * s + 2)%nat = ch1 !! (2 * s)%nat ∧
      out !! (4 * s + 3)%nat = ch1 !! (2 * s + 1)%nat.
Proof.
  intros H0 H1. unfold dual_interleave.
  assert (Hg : ∀ r a, (r < 2)%nat → length a = (2 * n)%nat →
                length (slice_get r 2 a) = n).
  { intros r a Hr Ha. by rewrite length_slice_get, Ha, slice_len_exact. }
  rewrite (slice_set_exact 0 4 n) by (rewrite ?length_np_empty, ?Hg; lia).
  cbn [mbind option_bind].
  rewrite (slice_set_exact 1 4 n)
    by (rewrite ?length_slice_store, ?length_np_empty, ?Hg; lia).
  cbn [mbind option_bind].
  rewrite (slice_set_exact 2 4 n)
    by (rewrite ?length_slice_store, ?length_np_empty, ?Hg; lia).
  cbn [mbind option_bind].
  rewrite (slice_set_exact 3 4 n)
    by (rewrite ?length_slice_store, ?length_np_empty, ?Hg; lia).
  eexists. split; [reflexivity|].
  split; [rewrite !length_slice_store, length_np_empty; lia|].
  assert (Hsrc : ∀ r a s, (r < 2)%nat → length a = (2 * n)%nat → (s < n)%nat →
                  ∃ v, slice_get r 2 a !! s = Some v ∧ a !! (r + s * 2)%nat = Some v).
  { intros r a s Hr Ha Hs.
    destruct (lookup_lt_is_Some_2 a (r + s * 2)%nat) as [v Hv]; [lia|].
    exists v. split; [|done]. by rewrite (slice_get_lookup r 2 n). }
  intros s Hs.
  destruct (Hsrc 0%nat ch0 s) as (v0 & Hv0 & Hc0); [lia|done|done|].
  destruct (Hsrc 1%nat ch0 s) as (v1 & Hv1 & Hc1); [lia|done|done|].
  destruct (Hsrc 0%nat ch1 s) as (v2 & Hv2 & Hc2); [lia|done|done|].
  destruct (Hsrc 1%nat ch1 s) as (v3 & Hv3 & Hc3); [lia|done|done|].
  replace (2 * s + 1)%nat with (1 + s * 2)%nat by lia.
  replace (2 * s)%nat with (0 + s * 2)%nat by lia.
  rewrite Hc0, Hc1, Hc2, Hc3.
  replace (4 * s + 1)%nat with (1 + s * 4)%nat by lia.
  replace (4 * s + 2)%nat with (2 + s * 4)%nat by lia.
  replace (4 * s + 3)%nat with (3 + s * 4)%nat by lia.
  replace (4 * s)%nat with (0 + s * 4)%nat by lia.
  repeat split.
  - do 3 (rewrite slice_store_miss by (intros; lia)).
    apply slice_store_hit; [lia|done|rewrite length_np_empty; lia].
  - do 2 (rewrite slice_store_miss by (intros; lia)).
    apply slice_store_hit;
      [lia|done|rewrite ?length_slice_store, length_np_empty; lia].
  - rewrite slice_store_miss by (intros; lia).
    apply slice_store_hit;
      [lia|done|rewrite ?length_slice_store, length_np_empty; lia].
  - apply slice_store_hit;
      [lia|done|rewrite ?length_slice_store, length_np_empty; lia].
Qed.

(** The stride-4 views of the transfer buffer are the stride-2 views of
    the channel buffers. *)
Lemma dual_interleave_views (g : G) (n : nat) (ch0 ch1 out : list Z) :
  length ch0 = (2 * n)%nat → length ch1 = (2 * n)%nat →
  dual_interleave g n ch0 ch1 = Some out →
  slice_get 0 4 out = slice_get 0 2 ch0 ∧
  slice_get 1 4 out = slice_get 1 2 ch0 ∧
  slice_get 2 4 out = slice_get 0 2 ch1 ∧
  slice_get 3 4 out = slice_get 1 2 ch1.
Proof.
  intros H0 H1 Hout.
  destruct (dual_interleave_spec g n ch0 ch1 H0 H1) as (out' & Hout' & Hlen & Hat).
  simplify_eq.
  assert (Hview : ∀ r r' a, (r < 4)%nat → (r' < 2)%nat → length a = (2 * n)%nat →
            (∀ s, (s < n)%nat → out !! (r + s * 4)%nat = a !! (r' + s * 2)%nat) →
            slice_get r 4 out = slice_get r' 2 a).
  { intros r r' a Hr Hr' Ha Heq. apply list_eq. intros s.
    destruct (decide (s < n)%nat) as [Hs|Hs].
    - rewrite (slice_get_lookup r 4 n), (slice_get_lookup r' 2 n) by done. by apply Heq.
    - rewrite !lookup_ge_None_2; [done| |];
        rewrite length_slice_get, ?Ha, ?Hlen, slice_len_exact; lia. }
  repeat split; apply Hview; try done; try lia; intros s Hs;
    destruct (Hat s Hs) as (E0 & E1 & E2 & E3).
  - by replace (0 + s * 4)%nat with (4 * s)%nat by lia;
       replace (0 + s * 2)%nat with (2 * s)%nat by lia.
  - by replace (1 + s * 4)%nat with (4 * s + 1)%nat by lia;
       replace (1 + s * 2)%nat with (2 * s + 1)%nat by lia.
  - by replace (2 + s * 4)%nat with (4 * s + 2)%nat by lia;
       replace (0 + s * 2)%nat with (2 * s)%nat by lia.
  - by replace (3 + s * 4)%nat with (4 * s + 3)%nat by lia;
       replace (1 + s * 2)%nat with (2 * s + 1)%nat by lia.
Qed.

End InterleaverFacts.

(** ** The statements of the monad *)

Section ProgramLogic.
Context {S G : Type} `{!Environment S} `{!NumpyRuntime G}.
Implicit Types (w : world S G) (c : call).
Implicit Types (P U : world S G → Prop) (E : exn → world S G → Prop).

Lemma handle_signals_eq w :
  handle_signals w = signalled w (sigint (env w)).1.
Proof.
  unfold handle_signals, signalled, emit. destruct (sigint (env w)) as [[] s]; cbn.
  - by rewrite andb_false_r.
  - by rewrite andb_true_r, app_nil_r.
Qed.

Lemma do_call_eq c w :
  ∃ pending r s,
    well_typed c r = true ∧
    do_call c w =
      (match r with Returns v => Ok v | Raises e => Raise e end,
       after_call w pending c r s).
Proof.
  unfold do_call. rewrite handle_signals_eq. cbn.
  pose proof (respond_typed c (sigint (env w)).2) as Hty.
  destruct (respond c (sigint (env w)).2) as [r s]. cbn in Hty.
  exists (sigint (env w)).1, r, s. split; [done|].
  unfold after_call, emit. cbn. rewrite <- app_assoc. by destruct r.
Qed.

Lemma bind_ok {A B} (m : M A) (k : A → M B) w a w' :
  m w = (Ok a, w') → (m ≫= k) w = k a w'.
Proof. intros Hm. unfold mbind, M_bind, bind. by rewrite Hm. Qed.

Lemma bind_raise {A B} (m : M A) (k : A → M B) w e w' :
  m w = (Raise e, w') → (m ≫= k) w = (Raise e, w').
Proof. intros Hm. unfold mbind, M_bind, bind. by rewrite Hm. Qed.

Lemma do_eq c w :
  ∃ pending r s,
    well_typed c r = true ∧
    do_ c w =
      (match r with Returns _ => Ok tt | Raises e => Raise e end,
       after_call w pending c r s).
Proof.
  destruct (do_call_eq c w) as (pending & r & s & Hty & Heq).
  exists pending, r, s. split; [done|]. unfold do_.
  destruct r; [by rewrite (bind_ok _ _ _ _ _ Heq)|by rewrite (bind_raise _ _ _ _ _ Heq)].
Qed.

Lemma try_do_eq c w :
  ∃ pending r s,
    well_typed c r = true ∧ try_pass (do_ c) w = (Ok tt, after_call w pending c r s).
Proof.
  destruct (do_eq c w) as (pending & r & s & Hty & Heq).
  exists pending, r, s. split; [done|]. unfold try_pass. rewrite Heq. by destruct r.
Qed.

Lemma triple_ret {A} (a : A) (P : world S G → Prop) Q E U :
  (∀ w, P w → Q a w) → triple P (mret a) Q E U.
Proof. intros H w Hw. cbn. by apply H. Qed.

Lemma triple_bind {A B} (m : M A) (k : A → M B) P Q1 Q E U :
  triple P m Q1 E U → (∀ a, triple (Q1 a) (k a) Q E U) → triple P (m ≫= k) Q E U.
Proof.
  intros Hm Hk w Hw. specialize (Hm w Hw).
  unfold mbind, M_bind, bind. destruct (m w) as [[a|e|] w']; [|done..].
  by apply Hk.
Qed.

Lemma triple_weaken {A} (m : M A) P (P' : world S G → Prop) Q Q' E (E' : exn → world S G → Prop) U (U' : world S G → Prop) :
  triple P' m Q' E' U' →
  (∀ w, P w → P' w) → (∀ a w, Q' a w → Q a w) → (∀ e w, E' e w → E e w) →
  (∀ w, U' w → U w) →
  triple P m Q E U.
Proof.
  intros Hm HP HQ HE HU w Hw. specialize (Hm w (HP w Hw)).
  destruct (m w) as [[a|e|] w']; auto.
Qed.

Lemma triple_forget_raise {A} (m : M A) P Q E U :
  triple P m Q E U → triple P m Q (λ _ _, True) U.
Proof. intros Hm. by eapply triple_weaken. Qed.

Lemma triple_pre_pure {A} (m : M A) P (φ : Prop) Q E U :
  (φ → triple P m Q E U) → triple (λ w, P w ∧ φ) m Q E U.
Proof. intros H w [Hw Hφ]. by apply H. Qed.

Lemma triple_try_pass (m : M unit) P Q E U :
  triple P m Q (λ _, Q tt) U → triple P (try_pass m) Q E U.
Proof.
  intros Hm w Hw. specialize (Hm w Hw). unfold try_pass.
  destruct (m w) as [[[]|e|] w']; done.
Qed.

Lemma triple_do_call c P Q E U :
  (∀ w pending r s, P w → well_typed c r = true →
     match r with
     | Returns v => Q v (after_call w pending c r s)
     | Raises e => E e (after_call w pending c r s)
     end) →
  triple P (do_call c) Q E U.
Proof.
  intros H w Hw. destruct (do_call_eq c w) as (pending & r & s & Hty & ->).
  specialize (H w pending r s Hw Hty). by destruct r.
Qed.

Lemma triple_do_ c P Q E U :
  triple P (do_call c) (λ _, Q tt) E U → triple P (do_ c) Q E U.
Proof.
  intros H. unfold do_. eapply triple_bind; [exact H|].
  intros v. by apply triple_ret.
Qed.

(** A statement on the NumPy runtime that cannot fail. *)
Lemma triple_np_run {A} (f : G → option A * G) (R : A → Prop) P Q E U :
  (∀ g, ∃ a, (f g).1 = Some a ∧ R a) →
  (∀ w a g, P w → R a → Q a (with_np w g)) →
  triple P (np_run f) Q E U.
Proof.
  intros Hf H w Hw. unfold np_run.
  destruct (Hf (np w)) as (a & Ha & HR).
  destruct (f (np w)) as [r g']. cbn [fst] in Ha. rewrite Ha. by apply H.
Qed.

Lemma triple_for_each {A} (l : list A) (body : A → M unit) (P : world S G → Prop) E U :
  (∀ x, triple P (body x) (λ _, P) E U) →
  triple P (for_each l body) (λ _, P) E U.
Proof.
  intros Hbody. induction l as [|x l IH]; cbn [for_each].
  - by apply triple_ret.
  - eapply triple_bind; [apply Hbody|]. intros []. exact IH.
Qed.

End ProgramLogic.

(** ** Observations on logs *)

Lemma failure_app crit (l1 l2 : list event) :
  failure crit (l1 ++ l2) = failure crit l1 || failure crit l2.
Proof. apply existsb_app. Qed.

Lemma failure_sig_events crit b : failure crit (sig_events b) = false.
Proof. by destruct b. Qed.

Lemma replies_of_app (l1 l2 : list event) :
  replies_of (l1 ++ l2) = replies_of l1 ++ replies_of l2.
Proof. apply omap_app. Qed.

Lemma replies_of_sig_events b : replies_of (sig_events b) = [].
Proof. by destruct b. Qed.

Lemma calls_of_app (l1 l2 : list event) :
  calls_of (l1 ++ l2) = calls_of l1 ++ calls_of l2.
Proof. unfold calls_of. by rewrite replies_of_app, fmap_app. Qed.

Lemma calls_of_sig_events b : calls_of (sig_events b) = [].
Proof. by destruct b. Qed.

Lemma has_sigint_app (l1 l2 : list event) :
  has_sigint (l1 ++ l2) = has_sigint l1 || has_sigint l2.
Proof. apply existsb_app. Qed.

Lemma has_sigint_sig_events b : has_sigint (sig_events b) = b.
Proof. by destruct b. Qed.

Lemma count_tx_app (l1 l2 : list event) :
  count_tx (l1 ++ l2) = (count_tx l1 + count_tx l2)%nat.
Proof. unfold count_tx. by rewrite List.filter_app, length_app. Qed.

Lemma count_poll_app (l1 l2 : list event) :
  count_poll (l1 ++ l2) = (count_poll l1 + count_poll l2)%nat.
Proof. unfold count_poll. by rewrite List.filter_app, length_app. Qed.

Lemma count_tx_sig_events b : count_tx (sig_events b) = 0%nat.
Proof. by destruct b. Qed.

Lemma count_poll_sig_events b : count_poll (sig_events b) = 0%nat.
Proof. by destruct b. Qed.

Lemma after_sigint_none (l : list event) : has_sigint l = false → after_sigint l = [].
Proof. induction l as [|[] l IH]; cbn; auto; done. Qed.

Lemma after_sigint_app (l1 l2 : list event) :
  after_sigint (l1 ++ l2) =
  if has_sigint l1 then after_sigint l1 ++ l2 else after_sigint l2.
Proof. induction l1 as [|[] l1 IH]; cbn; auto. Qed.

Lemma count_tx_after_sigint_le (l : list event) :
  (count_tx (after_sigint l) ≤ count_tx l)%nat.
Proof.
  induction l as [|e l IH]; [done|].
  change (e :: l) with ([e] ++ l) at 2. rewrite count_tx_app.
  destruct e; cbn [after_sigint]; lia.
Qed.

(** Appending events adds at most their transmit calls to those made
    since the flag was set. *)
Lemma tx_after_sigint_app (l1 l2 : list event) :
  (tx_after_sigint (l1 ++ l2) ≤ tx_after_sigint l1 + count_tx l2)%nat.
Proof.
  unfold tx_after_sigint. rewrite after_sigint_app.
  destruct (has_sigint l1).
  - by rewrite count_tx_app.
  - pose proof (count_tx_after_sigint_le l2). lia.
Qed.

Lemma tx_after_sigint_none (l : list event) :
  has_sigint l = false → tx_after_sigint l = 0%nat.
Proof. intros H. unfold tx_after_sigint. by rewrite after_sigint_none. Qed.

(** ** Channel configuration *)

Section Configuration.
Context {S G : Type} `{!Environment S} `{!NumpyRuntime G}.
Implicit Types (w : world S G) (c : call).
Implicit Types (P U : world S G → Prop) (E : exn → world S G → Prop).

Lemma clean_after_call crit base w pending c r s :
  clean crit base w → failure_at crit (EvCall c r) = false →
  clean crit base (after_call w pending c r s).
Proof.
  intros (evs & Hlog & Hf) Hc.
  exists (evs ++ sig_events pending ++ [EvCall c r]). cbn. split.
  - by rewrite Hlog, <- app_assoc.
  - rewrite !failure_app, Hf, failure_sig_events.
    change (failure crit [EvCall c r]) with (failure_at crit (EvCall c r) || false).
    by rewrite Hc.
Qed.

Lemma broke_after_call crit base w pending c e s :
  clean crit base w → crit c = true →
  broke crit base e (after_call w pending c (Raises e) s).
Proof.
  intros (evs & Hlog & Hf) Hc.
  exists (evs ++ sig_events pending), c. cbn. split; [|split; [done|]].
  - by rewrite Hlog, <- !app_assoc.
  - by rewrite failure_app, Hf, failure_sig_events.
Qed.

(** An unguarded call among those [crit] selects. *)
Lemma clean_call crit base c P U :
  crit c = true → (∀ w, P w → clean crit base w) →
  triple P (do_call c)
    (λ v w, clean crit base w ∧ well_typed c (Returns v) = true)
    (broke crit base) U.
Proof.
  intros Hc HP. apply triple_do_call. intros w pending r s Hw Hty.
  apply HP in Hw. destruct r as [v|e].
  - split; [|done]. by apply clean_after_call.
  - by apply broke_after_call.
Qed.

Lemma clean_do_ crit base c P U :
  crit c = true → (∀ w, P w → clean crit base w) →
  triple P (do_ c) (λ _, clean crit base) (broke crit base) U.
Proof.
  intros Hc HP. apply triple_do_.
  eapply triple_weaken; [by apply (clean_call crit base c P)|try done..].
  by intros ? ? [? _].
Qed.

(** A guarded call that [crit] does not select. *)
Lemma clean_guarded crit base c P E U :
  crit c = false → (∀ w, P w → clean crit base w) →
  triple P (try_pass (do_ c)) (λ _, clean crit base) E U.
Proof.
  intros Hc HP. apply triple_try_pass, triple_do_, triple_do_call.
  intros w pending r s Hw Hty. apply HP in Hw.
  destruct r; apply clean_after_call; cbn; done.
Qed.

Lemma stage_branches channel stage :
  (if contains "dsa" (lower stage)
   then do_ (SetGainStage channel stage 0)
   else do_ (SetGainStage channel stage 60)) =
  do_ (S:=S) (G:=G) (SetGainStage channel stage (stage_gain stage)).
Proof. unfold stage_gain. by destruct (contains "dsa" (lower stage)). Qed.

Lemma clean_stage_loop crit base channel v E U :
  (∀ stage gain, crit (SetGainStage channel stage gain) = false) →
  triple (λ w, clean crit base w ∧ well_typed (GetGainStages channel) (Returns v) = true)
    (set_gain_stages channel v) (λ _, clean crit base) E U.
Proof.
  intros Hc. destruct v as [|z|names]; try (by intros w [_ ?]).
  unfold set_gain_stages, for_stage_in.
  eapply triple_weaken with (P' := clean crit base);
    [apply triple_for_each|by intros w [? _]|done..].
  intros stage. rewrite stage_branches. by apply clean_guarded.
Qed.

Lemma clean_per_million crit base c v E U :
  read_back c = true →
  triple (λ w, clean crit base w ∧ well_typed c (Returns v) = true)
    (per_million v) (λ _, clean crit base) E U.
Proof.
  intros Hc w [Hw Hty].
  destruct v; [destruct c; cbn in Hc, Hty; congruence| |destruct c; cbn in Hc, Hty; congruence].
  by cbn.
Qed.

Lemma clean_stage_loop_typed crit base channel v P E U :
  well_typed (GetGainStages channel) (Returns v) = true →
  (∀ stage gain, crit (SetGainStage channel stage gain) = false) →
  (∀ w, P w → clean crit base w) →
  triple P (set_gain_stages channel v) (λ _, clean crit base) E U.
Proof.
  intros Hty Hc HP.
  eapply triple_weaken; [by apply (clean_stage_loop crit base channel v E U)| |done..].
  intros w Hw. split; [by apply HP|done].
Qed.

Lemma clean_per_million_typed crit base c v P E U :
  well_typed c (Returns v) = true → read_back c = true →
  (∀ w, P w → clean crit base w) →
  triple P (per_million v) (λ _, clean crit base) E U.
Proof.
  intros Hty Hc HP.
  eapply triple_weaken; [by apply (clean_per_million crit base c v E U)| |done..].
  intros w Hw. split; [by apply HP|done].
Qed.

Lemma configure_channel_triple crit base channel_idx freq_hz gain_db P U :
  (∀ c, application c = true → crit c = true) →
  (∀ ch stage gain, crit (SetGainStage ch stage gain) = false) →
  (∀ ch b, crit (SetBiasTee ch b) = false) →
  (∀ w, P w → clean crit base w) →
  triple P
    (configure_channel channel_idx freq_hz gain_db)
    (λ ch w, ch = CHANNEL_TX channel_idx ∧ clean crit base w)
    (broke crit base) U.
Proof.
  intros Happ Hstage Hbias HP. unfold configure_channel.
  eapply triple_bind; [by apply clean_do_; [apply Happ|]|intros ?].
  repeat first
    [ apply triple_ret; by intros w Hw
    | eapply triple_bind;
        [ first [ by apply clean_do_; [apply Happ|first [done|by intros ? [? _]]]
                | by apply clean_call; [apply Happ|first [done|by intros ? [? _]]]
                | by eapply clean_per_million
                | by apply clean_stage_loop
                | by apply clean_guarded ]
        | intros ? ] ].
Qed.

(** The stage loop writes [stage_gain stage] to every stage, in order,
    whatever the answers. *)
Lemma set_gain_stages_calls channel (names : list string) w :
  ∃ w', set_gain_stages channel (VStages names) w = (Ok tt, w') ∧
        calls_of (log w') =
          calls_of (log w) ++ ((λ stage, SetGainStage channel stage (stage_gain stage)) <$> names).
Proof.
  unfold set_gain_stages, for_stage_in. revert w.
  induction names as [|stage names IH]; intros w; cbn [for_each].
  - exists w. by rewrite app_nil_r.
  - rewrite stage_branches.
    destruct (try_do_eq (SetGainStage channel stage (stage_gain stage)) w)
      as (pending & r & s & _ & Heq).
    rewrite (bind_ok _ _ _ _ _ Heq).
    destruct (IH (after_call w pending (SetGainStage channel stage (stage_gain stage)) r s))
      as (w' & Hrun & Hcalls).
    exists w'. split; [done|]. rewrite Hcalls. cbn [after_call log].
    rewrite !calls_of_app, calls_of_sig_events. cbn. by rewrite <- app_assoc.
Qed.

End Configuration.

(** ** Invariants the calls preserve *)

Section Closed.
Context {S G : Type} `{!Environment S} `{!NumpyRuntime G}.
Implicit Types (w : world S G) (c : call).
Implicit Types (I P U : world S G → Prop) (E : exn → world S G → Prop).

Lemma closed_do_call ok I c U :
  closed ok I → ok c = true → triple I (do_call c) (λ _, I) (λ _, I) U.
Proof.
  intros (Hcall & _) Hc. apply triple_do_call. intros w pending r s Hw _.
  destruct r; by apply Hcall.
Qed.

Lemma closed_do_ ok I c U :
  closed ok I → ok c = true → triple I (do_ c) (λ _, I) (λ _, I) U.
Proof. intros HI Hc. by apply triple_do_, (closed_do_call ok). Qed.

Lemma closed_try_do_ ok I c E U :
  closed ok I → ok c = true → triple I (try_pass (do_ c)) (λ _, I) E U.
Proof. intros HI Hc. by apply triple_try_pass, (closed_do_ ok). Qed.

Lemma closed_per_million I v U : triple I (per_million v) (λ _, I) (λ _, I) U.
Proof. intros w Hw. by destruct v. Qed.

Lemma closed_set_gain_stages ok I channel v U :
  closed ok I → (∀ stage gain, ok (SetGainStage channel stage gain) = true) →
  triple I (set_gain_stages channel v) (λ _, I) (λ _, I) U.
Proof.
  intros HI Hok. destruct v as [|z|names]; try (by intros w ?).
  unfold set_gain_stages, for_stage_in. apply triple_for_each.
  intros stage. rewrite stage_branches. by apply (closed_try_do_ ok).
Qed.

Lemma closed_np_run {A} ok I (f : G → option A * G) U :
  closed ok I → triple I (np_run f) (λ _, I) (λ _, I) U.
Proof.
  intros (_ & Hnp & _) w Hw. unfold np_run.
  destruct (f (np w)) as [[a|] g]; by apply Hnp.
Qed.

Lemma closed_bind_dev ok I E U :
  closed ok I → triple I bind_dev (λ _, I) E U.
Proof. intros (_ & _ & Hdev) w Hw. by apply Hdev. Qed.

Lemma closed_configure_channel ok I channel_idx freq_hz gain_db U :
  closed ok I →
  (∀ c, application c = true → ok c = true) →
  (∀ ch stage gain, ok (SetGainStage ch stage gain) = true) →
  (∀ ch b, ok (SetBiasTee ch b) = true) →
  triple I (configure_channel channel_idx freq_hz gain_db) (λ _, I) (λ _, I) U.
Proof.
  intros HI Happ Hstage Hbias. unfold configure_channel.
  repeat first
    [ apply triple_ret; by intros w Hw
    | eapply triple_bind;
        [ first [ by apply (closed_do_ ok); [|apply Happ]
                | by apply (closed_do_call ok); [|apply Happ]
                | apply closed_per_million
                | by apply (closed_set_gain_stages ok)
                | by apply (closed_try_do_ ok) ]
        | intros ? ] ].
Qed.

End Closed.

(** ** The transmit loops *)

Section Loops.
Context {S G : Type} `{!Environment S} `{!NumpyRuntime G}.
Implicit Types (w : world S G) (c : call).
Implicit Types (I P U : world S G → Prop) (E : exn → world S G → Prop).

Lemma np_run_some {A} (f : G → option A * G) w a g :
  f (np w) = (Some a, g) → np_run f w = (Ok a, with_np w g).
Proof. intros Hf. unfold np_run. by rewrite Hf. Qed.

Lemma generate_some (n : nat) (g : G) :
  ∃ buf, generate_white_noise n g = (Some buf, np_after n g) ∧ length buf = (2 * n)%nat.
Proof.
  destruct (generate_white_noise_spec n g) as (buf & Hgen & Hlen & _). by exists buf.
Qed.

(** One pass of the dual-channel body: two buffers drawn from the
    generator state of this pass, interleaved, and transmitted. *)
Lemma dual_iteration_eq (n : nat) (t : Z) w :
  let g1 := np_after n (np w) in
  let g2 := np_after n g1 in
  ∃ b0 b1 out,
    generate_white_noise n (np w) = (Some b0, g1) ∧
    generate_white_noise n g1 = (Some b1, g2) ∧
    dual_interleave g2 n b0 b1 = Some out ∧
    ∃ pending r s,
      dual_iteration n t w =
      match r with
      | Returns _ =>
          (Ok tt, emit EvSleep (handle_signals
                                  (after_call (with_np w g2) pending (SyncTx out t) r s)))
      | Raises e => (Raise e, after_call (with_np w g2) pending (SyncTx out t) r s)
      end.
Proof.
  intros g1 g2.
  destruct (generate_some n (np w)) as (b0 & Hb0 & Hl0).
  destruct (generate_some n g1) as (b1 & Hb1 & Hl1).
  destruct (dual_interleave_spec g2 n b0 b1 Hl0 Hl1) as (out & Hout & _).
  exists b0, b1, out. do 3 (split; [done|]).
  destruct (do_eq (SyncTx out t) (with_np w g2)) as (pending & r & s & _ & Htx).
  exists pending, r, s. unfold dual_iteration.
  rewrite (bind_ok _ _ w b0 (with_np w g1)) by (by apply np_run_some).
  rewrite (bind_ok _ _ (with_np w g1) b1 (with_np w g2))
    by (by apply (np_run_some _ (with_np w g1))).
  rewrite (bind_ok _ _ (with_np w g2) out (with_np w g2))
    by (apply (np_run_some _ (with_np w g2)); cbn; by rewrite Hout).
  destruct r.
  - by rewrite (bind_ok _ _ _ _ _ Htx).
  - by rewrite (bind_raise _ _ _ _ _ Htx).
Qed.

(** One pass of the single-channel body: the cached buffer is
    transmitted; the buffer of the next pass is a fresh one when the draw
    from [0 .. 99] is [0], the same one otherwise. *)
Lemma single_iteration_eq (n : nat) (t : Z) (buf : list Z) w :
  ∃ pending r s,
    let w1 := after_call w pending (SyncTx buf t) r s in
    let draw := (randint 0 100 (np w)).1 in
    let g1 := (randint 0 100 (np w)).2 in
    0 ≤ draw < 100 ∧
    ∃ fresh,
      generate_white_noise n g1 = (Some fresh, np_after n g1) ∧
      single_iteration n t buf w =
      match r with
      | Returns _ =>
          if decide (draw = 0)
          then (Ok fresh, emit EvSleep (handle_signals (with_np w1 (np_after n g1))))
          else (Ok buf, emit EvSleep (handle_signals (with_np w1 g1)))
      | Raises e => (Raise e, w1)
      end.
Proof.
  destruct (do_eq (SyncTx buf t) w) as (pending & r & s & _ & Htx).
  exists pending, r, s. cbn zeta.
  split; [by apply randint_range|].
  destruct (generate_some n (randint 0 100 (np w)).2) as (fresh & Hfresh & _).
  exists fresh. split; [done|].
  unfold single_iteration.
  destruct r as [v|e]; [|by rewrite (bind_raise _ _ _ _ _ Htx)].
  rewrite (bind_ok _ _ _ _ _ Htx).
  set (w1 := after_call w pending (SyncTx buf t) (Returns v) s).
  assert (Hdraw : np_randint 0 100 w1 =
                  (Ok (randint 0 100 (np w)).1, with_np w1 (randint 0 100 (np w)).2)).
  { unfold np_randint. apply np_run_some. cbn. by destruct (randint 0 100 (np w)). }
  rewrite (bind_ok _ _ _ _ _ Hdraw).
  destruct (decide ((randint 0 100 (np w)).1 = 0)).
  - rewrite (bind_ok _ _ _ fresh (with_np w1 (np_after n (randint 0 100 (np w)).2)));
      [done|by apply (np_run_some _ (with_np w1 (randint 0 100 (np w)).2))].
  - done.
Qed.

(** The dual-channel loop: [I j] holds at its head after [j] passes,
    given what the evaluation of the condition and one pass of the body
    do to it. *)
Lemma dual_loop_passes (I Ib : nat → world S G → Prop) (Q : world S G → Prop) E
    (fuel n : nat) (t : Z) (k : nat) :
  (∀ j w pending, I j w →
     if running (signalled w pending)
     then Ib j (emit (EvPoll true) (signalled w pending))
     else Q (emit (EvPoll false) (signalled w pending))) →
  (∀ j w g out pending r s, Ib j w →
     match r with
     | Returns _ =>
         ∀ pending', I (Datatypes.S j)
                       (emit EvSleep
                          (signalled (after_call (with_np w g) pending (SyncTx out t) r s)
                             pending'))
     | Raises e => E e (after_call (with_np w g) pending (SyncTx out t) r s)
     end) →
  triple (I k) (dual_loop fuel n t) (λ _, Q) E (I (fuel + k)%nat).
Proof.
  intros Hpoll Hbody. revert k.
  induction fuel as [|fuel IH]; intros k w Hw; [done|].
  cbn [dual_loop].
  assert (Hp : poll_running w =
               (Ok (running (handle_signals w)),
                emit (EvPoll (running (handle_signals w))) (handle_signals w))) by done.
  rewrite (bind_ok _ _ _ _ _ Hp). rewrite handle_signals_eq in *.
  specialize (Hpoll k w (sigint (env w)).1 Hw).
  destruct (running (signalled w (sigint (env w)).1)); [|done].
  set (w1 := emit (EvPoll true) (signalled w (sigint (env w)).1)) in *.
  destruct (dual_iteration_eq n t w1) as (b0 & b1 & out & _ & _ & _ & pending & r & s & Hit).
  specialize (Hbody k w1 (np_after n (np_after n (np w1))) out pending r s Hpoll).
  destruct r as [v|e].
  - rewrite (bind_ok _ _ _ _ _ Hit). rewrite handle_signals_eq.
    replace (Datatypes.S fuel + k)%nat with (fuel + Datatypes.S k)%nat by lia.
    apply IH, Hbody.
  - by rewrite (bind_raise _ _ _ _ _ Hit).
Qed.

Lemma dual_loop_triple I (Ib Q : world S G → Prop) E (fuel n : nat) (t : Z) :
  (∀ w pending, I w →
     if running (signalled w pending)
     then Ib (emit (EvPoll true) (signalled w pending))
     else Q (emit (EvPoll false) (signalled w pending))) →
  (∀ w g out pending r s, Ib w →
     match r with
     | Returns _ =>
         ∀ pending', I (emit EvSleep
                          (signalled (after_call (with_np w g) pending (SyncTx out t) r s)
                             pending'))
     | Raises e => E e (after_call (with_np w g) pending (SyncTx out t) r s)
     end) →
  triple I (dual_loop fuel n t) (λ _, Q) E I.
Proof.
  intros Hpoll Hbody.
  apply (dual_loop_passes (λ _, I) (λ _, Ib) Q E fuel n t 0); [by intros _|by intros _].
Qed.

(** The same for the single-channel loop, whatever buffer it holds. *)
Lemma single_loop_passes (I Ib : nat → world S G → Prop) (Q : world S G → Prop) E
    (fuel n : nat) (t : Z) (buf : list Z) (k : nat) :
  (∀ j w pending, I j w →
     if running (signalled w pending)
     then Ib j (emit (EvPoll true) (signalled w pending))
     else Q (emit (EvPoll false) (signalled w pending))) →
  (∀ j w buf' g pending r s, Ib j w →
     match r with
     | Returns _ =>
         ∀ pending', I (Datatypes.S j)
                       (emit EvSleep
                          (signalled (with_np (after_call w pending (SyncTx buf' t) r s) g)
                             pending'))
     | Raises e => E e (after_call w pending (SyncTx buf' t) r s)
     end) →
  triple (I k) (single_loop fuel n t buf) (λ _, Q) E (I (fuel + k)%nat).
Proof.
  intros Hpoll Hbody. revert buf k.
  induction fuel as [|fuel IH]; intros buf k w Hw; [done|].
  cbn [single_loop].
  assert (Hp : poll_running w =
               (Ok (running (handle_signals w)),
                emit (EvPoll (running (handle_signals w))) (handle_signals w))) by done.
  rewrite (bind_ok _ _ _ _ _ Hp). rewrite handle_signals_eq in *.
  specialize (Hpoll k w (sigint (env w)).1 Hw).
  destruct (running (signalled w (sigint (env w)).1)); [|done].
  set (w1 := emit (EvPoll true) (signalled w (sigint (env w)).1)) in *.
  destruct (single_iteration_eq n t buf w1) as (pending & r & s & _ & fresh & _ & Hit).
  cbn zeta in Hit.
  pose proof (Hbody k w1 buf (np_after n (randint 0 100 (np w1)).2) pending r s Hpoll) as Hb1.
  pose proof (Hbody k w1 buf (randint 0 100 (np w1)).2 pending r s Hpoll) as Hb2.
  destruct r as [v|e]; [|by rewrite (bind_raise _ _ _ _ _ Hit)].
  replace (Datatypes.S fuel + k)%nat with (fuel + Datatypes.S k)%nat by lia.
  destruct (decide ((randint 0 100 (np w1)).1 = 0));
    rewrite (bind_ok _ _ _ _ _ Hit), handle_signals_eq; apply IH; [apply Hb1|apply Hb2].
Qed.

Lemma single_loop_triple I (Ib Q : world S G → Prop) E (fuel n : nat) (t : Z) (buf : list Z) :
  (∀ w pending, I w →
     if running (signalled w pending)
     then Ib (emit (EvPoll true) (signalled w pending))
     else Q (emit (EvPoll false) (signalled w pending))) →
  (∀ w buf' g pending r s, Ib w →
     match r with
     | Returns _ =>
         ∀ pending', I (emit EvSleep
                          (signalled (with_np (after_call w pending (SyncTx buf' t) r s) g)
                             pending'))
     | Raises e => E e (after_call w pending (SyncTx buf' t) r s)
     end) →
  triple I (single_loop fuel n t buf) (λ _, Q) E I.
Proof.
  intros Hpoll Hbody.
  apply (single_loop_passes (λ _, I) (λ _, Ib) Q E fuel n t buf 0);
    [by intros _|by intros _].
Qed.

(** *** No fatal failure so far *)

Lemma clean_emit_signalled crit base w pending e :
  clean crit base w → failure_at crit e = false →
  clean crit base (emit e (signalled w pending)).
Proof.
  intros (evs & Hlog & Hf) He. exists (evs ++ sig_events pending ++ [e]). cbn. split.
  - by rewrite Hlog, <- !app_assoc.
  - rewrite !failure_app, Hf, failure_sig_events.
    change (failure crit [e]) with (failure_at crit e || false). by rewrite He.
Qed.

Lemma clean_bind_dev crit base P E U :
  (∀ w, P w → clean crit base w) → triple P bind_dev (λ _, clean crit base) E U.
Proof. intros HP w Hw. by apply HP in Hw. Qed.

Lemma clean_generate crit base (n : nat) P E U :
  (∀ w, P w → clean crit base w) →
  triple P (np_run (generate_white_noise n)) (λ _, clean crit base) E U.
Proof.
  intros HP. apply (triple_np_run _ (λ _, True)).
  - intros g. destruct (generate_some n g) as (buf & -> & _). by exists buf.
  - intros w a g Hw _. by apply HP in Hw.
Qed.

Lemma dual_loop_clean crit base (fuel n : nat) (t : Z) :
  (∀ buf, crit (SyncTx buf t) = true) →
  triple (clean crit base) (dual_loop fuel n t)
    (λ _ w, clean crit base w ∧ ∃ l, log w = l ++ [EvPoll false])
    (broke crit base) (clean crit base).
Proof.
  intros Hc. apply (dual_loop_triple _ (clean crit base)).
  - intros w pending Hw. destruct (running (signalled w pending)).
    + by apply clean_emit_signalled.
    + split; [by apply clean_emit_signalled|]. by eexists.
  - intros w g out pending r s Hw. destruct r as [v|e].
    + intros pending'. apply clean_emit_signalled; [|done].
      by apply (clean_after_call crit base (with_np w g)).
    + by apply (broke_after_call crit base (with_np w g)).
Qed.

Lemma single_loop_clean crit base (fuel n : nat) (t : Z) (buf : list Z) :
  (∀ buf, crit (SyncTx buf t) = true) →
  triple (clean crit base) (single_loop fuel n t buf)
    (λ _ w, clean crit base w ∧ ∃ l, log w = l ++ [EvPoll false])
    (broke crit base) (clean crit base).
Proof.
  intros Hc. apply (single_loop_triple _ (clean crit base)).
  - intros w pending Hw. destruct (running (signalled w pending)).
    + by apply clean_emit_signalled.
    + split; [by apply clean_emit_signalled|]. by eexists.
  - intros w buf' g pending r s Hw. destruct r as [v|e].
    + intros pending'. apply clean_emit_signalled; [|done].
      by apply (clean_after_call crit base w).
    + by apply broke_after_call.
Qed.

(** *** Loop accounting *)

Lemma acct_extend (n k : nat) w w' (evs : list event) :
  log w' = log w ++ evs → running w' = running w && negb (has_sigint evs) →
  count_tx evs = 0%nat → count_poll evs = 0%nat →
  acct n k w → acct n k w'.
Proof.
  intros Hlog Hrun Htx Hpoll (Hflag & Hn & Hk). unfold acct, flag_tracks_log in *.
  rewrite Hlog, Hrun, has_sigint_app, count_tx_app, count_poll_app, Htx, Hpoll, Hflag.
  split; [by rewrite negb_orb|].
  pose proof (tx_after_sigint_app (log w) evs). lia.
Qed.

Lemma acct_closed (n k : nat) : closed (S:=S) (G:=G) not_tx (acct n k).
Proof.
  split; [|split].
  - intros w pending c r s Hw Hc.
    apply (acct_extend n k w _ (sig_events pending ++ [EvCall c r])); try done.
    + cbn. by rewrite has_sigint_app, has_sigint_sig_events, orb_false_r.
    + rewrite count_tx_app, count_tx_sig_events. by destruct c.
    + by rewrite count_poll_app, count_poll_sig_events.
  - done.
  - done.
Qed.

Lemma acct_sleep (n k : nat) w pending :
  acct n k w → acct n k (emit EvSleep (signalled w pending)).
Proof.
  apply (acct_extend n k w _ (sig_events pending ++ [EvSleep])).
  - cbn. by rewrite <- app_assoc.
  - cbn. by rewrite has_sigint_app, has_sigint_sig_events, orb_false_r.
  - by rewrite count_tx_app, count_tx_sig_events.
  - by rewrite count_poll_app, count_poll_sig_events.
Qed.

(** The condition is evaluated: where it reads [True] the flag has not
    been set, so no transmit call was made since. *)
Lemma acct_poll w pending :
  acct 1 0 w →
  if running (signalled w pending)
  then acct 0 1 (emit (EvPoll true) (signalled w pending))
  else acct 1 1 (emit (EvPoll false) (signalled w pending)).
Proof.
  intros (Hflag & Hn & Hk). unfold acct, flag_tracks_log in *.
  cbn [log running emit signalled].
  destruct (running w && negb pending) eqn:Hrun.
  - apply andb_prop in Hrun as [Hr Hp]. rewrite Hr in Hflag.
    destruct pending; [done|]. cbn [sig_events]. rewrite app_nil_r.
    assert (Hs : has_sigint (log w ++ [EvPoll true]) = false).
    { rewrite has_sigint_app. by destruct (has_sigint (log w)). }
    rewrite Hs, (tx_after_sigint_none _ Hs), count_tx_app, count_poll_app.
    repeat split; [lia|]. change (count_tx [EvPoll true]) with 0%nat.
    change (count_poll [EvPoll true]) with 1%nat. lia.
  - rewrite <- app_assoc.
    pose proof (tx_after_sigint_app (log w) (sig_events pending ++ [EvPoll false])) as Ht.
    rewrite !has_sigint_app, has_sigint_sig_events, !count_tx_app, !count_poll_app,
      count_tx_sig_events, count_poll_sig_events in *.
    change (count_tx [EvPoll false]) with 0%nat in *.
    change (count_poll [EvPoll false]) with 1%nat.
    change (has_sigint [EvPoll false]) with false.
    rewrite orb_false_r, negb_orb, <- Hflag.
    split; [done|split; lia].
Qed.

(** A transmit call: at most one since the flag was set. *)
Lemma acct_tx w pending (buf : list Z) (t : Z) r s :
  acct 0 1 w → acct 1 0 (after_call w pending (SyncTx buf t) r s).
Proof.
  intros (Hflag & Hn & Hk). unfold acct, flag_tracks_log in *.
  cbn [log running after_call].
  pose proof (tx_after_sigint_app (log w) (sig_events pending ++ [EvCall (SyncTx buf t) r])) as Ht.
  rewrite !has_sigint_app, has_sigint_sig_events, !count_tx_app, !count_poll_app,
    count_tx_sig_events, count_poll_sig_events in *.
  change (count_tx [EvCall (SyncTx buf t) r]) with 1%nat in *.
  change (count_poll [EvCall (SyncTx buf t) r]) with 0%nat.
  change (has_sigint [EvCall (SyncTx buf t) r]) with false.
  rewrite orb_false_r, negb_orb, <- Hflag.
  split; [done|split; lia].
Qed.

(** *** Transmissions made *)

Lemma sent_closed (j : nat) : closed (S:=S) (G:=G) not_tx (λ w, count_tx (log w) = j).
Proof.
  split; [|done]. intros w pending c r s Hw Hc. cbn [log after_call].
  rewrite !count_tx_app, count_tx_sig_events, Hw.
  destruct c; try done; unfold count_tx; cbn; lia.
Qed.

Lemma sent_poll_sleep (j : nat) w pending e :
  is_tx e = false → count_tx (log w) = j →
  count_tx (log (emit e (signalled w pending))) = j.
Proof.
  intros He Hw. cbn [log emit signalled].
  rewrite !count_tx_app, count_tx_sig_events, Hw.
  unfold count_tx. cbn. rewrite He. cbn. lia.
Qed.

Lemma dual_loop_sent (fuel n : nat) (t : Z) :
  triple (S:=S) (G:=G) (λ w, count_tx (log w) = 0%nat) (dual_loop fuel n t)
    (λ _ _, True) (λ _ _, True) (λ w, count_tx (log w) = fuel).
Proof.
  eapply triple_weaken;
    [apply (dual_loop_passes (λ j w, count_tx (log w) = j) (λ j w, count_tx (log w) = j)
              (λ _, True) (λ _ _, True) fuel n t 0)
    |done|done|done|intros w Hw; by rewrite Nat.add_0_r in Hw].
  - intros j w pending Hw. destruct (running (signalled w pending)); [|done].
    by apply sent_poll_sleep.
  - intros j w g out pending r s Hw. destruct r; [|done]. intros pending'.
    apply sent_poll_sleep; [done|]. cbn [log after_call with_np].
    rewrite !count_tx_app, count_tx_sig_events, Hw. unfold count_tx. cbn. lia.
Qed.

Lemma single_loop_sent (fuel n : nat) (t : Z) (buf : list Z) :
  triple (S:=S) (G:=G) (λ w, count_tx (log w) = 0%nat) (single_loop fuel n t buf)
    (λ _ _, True) (λ _ _, True) (λ w, count_tx (log w) = fuel).
Proof.
  eapply triple_weaken;
    [apply (single_loop_passes (λ j w, count_tx (log w) = j) (λ j w, count_tx (log w) = j)
              (λ _, True) (λ _ _, True) fuel n t buf 0)
    |done|done|done|intros w Hw; by rewrite Nat.add_0_r in Hw].
  - intros j w pending Hw. destruct (running (signalled w pending)); [|done].
    by apply sent_poll_sleep.
  - intros j w buf' g pending r s Hw. destruct r; [|done]. intros pending'.
    apply sent_poll_sleep; [done|]. cbn [log after_call with_np].
    rewrite !count_tx_app, count_tx_sig_events, Hw. unfold count_tx. cbn. lia.
Qed.

(** When the flag is down the loop leaves at once, without a call. *)
Lemma dual_loop_leaves (fuel n : nat) (t : Z) w :
  running w = false →
  ∃ w', dual_loop (Datatypes.S fuel) n t w = (Ok tt, w') ∧
        calls_of (log w') = calls_of (log w).
Proof.
  intros Hr. cbn [dual_loop].
  assert (Hp : poll_running w =
               (Ok false, emit (EvPoll false) (signalled w (sigint (env w)).1))).
  { unfold poll_running. rewrite handle_signals_eq. cbn. by rewrite Hr. }
  rewrite (bind_ok _ _ _ _ _ Hp). eexists. split; [done|]. cbn [log emit signalled].
  rewrite !calls_of_app, calls_of_sig_events. cbn. by rewrite !app_nil_r.
Qed.

Lemma single_loop_leaves (fuel n : nat) (t : Z) (buf : list Z) w :
  running w = false →
  ∃ w', single_loop (Datatypes.S fuel) n t buf w = (Ok tt, w') ∧
        calls_of (log w') = calls_of (log w).
Proof.
  intros Hr. cbn [single_loop].
  assert (Hp : poll_running w =
               (Ok false, emit (EvPoll false) (signalled w (sigint (env w)).1))).
  { unfold poll_running. rewrite handle_signals_eq. cbn. by rewrite Hr. }
  rewrite (bind_ok _ _ _ _ _ Hp). eexists. split; [done|]. cbn [log emit signalled].
  rewrite !calls_of_app, calls_of_sig_events. cbn. by rewrite !app_nil_r.
Qed.

Lemma dual_loop_acct (fuel n : nat) (t : Z) :
  triple (S:=S) (G:=G) (acct 1 0) (dual_loop fuel n t)
    (λ _, acct 1 1) (λ _, acct 1 0) (acct 1 0).
Proof.
  apply (dual_loop_triple _ (acct 0 1)).
  - intros w pending Hw. by apply acct_poll.
  - intros w g out pending r s Hw.
    pose proof (acct_tx (with_np w g) pending out t r s Hw) as Htx.
    destruct r; [|done]. intros pending'. by apply acct_sleep.
Qed.

Lemma single_loop_acct (fuel n : nat) (t : Z) (buf : list Z) :
  triple (S:=S) (G:=G) (acct 1 0) (single_loop fuel n t buf)
    (λ _, acct 1 1) (λ _, acct 1 0) (acct 1 0).
Proof.
  apply (single_loop_triple _ (acct 0 1)).
  - intros w pending Hw. by apply acct_poll.
  - intros w buf' g pending r s Hw.
    pose proof (acct_tx w pending buf' t r s Hw) as Htx.
    destruct r; [|done]. intros pending'.
    by apply (acct_sleep 1 0 (with_np (after_call w pending (SyncTx buf' t) (Returns v) s) g)).
Qed.

End Loops.

(** ** Shutdown *)

Section Shutdown.
Context {S G : Type} `{!Environment S} `{!NumpyRuntime G}.
Implicit Types (w : world S G) (c : call).
Implicit Types (I P U : world S G → Prop) (E : exn → world S G → Prop).

Ltac teardown_facts :=
  cbn [log after_call];
  rewrite ?count_tx_app, ?count_poll_app, ?failure_app, ?replies_of_app,
    ?count_tx_sig_events, ?count_poll_sig_events, ?failure_sig_events,
    ?replies_of_sig_events;
  cbn; rewrite <- ?app_assoc; done.

Lemma dual_finally_spec w :
  ∃ w' evs, dual_finally w = (Ok tt, w') ∧ teardown_log dual_teardown w w' evs.
Proof.
  unfold dual_finally, teardown_log.
  rewrite (bind_ok dev_bound _ w (dev w) w) by done.
  destruct (dev w); [|exists w, []; by rewrite app_nil_r].
  unfold try_pass.
  destruct (do_eq (EnableModule (CHANNEL_TX 0) false) w) as (p0 & r0 & s0 & _ & H0).
  destruct r0 as [v0|e0]; [|rewrite (bind_raise _ _ _ _ _ H0)].
  2:{ eexists _, (sig_events p0 ++ [_]). split; [done|]. repeat split; teardown_facts. }
  rewrite (bind_ok _ _ _ _ _ H0).
  destruct (do_eq (EnableModule (CHANNEL_TX 1) false)
              (after_call w p0 (EnableModule (CHANNEL_TX 0) false) (Returns v0) s0))
    as (p1 & r1 & s1 & _ & H1).
  destruct r1 as [v1|e1]; [|rewrite (bind_raise _ _ _ _ _ H1)].
  2:{ eexists _, (sig_events p0 ++ [_] ++ sig_events p1 ++ [_]). split; [done|].
      repeat split; teardown_facts. }
  rewrite (bind_ok _ _ _ _ _ H1).
  match goal with |- context [do_ Close ?w1] =>
    destruct (do_eq Close w1) as (p2 & r2 & s2 & _ & H2) end.
  rewrite H2.
  exists (after_call
            (after_call (after_call w p0 (EnableModule (CHANNEL_TX 0) false) (Returns v0) s0)
               p1 (EnableModule (CHANNEL_TX 1) false) (Returns v1) s1) p2 Close r2 s2),
    (sig_events p0 ++ [EvCall (EnableModule (CHANNEL_TX 0) false) (Returns v0)] ++
     sig_events p1 ++ [EvCall (EnableModule (CHANNEL_TX 1) false) (Returns v1)] ++
     sig_events p2 ++ [EvCall Close r2]).
  split; [by destruct r2|].
  destruct r2; repeat split; teardown_facts.
Qed.

Lemma single_finally_spec w :
  ∃ w' evs, single_finally w = (Ok tt, w') ∧ teardown_log single_teardown w w' evs.
Proof.
  unfold single_finally, teardown_log.
  rewrite (bind_ok dev_bound _ w (dev w) w) by done.
  destruct (dev w); [|exists w, []; by rewrite app_nil_r].
  unfold try_pass. cbn zeta.
  destruct (do_eq (EnableModule (CHANNEL_TX 0) false) w) as (p0 & r0 & s0 & _ & H0).
  destruct r0 as [v0|e0]; [|rewrite (bind_raise _ _ _ _ _ H0)].
  2:{ eexists _, (sig_events p0 ++ [_]). split; [done|]. repeat split; teardown_facts. }
  rewrite (bind_ok _ _ _ _ _ H0).
  match goal with |- context [do_ Close ?w1] =>
    destruct (do_eq Close w1) as (p2 & r2 & s2 & _ & H2) end.
  rewrite H2.
  exists (after_call (after_call w p0 (EnableModule (CHANNEL_TX 0) false) (Returns v0) s0)
            p2 Close r2 s2),
    (sig_events p0 ++ [EvCall (EnableModule (CHANNEL_TX 0) false) (Returns v0)] ++
     sig_events p2 ++ [EvCall Close r2]).
  split; [by destruct r2|].
  destruct r2; repeat split; teardown_facts.
Qed.

(** Both blocks keep every invariant the calls other than [sync_tx] keep. *)
Lemma dual_finally_closed ok I E U :
  closed ok I → (∀ c, not_tx c = true → ok c = true) →
  triple I dual_finally (λ _, I) E U.
Proof.
  intros HI Hok. unfold dual_finally.
  eapply triple_bind with (Q1 := λ _, I); [by intros w Hw|].
  intros [|]; [|by apply triple_ret].
  apply triple_try_pass.
  eapply triple_bind; [by apply (closed_do_ ok); [|apply Hok]|intros ?].
  eapply triple_bind; [by apply (closed_do_ ok); [|apply Hok]|intros ?].
  by apply (closed_do_ ok); [|apply Hok].
Qed.

Lemma single_finally_closed ok I E U :
  closed ok I → (∀ c, not_tx c = true → ok c = true) →
  triple I single_finally (λ _, I) E U.
Proof.
  intros HI Hok. unfold single_finally.
  eapply triple_bind with (Q1 := λ _, I); [by intros w Hw|].
  intros [|]; [|by apply triple_ret].
  apply triple_try_pass. cbn zeta.
  eapply triple_bind; [by apply (closed_do_ ok); [|apply Hok]|intros ?].
  by apply (closed_do_ ok); [|apply Hok].
Qed.

End Shutdown.

(** ** The [try] blocks *)

Section TryBlocks.
Context {S G : Type} `{!Environment S} `{!NumpyRuntime G}.
Implicit Types (w : world S G) (c : call).
Implicit Types (I P U : world S G → Prop) (E : exn → world S G → Prop).

Lemma application_fatal c : application c = true → fatal c = true.
Proof. by destruct c. Qed.

Ltac clean_side := first [done | by intros ? [_ ?] | by intros ? [? _]].

Ltac clean_step :=
  first [ by apply clean_do_; [|clean_side]
        | by apply clean_call; [|clean_side]
        | by eapply clean_per_million
        | by eapply clean_per_million_typed; [eassumption| |clean_side]
        | by apply clean_stage_loop
        | by eapply clean_stage_loop_typed; [eassumption| |clean_side]
        | by apply clean_guarded; [|clean_side]
        | by apply clean_bind_dev; clean_side
        | by apply clean_generate; clean_side
        | by apply configure_channel_triple;
            [apply application_fatal|done|done|clean_side] ].

Ltac closed_step ok :=
  first [ by apply (closed_do_ ok)
        | by apply (closed_do_call ok)
        | apply closed_per_million
        | by apply (closed_set_gain_stages ok)
        | by apply (closed_try_do_ ok)
        | by apply (closed_bind_dev ok)
        | by apply (closed_np_run ok)
        | apply (closed_configure_channel ok); [assumption|by intros []|done|done] ].

(** Until a fatal call fails none has failed; the block returns right
    after the loop condition read [False]. *)
Lemma dual_try_clean base k p (fuel : nat) :
  triple (S:=S) (G:=G) (clean fatal base) (dual_try k p fuel)
    (λ _ w, clean fatal base w ∧ ∃ l, log w = l ++ [EvPoll false])
    (broke fatal base) (clean fatal base).
Proof.
  unfold dual_try.
  repeat (eapply triple_bind; [clean_step|intros ?]).
  eapply triple_weaken; [by apply (dual_loop_clean fatal base)|clean_side|done..].
Qed.

Lemma single_try_clean base f gdb p (fuel : nat) :
  triple (S:=S) (G:=G) (clean fatal base) (single_try f gdb p fuel)
    (λ _ w, clean fatal base w ∧ ∃ l, log w = l ++ [EvPoll false])
    (broke fatal base) (clean fatal base).
Proof.
  unfold single_try.
  repeat (eapply triple_bind;
            [clean_step|intros ?; cbv beta; try (apply triple_pre_pure; intros ?)]).
  eapply triple_weaken; [by apply (single_loop_clean fatal base)|clean_side|done..].
Qed.

(** Loop accounting through the blocks. *)
Lemma dual_try_acct k p (fuel : nat) :
  triple (S:=S) (G:=G) (acct 1 0) (dual_try k p fuel)
    (λ _, acct 1 1) (λ _, acct 1 0) (acct 1 0).
Proof.
  pose proof (acct_closed (S:=S) (G:=G) 1 0) as Hc. unfold dual_try.
  repeat (eapply triple_bind; [closed_step not_tx|intros ?]).
  apply dual_loop_acct.
Qed.

Lemma single_try_acct f gdb p (fuel : nat) :
  triple (S:=S) (G:=G) (acct 1 0) (single_try f gdb p fuel)
    (λ _, acct 1 1) (λ _, acct 1 0) (acct 1 0).
Proof.
  pose proof (acct_closed (S:=S) (G:=G) 1 0) as Hc. unfold single_try.
  repeat (eapply triple_bind; [closed_step not_tx|intros ?]).
  apply single_loop_acct.
Qed.

(** A block that has not returned made [fuel] transmissions. *)
Lemma dual_try_sent k p (fuel : nat) :
  triple (S:=S) (G:=G) (λ w, count_tx (log w) = 0%nat) (dual_try k p fuel)
    (λ _ _, True) (λ _ _, True) (λ w, count_tx (log w) = fuel).
Proof.
  pose proof (sent_closed (S:=S) (G:=G) 0) as Hc. unfold dual_try.
  repeat (eapply triple_bind;
            [eapply triple_forget_raise; closed_step not_tx|intros ?]).
  apply dual_loop_sent.
  Unshelve. all: exact (λ _ _, True).
Qed.

Lemma single_try_sent f gdb p (fuel : nat) :
  triple (S:=S) (G:=G) (λ w, count_tx (log w) = 0%nat) (single_try f gdb p fuel)
    (λ _ _, True) (λ _ _, True) (λ w, count_tx (log w) = fuel).
Proof.
  pose proof (sent_closed (S:=S) (G:=G) 0) as Hc. unfold single_try.
  repeat (eapply triple_bind;
            [eapply triple_forget_raise; closed_step not_tx|intros ?]).
  apply single_loop_sent.
  Unshelve. all: exact (λ _ _, True).
Qed.

(** [dev] is bound from the moment [BladeRF()] returned. *)
Lemma dev_closed : closed (S:=S) (G:=G) (λ _, true) (λ w, dev w = true).
Proof. by repeat split. Qed.

Lemma dual_try_dev k p (fuel : nat) P :
  triple (S:=S) (G:=G) P (dual_try k p fuel) (λ _ w, dev w = true)
    (λ e w, dev w = true ∨ ∃ l, log w = l ++ [EvCall Open (Raises e)])
    (λ w, dev w = true).
Proof.
  pose proof dev_closed as Hc. unfold dual_try.
  eapply triple_bind with (Q1 := λ _ _, True).
  { apply triple_do_, triple_do_call. intros w pending r s _ _.
    destruct r; [done|]. right. eexists. cbn. by rewrite app_assoc. }
  intros ?. eapply triple_bind with (Q1 := λ _ w, dev w = true); [by intros ? ?|].
  intros ?.
  eapply triple_weaken with
    (P' := λ w, dev w = true) (Q' := λ _ w, dev w = true)
    (E' := λ _ w, dev w = true) (U' := λ w, dev w = true);
    [|done|done|by left|done].
  repeat (eapply triple_bind; [closed_step (λ _ : call, true)|intros ?]).
  apply (dual_loop_triple _ (λ w, dev w = true)).
  - intros w pending Hw. by destruct (running (signalled w pending)).
  - intros w g out pending r s Hw. by destruct r.
Qed.

Lemma single_try_dev f gdb p (fuel : nat) P :
  triple (S:=S) (G:=G) P (single_try f gdb p fuel) (λ _ w, dev w = true)
    (λ e w, dev w = true ∨ ∃ l, log w = l ++ [EvCall Open (Raises e)])
    (λ w, dev w = true).
Proof.
  pose proof dev_closed as Hc. unfold single_try.
  eapply triple_bind with (Q1 := λ _ _, True).
  { apply triple_do_, triple_do_call. intros w pending r s _ _.
    destruct r; [done|]. right. eexists. cbn. by rewrite app_assoc. }
  intros ?. eapply triple_bind with (Q1 := λ _ w, dev w = true); [by intros ? ?|].
  intros ?.
  eapply triple_weaken with
    (P' := λ w, dev w = true) (Q' := λ _ w, dev w = true)
    (E' := λ _ w, dev w = true) (U' := λ w, dev w = true);
    [|done|done|by left|done].
  repeat (eapply triple_bind; [closed_step (λ _ : call, true)|intros ?]).
  apply (single_loop_triple _ (λ w, dev w = true)).
  - intros w pending Hw. by destruct (running (signalled w pending)).
  - intros w buf' g pending r s Hw. by destruct r.
Qed.

End TryBlocks.

(** ** The whole of [main] *)

Section Main.
Context {S G : Type} `{!Environment S} `{!NumpyRuntime G}.
Implicit Types (w : world S G) (c : call).

Lemma clean_init (s : S) (g : G) : clean fatal [] (init_world s g).
Proof. by exists []. Qed.

Lemma acct_init (s : S) (g : G) : acct 1 0 (init_world s g).
Proof. repeat split; cbn; lia. Qed.

Lemma verdict_intro (steps : list call) (try_block finally_block : M unit)
    (fuel : nat) w0 :
  match try_block w0 with
  | (Ok _, w1) => clean fatal [] w1 ∧ ∃ l, log w1 = l ++ [EvPoll false]
  | (Raise e, w1) => broke fatal [] e w1
  | (Unfinished, w1) => clean fatal [] w1
  end →
  match try_block w0 with
  | (Raise e, w1) => dev w1 = true ∨ ∃ l, log w1 = l ++ [EvCall Open (Raises e)]
  | (_, w1) => dev w1 = true
  end →
  match try_block w0 with
  | (Unfinished, w1) => count_tx (log w1) = fuel
  | _ => True
  end →
  (∀ w1, ∃ w2 evs, finally_block w1 = (Ok tt, w2) ∧ teardown_log steps w1 w2 evs) →
  verdict steps fuel (try_except_finally try_block finally_block w0).
Proof.
  intros Hclean Hdev Hsent Hfin. unfold verdict, try_except_finally.
  destruct (try_block w0) as [[[]|e|] w1].
  - destruct (Hfin w1) as (w2 & evs & -> & Hlog & Htx & Hpoll & Hfat & Hshape).
    destruct Hclean as [(evs1 & Hl1 & Hf1) (l & Hl)]. cbn [fst snd].
    rewrite Hdev in Hshape. left. split; [done|].
    cbn in Hl1. subst evs1. rewrite Hl in Hf1.
    split; [by rewrite Hlog, Hl; unfold fatal_failure; rewrite failure_app, Hf1|].
    exists l, evs. by rewrite Hlog, Hl, <- app_assoc.
  - destruct (Hfin w1) as (w2 & evs & -> & Hlog & Htx & Hpoll & Hfat & Hshape).
    destruct Hclean as (pre & c & Hl & Hc & Hpre). cbn [fst snd]. cbn in Hl.
    right. split; [done|]. split.
    { rewrite Hlog, Hl. unfold fatal_failure. rewrite !failure_app. cbn.
      by rewrite Hc, orb_true_r. }
    exists pre, c, e, evs. split; [by rewrite Hlog, Hl, <- app_assoc|].
    do 4 (split; [done|]).
    destruct (dev w1); [by left|]. right. split; [|done].
    destruct Hdev as [?|(l & Hl')]; [done|].
    rewrite Hl in Hl'. apply app_inj_tail in Hl' as [_ Heq]. congruence.
  - cbn [fst snd]. destruct Hclean as (evs1 & Hl1 & Hf1). cbn in Hl1. by subst.
Qed.

Lemma dual_main_verdict k p (fuel : nat) (s : S) (g : G) :
  verdict dual_teardown fuel (dual_main k p fuel (init_world s g)).
Proof.
  apply verdict_intro.
  - pose proof (dual_try_clean [] k p fuel (init_world s g) (clean_init s g)) as H.
    by destruct (dual_try k p fuel (init_world s g)) as [[[]|e|] w1].
  - pose proof (dual_try_dev k p fuel (λ _, True) (init_world s g) I) as H.
    by destruct (dual_try k p fuel (init_world s g)) as [[[]|e|] w1].
  - pose proof (dual_try_sent k p fuel (init_world s g) eq_refl) as H.
    by destruct (dual_try k p fuel (init_world s g)) as [[[]|e|] w1].
  - apply dual_finally_spec.
Qed.

Lemma single_main_verdict f gdb p (fuel : nat) (s : S) (g : G) :
  verdict single_teardown fuel (single_main f gdb p fuel (init_world s g)).
Proof.
  apply verdict_intro.
  - pose proof (single_try_clean [] f gdb p fuel (init_world s g) (clean_init s g)) as H.
    by destruct (single_try f gdb p fuel (init_world s g)) as [[[]|e|] w1].
  - pose proof (single_try_dev f gdb p fuel (λ _, True) (init_world s g) I) as H.
    by destruct (single_try f gdb p fuel (init_world s g)) as [[[]|e|] w1].
  - pose proof (single_try_sent f gdb p fuel (init_world s g) eq_refl) as H.
    by destruct (single_try f gdb p fuel (init_world s g)) as [[[]|e|] w1].
  - apply single_finally_spec.
Qed.

(** No exception leaves a [try/except/finally] whose [finally] block
    always returns. *)
Lemma never_uncaught (steps : list call) (try_block finally_block : M unit) w0 e :
  (∀ w1, ∃ w2 evs, finally_block w1 = (Ok tt, w2) ∧ teardown_log steps w1 w2 evs) →
  (try_except_finally try_block finally_block w0).1 ≠ Uncaught e.
Proof.
  intros Hfin. unfold try_except_finally.
  destruct (try_block w0) as [[[]|e'|] w1]; try done;
    by destruct (Hfin w1) as (w2 & evs & -> & _).
Qed.

(** Loop accounting over a whole run. *)
Lemma main_acct (try_block finally_block : M unit) w0 :
  match try_block w0 with
  | (Ok _, w1) => acct 1 1 w1
  | (_, w1) => acct 1 0 w1
  end →
  (∀ k, triple (acct 1 k) finally_block (λ _, acct 1 k) (λ _, acct 1 k) (acct 1 k)) →
  let l := log (try_except_finally try_block finally_block w0).2 in
  (tx_after_sigint l ≤ 1)%nat ∧
  (count_poll l = count_tx l ∨ count_poll l = (count_tx l + 1)%nat).
Proof.
  intros Htry Hfin. unfold try_except_finally.
  destruct (try_block w0) as [[[]|e|] w1].
  - specialize (Hfin 1%nat w1 Htry).
    destruct (finally_block w1) as [[[]|e|] w2]; destruct Hfin as (_ & ? & ?); cbn; auto.
  - specialize (Hfin 0%nat w1 Htry).
    destruct (finally_block w1) as [[[]|e'|] w2]; destruct Hfin as (_ & ? & ?); cbn;
      split; try done; left; lia.
  - destruct Htry as (_ & ? & ?). cbn. split; [done|]. left. lia.
Qed.

Lemma dual_main_acct k p (fuel : nat) (s : S) (g : G) :
  let l := log (dual_main k p fuel (init_world s g)).2 in
  (tx_after_sigint l ≤ 1)%nat ∧
  (count_poll l = count_tx l ∨ count_poll l = (count_tx l + 1)%nat).
Proof.
  apply main_acct.
  - pose proof (dual_try_acct k p fuel (init_world s g) (acct_init s g)) as H.
    by destruct (dual_try k p fuel (init_world s g)) as [[[]|e|] w1].
  - intros j. by apply (dual_finally_closed not_tx); [apply acct_closed|].
Qed.

Lemma single_main_acct f gdb p (fuel : nat) (s : S) (g : G) :
  let l := log (single_main f gdb p fuel (init_world s g)).2 in
  (tx_after_sigint l ≤ 1)%nat ∧
  (count_poll l = count_tx l ∨ count_poll l = (count_tx l + 1)%nat).
Proof.
  apply main_acct.
  - pose proof (single_try_acct f gdb p fuel (init_world s g) (acct_init s g)) as H.
    by destruct (single_try f gdb p fuel (init_world s g)) as [[[]|e|] w1].
  - intros j. by apply (single_finally_closed not_tx); [apply acct_closed|].
Qed.

End Main.

(** ** Claims on channel configuration *)

(** C4: for every sequence of gain-stage names the stage loop writes [0]
    to every stage whose lowercased name contains ['dsa'] and [60] to
    every other stage; for the stages [txvga1, dsa1, dsa2] the board ends
    with [dsa1 -> 0], [dsa2 -> 0], [txvga1 -> 60]. *)
Theorem C4_gain_stage_policy {S G : Type} `{!Environment S} `{!NumpyRuntime G}
    (ch : channel) (names : list string) (w : world S G) :
  (set_gain_stages ch (VStages names) w).1 = Ok tt ∧
  calls_of (log (set_gain_stages ch (VStages names) w).2) =
    calls_of (log w) ++
    ((λ stage, SetGainStage ch stage (if contains "dsa" (lower stage) then 0 else 60))
       <$> names) ∧
  let gains :=
    sim_stage_gains
      (env (set_gain_stages (CHANNEL_TX 0) (VStages ["txvga1"; "dsa1"; "dsa2"]%string)
              (init_world (board None never) (42 : Z))).2) in
  gains !! "dsa1"%string = Some 0 ∧
  gains !! "dsa2"%string = Some 0 ∧
  gains !! "txvga1"%string = Some 60.
Proof.
  destruct (set_gain_stages_calls ch names w) as (w' & Hrun & Hcalls).
  rewrite Hrun. split; [done|]. split; [exact Hcalls|].
  vm_compute. done.
Qed.

Lemma C4_gain_stage_policy_witness :
  calls_of (log (set_gain_stages (CHANNEL_TX 0) (VStages ["txvga1"; "dsa1"; "dsa2"]%string)
                   (init_world (board None guarded_fail) (42 : Z))).2) =
  [SetGainStage (CHANNEL_TX 0) "txvga1" 60;
   SetGainStage (CHANNEL_TX 0) "dsa1" 0;
   SetGainStage (CHANNEL_TX 0) "dsa2" 0].
Proof.
  exact (proj1 (proj2 (C4_gain_stage_policy (CHANNEL_TX 0) ["txvga1"; "dsa1"; "dsa2"]%string
                         (init_world (board None guarded_fail) (42 : Z))))).
Defined.

(** C5, as stated, fails: on a board whose [get_gain_stages] raises, the
    frequency, sample-rate, bandwidth and gain applications all succeed
    and [configure_channel] raises all the same. *)
Lemma C5_counterexample :
  let run := configure_channel 0 L1_HZ 60 (init_world (board None stages_fail) (42 : Z)) in
  failure named_application (log run.2) = false ∧ run.1 = Raise BladeRFError.
Proof. vm_compute. done. Qed.

(** C5, amended: [configure_channel] returns its channel exactly when
    none of its unguarded calls fails: the four settings, their
    read-backs, and the enumeration of the gain stages.  The first of
    these to fail is the last call made, and its exception is the one
    that leaves [configure_channel].  Failures of a gain-stage write or
    of the bias tee are not among them: they are caught (on a board
    where every such call fails, configuration returns). *)
Theorem C5_configure_channel_failures {S G : Type} `{!Environment S} `{!NumpyRuntime G}
    (channel_idx freq_hz gain_db : Z) (w : world S G) :
  (∃ evs,
     log (configure_channel channel_idx freq_hz gain_db w).2 = log w ++ evs ∧
     match (configure_channel channel_idx freq_hz gain_db w).1 with
     | Ok ch => ch = CHANNEL_TX channel_idx ∧ failure application evs = false
     | Raise e =>
         ∃ pre c, evs = pre ++ [EvCall c (Raises e)] ∧
                  application c = true ∧ failure application pre = false
     | Unfinished => False
     end) ∧
  let run := configure_channel 0 L1_HZ 60 (init_world (board None guarded_fail) (42 : Z)) in
  run.1 = Ok (CHANNEL_TX 0) ∧
  failure (λ c, negb (application c)) (log run.2) = true.
Proof.
  split; [|by vm_compute].
  pose proof (configure_channel_triple application (log w) channel_idx freq_hz gain_db
                (clean application (log w)) (λ _ : world S G, False)) as Ht.
  specialize (Ht ltac:(done) ltac:(done) ltac:(done) ltac:(done) w).
  destruct (configure_channel channel_idx freq_hz gain_db w) as [[ch|e|] w']; cbn [fst snd].
  - destruct Ht as [-> (evs & Hlog & Hf)]; [exists []; by rewrite app_nil_r|].
    by exists evs.
  - destruct Ht as (pre & c & Hlog & Hc & Hf); [exists []; by rewrite app_nil_r|].
    exists (pre ++ [EvCall c (Raises e)]). split; [done|]. by exists pre, c.
  - exfalso. apply Ht. exists []. by rewrite app_nil_r.
Qed.

Lemma C5_configure_channel_failures_witness :
  ∃ evs,
    log (configure_channel 0 L1_HZ 60 (init_world (board None stages_fail) (42 : Z))).2
      = [] ++ evs ∧
    ∃ pre c, evs = pre ++ [EvCall c (Raises BladeRFError)] ∧
             application c = true ∧ failure application pre = false.
Proof.
  exact (proj1 (C5_configure_channel_failures 0 L1_HZ 60
                  (init_world (board None stages_fail) (42 : Z)))).
Defined.

(** ** Claims on the sample generator and the interleaver *)

(** C1: for every [num_samples > 0], every element [v] of the buffer
    [generate_white_noise] returns satisfies [-1944 <= v <= 1944]: it is a
    raw draw [x] from [-2047 .. 2047] times [0.95] (in binary64), cast to
    [int16], which on that range is the exact product [x * 95/100]
    truncated toward zero; and [2047 * 95/100] truncates to [1944]. *)
Theorem C1_generated_samples_bounded {G : Type} `{!NumpyRuntime G} (n : nat) (g : G) :
  (0 < n)%nat →
  ∃ buf : list Z,
    (generate_white_noise n g).1 = Some buf ∧
    (∀ v, v ∈ buf → -1944 ≤ v ≤ 1944) ∧
    (∀ v, v ∈ buf →
       ∃ x, -2047 ≤ x ≤ 2047 ∧ v = scale095 x ∧ scale095 x = Z.quot (x * 95) 100) ∧
    scale095 2047 = 1944 ∧ scale095 (-2047) = -1944.
Proof.
  intros _.
  destruct (generate_white_noise_spec n g) as (buf & Hgen & Hlen & Hat).
  assert (Hraw : ∀ v, v ∈ buf →
            ∃ x, -2047 ≤ x ≤ 2047 ∧ v = scale095 x ∧ scale095 x = Z.quot (x * 95) 100).
  { intros v Hv. apply list_elem_of_lookup in Hv as [i Hi].
    pose proof (lookup_lt_Some _ _ _ Hi) as Hlt. rewrite Hlen in Hlt.
    assert (Hin : ∀ l : list Z, Forall (λ x, -2047 ≤ x < 2048) l → length l = n →
              ∀ s, (s < n)%nat → -2047 ≤ l !!! s ≤ 2047).
    { intros l Hl Hn s Hs. rewrite Forall_lookup in Hl.
      specialize (Hl s (l !!! s)). rewrite list_lookup_lookup_total_lt in Hl by lia.
      specialize (Hl eq_refl). lia. }
    destruct (Hat (i `div` 2)%nat) as [Hi0 Hi1]; [apply Nat.Div0.div_lt_upper_bound; lia|].
    pose proof (Nat.div_mod i 2 ltac:(lia)) as Hdm.
    pose proof (Nat.mod_upper_bound i 2 ltac:(lia)) as Hmod.
    destruct (decide (i `mod` 2 = 0)%nat) as [Hp|Hp].
    - exists (raw_i n g !!! (i `div` 2)%nat).
      replace (2 * (i `div` 2))%nat with i in Hi0 by lia.
      rewrite Hi in Hi0. simplify_eq.
      assert (-2047 ≤ raw_i n g !!! (i `div` 2)%nat ≤ 2047) as Hr.
      { apply Hin; [by apply randint_array_range|apply length_randint_array|].
        apply Nat.Div0.div_lt_upper_bound; lia. }
      split; [done|]. split; [done|]. by apply scale095_exact.
    - exists (raw_q n g !!! (i `div` 2)%nat).
      replace (2 * (i `div` 2) + 1)%nat with i in Hi1 by lia.
      rewrite Hi in Hi1. simplify_eq.
      assert (-2047 ≤ raw_q n g !!! (i `div` 2)%nat ≤ 2047) as Hr.
      { apply Hin; [by apply randint_array_range|apply length_randint_array|].
        apply Nat.Div0.div_lt_upper_bound; lia. }
      split; [done|]. split; [done|]. by apply scale095_exact. }
  exists buf. rewrite Hgen. split; [done|]. split; [|split; [done|]].
  - intros v Hv. destruct (Hraw v Hv) as (x & Hx & -> & ->).
    by apply trunc095_bound.
  - split; vm_compute; reflexivity.
Qed.

Lemma C1_generated_samples_bounded_witness :
  (0 < 3)%nat ∧
  ∃ buf : list Z,
    (generate_white_noise 3 (42 : Z)).1 = Some buf ∧
    (∀ v, v ∈ buf → -1944 ≤ v ≤ 1944) ∧
    (∀ v, v ∈ buf →
       ∃ x, -2047 ≤ x ≤ 2047 ∧ v = scale095 x ∧ scale095 x = Z.quot (x * 95) 100) ∧
    scale095 2047 = 1944 ∧ scale095 (-2047) = -1944.
Proof. split; [lia|]. apply (C1_generated_samples_bounded 3 42). lia. Defined.

(** C2: for every [num_samples], [generate_white_noise] returns a buffer
    of length exactly [2 * num_samples] whose element [2s] is the I value
    of slot [s] and whose element [2s + 1] is the Q value of slot [s]. *)
Theorem C2_generate_length_and_layout {G : Type} `{!NumpyRuntime G} (n : nat) (g : G) :
  ∃ buf : list Z,
    (generate_white_noise n g).1 = Some buf ∧
    length buf = (2 * n)%nat ∧
    ∀ s, (s < n)%nat →
      buf !! (2 * s)%nat = Some (scale095 (raw_i n g !!! s)) ∧
      buf !! (2 * s + 1)%nat = Some (scale095 (raw_q n g !!! s)).
Proof.
  destruct (generate_white_noise_spec n g) as (buf & Hgen & Hlen & Hat).
  exists buf. by rewrite Hgen.
Qed.

Lemma C2_generate_length_and_layout_witness :
  ∃ buf : list Z,
    (generate_white_noise 3 (42 : Z)).1 = Some buf ∧
    length buf = 6%nat ∧
    buf !! 2%nat = Some (scale095 (raw_i 3 (42 : Z) !!! 1%nat)) ∧
    buf !! 3%nat = Some (scale095 (raw_q 3 (42 : Z) !!! 1%nat)).
Proof.
  destruct (C2_generate_length_and_layout 3 (42 : Z)) as (buf & Hgen & Hlen & Hat).
  exists buf. split; [done|]. split; [done|]. apply (Hat 1%nat). lia.
Defined.

(** C3: for any two per-channel buffers of length [2n], the interleaving
    step of the dual-channel loop yields a transfer buffer of length [4n]
    whose elements [4s .. 4s+3] are [ch0.I[s], ch0.Q[s], ch1.I[s],
    ch1.Q[s]], for every slot [s < n]. *)
Theorem C3_dual_interleave_layout {G : Type} `{!NumpyRuntime G}
    (g : G) (n : nat) (ch0 ch1 : list Z) :
  length ch0 = (2 * n)%nat → length ch1 = (2 * n)%nat →
  ∃ out : list Z,
    dual_interleave g n ch0 ch1 = Some out ∧
    length out = (4 * n)%nat ∧
    ∀ s, (s < n)%nat →
      is_Some (out !! (4 * s)%nat) ∧
      out !! (4 * s)%nat = ch0 !! (2 * s)%nat ∧
      out !! (4 * s + 1)%nat = ch0 !! (2 * s + 1)%nat ∧
      out !! (4 * s + 2)%nat = ch1 !! (2 * s)%nat ∧
      out !! (4 * s + 3)%nat = ch1 !! (2 * s + 1)%nat.
Proof.
  intros H0 H1.
  destruct (dual_interleave_spec g n ch0 ch1 H0 H1) as (out & Hout & Hlen & Hat).
  exists out. split; [done|]. split; [done|].
  intros s Hs. split; [|by apply Hat].
  apply lookup_lt_is_Some_2. lia.
Qed.

Lemma C3_dual_interleave_layout_witness :
  length [1; 2; 3; 4] = (2 * 2)%nat ∧ length [5; 6; 7; 8] = (2 * 2)%nat ∧
  ∃ out : list Z,
    dual_interleave (0 : Z) 2 [1; 2; 3; 4] [5; 6; 7; 8] = Some out ∧
    length out = 8%nat ∧
    ∀ s, (s < 2)%nat →
      is_Some (out !! (4 * s)%nat) ∧
      out !! (4 * s)%nat = [1; 2; 3; 4] !! (2 * s)%nat ∧
      out !! (4 * s + 1)%nat = [1; 2; 3; 4] !! (2 * s + 1)%nat ∧
      out !! (4 * s + 2)%nat = [5; 6; 7; 8] !! (2 * s)%nat ∧
      out !! (4 * s + 3)%nat = [5; 6; 7; 8] !! (2 * s + 1)%nat.
Proof.
  split; [reflexivity|]. split; [reflexivity|].
  apply (C3_dual_interleave_layout (0 : Z) 2 [1; 2; 3; 4] [5; 6; 7; 8]); reflexivity.
Defined.

(** C10: dual-channel interleaving is a lossless permutation with an
    exact inverse: the stride-4 subsequences of the transfer buffer at
    offsets 0, 1, 2, 3 are [ch0]'s even-indexed, [ch0]'s odd-indexed,
    [ch1]'s even-indexed and [ch1]'s odd-indexed elements; de-interleaving
    gives back both buffers; the transfer buffer is a permutation of
    [ch0 ++ ch1]. *)
Theorem C10_dual_interleave_inverse {G : Type} `{!NumpyRuntime G}
    (g : G) (n : nat) (ch0 ch1 : list Z) :
  length ch0 = (2 * n)%nat → length ch1 = (2 * n)%nat →
  ∃ out : list Z,
    dual_interleave g n ch0 ch1 = Some out ∧
    slice_get 0 4 out = slice_get 0 2 ch0 ∧
    slice_get 1 4 out = slice_get 1 2 ch0 ∧
    slice_get 2 4 out = slice_get 0 2 ch1 ∧
    slice_get 3 4 out = slice_get 1 2 ch1 ∧
    dual_deinterleave out = (ch0, ch1) ∧
    out ≡ₚ ch0 ++ ch1.
Proof.
  intros H0 H1.
  destruct (dual_interleave_spec g n ch0 ch1 H0 H1) as (out & Hout & Hlen & _).
  destruct (dual_interleave_views g n ch0 ch1 out H0 H1 Hout) as (V0 & V1 & V2 & V3).
  exists out. repeat split; try done.
  - unfold dual_deinterleave. rewrite V0, V1, V2, V3.
    by rewrite (pair_up_slices n ch0), (pair_up_slices n ch1).
  - rewrite <- (quad_up_slices n out Hlen), V0, V1, V2, V3.
    rewrite quad_up_perm.
    + by rewrite (pair_up_slices n ch0), (pair_up_slices n ch1).
    + rewrite !length_slice_get, H0, !slice_len_exact; lia.
    + rewrite !length_slice_get, H0, H1, !slice_len_exact; lia.
    + rewrite !length_slice_get, H0, H1, !slice_len_exact; lia.
Qed.

Lemma C10_dual_interleave_inverse_witness :
  length [1; 2; 3; 4] = (2 * 2)%nat ∧ length [5; 6; 7; 8] = (2 * 2)%nat ∧
  ∃ out : list Z,
    dual_interleave (0 : Z) 2 [1; 2; 3; 4] [5; 6; 7; 8] = Some out ∧
    slice_get 0 4 out = slice_get 0 2 [1; 2; 3; 4] ∧
    slice_get 1 4 out = slice_get 1 2 [1; 2; 3; 4] ∧
    slice_get 2 4 out = slice_get 0 2 [5; 6; 7; 8] ∧
    slice_get 3 4 out = slice_get 1 2 [5; 6; 7; 8] ∧
    dual_deinterleave out = ([1; 2; 3; 4], [5; 6; 7; 8]) ∧
    out ≡ₚ [1; 2; 3; 4] ++ [5; 6; 7; 8].
Proof.
  split; [reflexivity|]. split; [reflexivity|].
  apply (C10_dual_interleave_inverse (0 : Z) 2 [1; 2; 3; 4] [5; 6; 7; 8]); reflexivity.
Defined.

(** ** Claims on shutdown, the exit code and the transmit loop *)

(** C6, as stated, fails: in a dual-channel run whose loop SIGINT ends,
    on a board that refuses to switch channel 0 off, that failure is the
    last call of the run: channel 1 is never switched off and the device
    is never closed. *)
Lemma C6_counterexample :
  let run := dual_main l1_l2_script small_locals 10 (init_world disable0_board (42 : Z)) in
  run.1 = Exit 0 ∧
  ((EnableModule (CHANNEL_TX 0) false, Raises BladeRFError) ∈ replies_of (log run.2)) ∧
  ((EnableModule (CHANNEL_TX 1) false) ∉ calls_of (log run.2)) ∧
  (Close ∉ calls_of (log run.2)).
Proof.
  cbv zeta. split; [by vm_compute|]. split; [|split].
  - apply (bool_decide_unpack _). by vm_compute.
  - apply (bool_decide_unpack _). by vm_compute.
  - apply (bool_decide_unpack _). by vm_compute.
Qed.

(** C6, amended: the calls of the shutdown path (switch channel 0 off,
    switch channel 1 off, close; in the single-channel script: switch
    channel 0 off, close) are made in order inside one guarded block: the
    first to fail is the last one made, and its failure is swallowed;
    when no device was opened none is made.  The block always returns,
    and no exception leaves [main], from whatever state. *)
Theorem C6_shutdown_stops_at_first_failure {S G : Type} `{!Environment S} `{!NumpyRuntime G}
    (w : world S G) :
  (∃ w' evs, dual_finally w = (Ok tt, w') ∧ log w' = log w ++ evs ∧
             if dev w then stops_at_first_failure dual_teardown (replies_of evs)
             else evs = []) ∧
  (∃ w' evs, single_finally w = (Ok tt, w') ∧ log w' = log w ++ evs ∧
             if dev w then stops_at_first_failure single_teardown (replies_of evs)
             else evs = []) ∧
  (∀ k p fuel e, (dual_main k p fuel w).1 ≠ Uncaught e) ∧
  (∀ f gdb p fuel e, (single_main f gdb p fuel w).1 ≠ Uncaught e).
Proof.
  split; [|split; [|split]].
  - destruct (dual_finally_spec w) as (w' & evs & Hfin & Hlog & _ & _ & _ & Hshape).
    by exists w', evs.
  - destruct (single_finally_spec w) as (w' & evs & Hfin & Hlog & _ & _ & _ & Hshape).
    by exists w', evs.
  - intros k p fuel e. apply (never_uncaught dual_teardown), dual_finally_spec.
  - intros f gdb p fuel e. apply (never_uncaught single_teardown), single_finally_spec.
Qed.

Lemma C6_shutdown_stops_at_first_failure_witness :
  ∃ w' evs,
    dual_finally (World disable0_board (42 : Z) false true []) = (Ok tt, w') ∧
    log w' = [] ++ evs ∧
    stops_at_first_failure dual_teardown (replies_of evs).
Proof.
  exact (proj1 (C6_shutdown_stops_at_first_failure
                  (World disable0_board (42 : Z) false true []))).
Defined.

(** C7: the outcome of a run is [1] exactly when a fatal call failed
    (opening the device, configuration, stream setup, a transmission) and
    [0] when the loop condition read [False]; after the failure the
    shutdown still runs, and nothing else does.  When the second
    transmission times out there are two evaluations of the loop
    condition and two transmit calls, then the shutdown, and the outcome
    is [1]. *)
Theorem C7_exit_code {S G : Type} `{!Environment S} `{!NumpyRuntime G}
    (fuel : nat) (s : S) (g : G) :
  (∀ k p, verdict dual_teardown fuel (dual_main k p fuel (init_world s g))) ∧
  (∀ f gdb p, verdict single_teardown fuel (single_main f gdb p fuel (init_world s g))) ∧
  verdict dual_teardown fuel (main_l1_l2 fuel s g) ∧
  verdict dual_teardown fuel (main_l2_l5 fuel s g) ∧
  verdict single_teardown fuel (main_l5 fuel s g) ∧
  (let run := dual_main l1_l2_script small_locals 10 (init_world second_tx_board (42 : Z)) in
   run.1 = Exit 1 ∧
   tx_replies (log run.2) = [Returns VNone; Raises BladeRFError] ∧
   count_poll (log run.2) = 2%nat ∧
   calls_of (last_events 3 (log run.2)) = dual_teardown) ∧
  (let run := single_main L5_HZ 60 small_locals 10 (init_world second_tx_board (42 : Z)) in
   run.1 = Exit 1 ∧
   tx_replies (log run.2) = [Returns VNone; Raises BladeRFError] ∧
   count_poll (log run.2) = 2%nat ∧
   calls_of (last_events 2 (log run.2)) = single_teardown).
Proof.
  split; [|split; [|split; [|split; [|split; [|split]]]]].
  - intros k p. apply dual_main_verdict.
  - intros f gdb p. apply single_main_verdict.
  - apply dual_main_verdict.
  - apply dual_main_verdict.
  - apply single_main_verdict.
  - by vm_compute.
  - by vm_compute.
Qed.

Lemma C7_exit_code_witness :
  verdict dual_teardown 10
    (dual_main l1_l2_script small_locals 10 (init_world no_fault_board (42 : Z))) ∧
  (dual_main l1_l2_script small_locals 10 (init_world no_fault_board (42 : Z))).1 = Exit 0.
Proof.
  split.
  - exact (proj1 (C7_exit_code 10 no_fault_board (42 : Z)) l1_l2_script small_locals).
  - by vm_compute.
Defined.

(** C8: in every run, once the flag has been set at most one more
    transmit call is made; the loop condition is evaluated once per
    transmit call, and once more when the loop leaves; with the flag down
    the loop leaves at its next evaluation, without a call. *)
Theorem C8_cancellation_latency {S G : Type} `{!Environment S} `{!NumpyRuntime G}
    (fuel : nat) (s : S) (g : G) :
  (∀ k p,
     let l := log (dual_main k p fuel (init_world s g)).2 in
     (tx_after_sigint l ≤ 1)%nat ∧
     (count_poll l = count_tx l ∨ count_poll l = (count_tx l + 1)%nat)) ∧
  (∀ f gdb p,
     let l := log (single_main f gdb p fuel (init_world s g)).2 in
     (tx_after_sigint l ≤ 1)%nat ∧
     (count_poll l = count_tx l ∨ count_poll l = (count_tx l + 1)%nat)) ∧
  (∀ n t (w : world S G), running w = false →
     ∃ w', dual_loop (Datatypes.S fuel) n t w = (Ok tt, w') ∧
           calls_of (log w') = calls_of (log w)) ∧
  (∀ n t buf (w : world S G), running w = false →
     ∃ w', single_loop (Datatypes.S fuel) n t buf w = (Ok tt, w') ∧
           calls_of (log w') = calls_of (log w)).
Proof.
  split; [|split; [|split]].
  - intros k p. apply dual_main_acct.
  - intros f gdb p. apply single_main_acct.
  - intros n t w. apply dual_loop_leaves.
  - intros n t buf w. apply single_loop_leaves.
Qed.

Lemma C8_cancellation_latency_witness :
  let l := log (dual_main l1_l2_script small_locals 10
                  (init_world no_fault_board (42 : Z))).2 in
  has_sigint l = true ∧ (tx_after_sigint l ≤ 1)%nat ∧ tx_after_sigint l = 1%nat.
Proof.
  cbv zeta. split; [by vm_compute|]. split; [|by vm_compute].
  exact (proj1 (proj1 (C8_cancellation_latency 10 no_fault_board (42 : Z))
                  l1_l2_script small_locals)).
Defined.

(** C9: every pass of the dual-channel loop generates both channel
    buffers anew, from the generator state of that pass, before it
    interleaves and transmits them; a pass of the single-channel loop
    transmits the buffer it holds and hands on a freshly generated one
    when a draw from the 100 values [0 .. 99] is [0], the same one
    otherwise: one draw in a hundred. *)
Theorem C9_refresh_policies {S G : Type} `{!Environment S} `{!NumpyRuntime G}
    (n : nat) (t : Z) (w : world S G) :
  (∃ b0 b1 out,
     generate_white_noise n (np w) = (Some b0, np_after n (np w)) ∧
     generate_white_noise n (np_after n (np w)) =
       (Some b1, np_after n (np_after n (np w))) ∧
     dual_interleave (np_after n (np_after n (np w))) n b0 b1 = Some out ∧
     calls_of (log (dual_iteration n t w).2) = calls_of (log w) ++ [SyncTx out t]) ∧
  (∀ buf,
     let draw := (randint 0 100 (np w)).1 in
     let g1 := (randint 0 100 (np w)).2 in
     0 ≤ draw < 100 ∧
     calls_of (log (single_iteration n t buf w).2) = calls_of (log w) ++ [SyncTx buf t] ∧
     ∀ next, (single_iteration n t buf w).1 = Ok next →
       if decide (draw = 0)
       then generate_white_noise n g1 = (Some next, np_after n g1)
       else next = buf) ∧
  (∀ fuel buf,
     dual_loop (Datatypes.S fuel) n t =
       (go ← poll_running;
        if go : bool then dual_iteration n t ;; dual_loop fuel n t else mret tt) ∧
     single_loop (Datatypes.S fuel) n t buf =
       (go ← poll_running;
        if go : bool
        then next ← single_iteration n t buf; single_loop fuel n t next
        else mret tt)) ∧
  length (filter (λ draw, draw = 0) (seqZ 0 100)) = 1%nat ∧
  length (seqZ 0 100) = 100%nat.
Proof.
  split; [|split; [|split; [done|by vm_compute]]].
  - destruct (dual_iteration_eq n t w)
      as (b0 & b1 & out & Hb0 & Hb1 & Hout & pending & r & s & Hit).
    exists b0, b1, out. do 3 (split; [done|]). rewrite Hit.
    destruct r; [rewrite handle_signals_eq|]; cbn [snd log emit signalled after_call with_np];
      rewrite !calls_of_app, ?calls_of_sig_events; cbn; by rewrite ?app_nil_r.
  - intros buf.
    destruct (single_iteration_eq n t buf w) as (pending & r & s & Hdraw & fresh & Hfresh & Hit).
    cbv zeta in *. split; [done|]. rewrite Hit. split.
    + destruct r; [destruct (decide _)|]; rewrite ?handle_signals_eq;
        cbn [snd log emit signalled after_call with_np];
        rewrite !calls_of_app, ?calls_of_sig_events; cbn; by rewrite ?app_nil_r.
    + intros next Hnext. destruct r; [|done].
      destruct (decide _); cbn in Hnext; by simplify_eq.
Qed.

Lemma C9_refresh_policies_witness :
  ∃ b0 b1 out,
    generate_white_noise 2 (42 : Z) = (Some b0, np_after 2 (42 : Z)) ∧
    generate_white_noise 2 (np_after 2 (42 : Z)) =
      (Some b1, np_after 2 (np_after 2 (42 : Z))) ∧
    dual_interleave (np_after 2 (np_after 2 (42 : Z))) 2 b0 b1 = Some out ∧
    calls_of (log (dual_iteration 2 3500 (init_world no_fault_board (42 : Z))).2) =
      [] ++ [SyncTx out 3500].
Proof.
  exact (proj1 (C9_refresh_policies 2 3500 (init_world no_fault_board (42 : Z)))).
Defined.

(* ===================================================================== *)
(** * Further properties of the code *)
(* ===================================================================== *)

(** ** The generator, element by element *)

Lemma pair_up_lookup (i q : list Z) (s : nat) :
  length q = length i →
  pair_up i q !! (2 * s)%nat = i !! s ∧ pair_up i q !! (2 * s + 1)%nat = q !! s.
Proof.
  revert q s. induction i as [|a i IH]; intros [|b q] s Hlen; try done.
  destruct s as [|s]; [done|].
  replace (2 * Datatypes.S s)%nat with (Datatypes.S (Datatypes.S (2 * s))) by lia.
  cbn in Hlen. apply (IH q s). lia.
Qed.

Lemma length_pair_up (i q : list Z) :
  length q = length i → length (pair_up i q) = (2 * length i)%nat.
Proof.
  revert q. induction i as [|a i IH]; intros [|b q] Hlen; try done.
  cbn in *. rewrite IH; lia.
Qed.

Lemma Forall_pair_up (P : Z → Prop) (i q : list Z) :
  Forall P i → Forall P q → Forall P (pair_up i q).
Proof.
  intros Hi. revert q. induction Hi as [|a i Ha Hi IH]; intros q Hq; [by destruct q|].
  destruct Hq as [|b q Hb Hq]; [constructor|]. cbn. repeat constructor; auto.
Qed.

Section GeneratorMore.
Context {G : Type} `{!NumpyRuntime G}.

(** [n + m] draws are [n] draws followed by [m] draws. *)
Lemma randint_array_app (lo hi : Z) (n m : nat) (g : G) :
  randint_array lo hi (n + m) g =
  ((randint_array lo hi n g).1 ++ (randint_array lo hi m (randint_array lo hi n g).2).1,
   (randint_array lo hi m (randint_array lo hi n g).2).2).
Proof.
  revert g. induction n as [|n IH]; intros g; cbn.
  - by destruct (randint_array lo hi m g).
  - destruct (randint lo hi g) as [x g1]. rewrite IH.
    destruct (randint_array lo hi n g1) as [xs g2]. cbn.
    by destruct (randint_array lo hi m g2).
Qed.

Lemma generate_white_noise_pairs (n : nat) (g : G) :
  generate_white_noise n g =
  (Some (pair_up (scale095 <$> raw_i n g) (scale095 <$> raw_q n g)), np_after n g).
Proof.
  destruct (generate_white_noise_spec n g) as (buf & -> & Hlen & Hat).
  do 2 f_equal. apply list_eq. intros j.
  assert (Hq : length (scale095 <$> raw_q n g) = length (scale095 <$> raw_i n g)).
  { unfold raw_i, raw_q. by rewrite !length_fmap, !length_randint_array. }
  assert (Hi : length (scale095 <$> raw_i n g) = n).
  { unfold raw_i. by rewrite length_fmap, length_randint_array. }
  destruct (decide (j < 2 * n)%nat) as [Hj|Hj].
  - destruct (pair_up_lookup _ _ (j `div` 2) Hq) as [He Ho].
    destruct (Hat (j `div` 2)%nat) as [Hae Hao];
      [apply Nat.Div0.div_lt_upper_bound; lia|].
    pose proof (Nat.div_mod j 2 ltac:(lia)) as Hdm.
    pose proof (Nat.mod_upper_bound j 2 ltac:(lia)) as Hmod.
    destruct (decide (j `mod` 2 = 0)%nat) as [Hp|Hp].
    + replace j with (2 * (j `div` 2))%nat at 1 2 by lia.
      rewrite Hae, He, list_lookup_fmap.
      rewrite (list_lookup_lookup_total_lt (raw_i n g)); [done|].
      unfold raw_i. rewrite length_randint_array.
      apply Nat.Div0.div_lt_upper_bound; lia.
    + replace j with (2 * (j `div` 2) + 1)%nat at 1 2 by lia.
      rewrite Hao, Ho, list_lookup_fmap.
      rewrite (list_lookup_lookup_total_lt (raw_q n g)); [done|].
      unfold raw_q. rewrite length_randint_array.
      apply Nat.Div0.div_lt_upper_bound; lia.
  - rewrite !lookup_ge_None_2; [done| |lia].
    rewrite length_pair_up by done. lia.
Qed.

(** X1: the buffer [generate_white_noise] returns is
    [I0, Q0, I1, Q1, ...] of the scaled draws and nothing else: no element
    of the [np.empty] allocation survives.  All I draws are taken before
    the first Q draw, and the generator is left where [2n] single draws
    leave it. *)
Theorem X1_generate_closed_form (n : nat) (g : G) :
  let draws := randint_array (-2047) 2048 (n + n) g in
  (generate_white_noise n g).1 =
    Some (pair_up (scale095 <$> take n draws.1) (scale095 <$> drop n draws.1)) ∧
  (generate_white_noise n g).2 = draws.2.
Proof.
  cbv zeta. rewrite generate_white_noise_pairs, randint_array_app. cbn [fst snd].
  unfold raw_i, raw_q, np_after.
  pose proof (length_randint_array (-2047) 2048 n g) as Hlen.
  rewrite take_app_length', drop_app_length' by done. done.
Qed.

(** Every element of a generated buffer is within the headroom bound. *)
Lemma generate_in_range (n : nat) (g : G) (buf : list Z) :
  (generate_white_noise n g).1 = Some buf →
  length buf = (2 * n)%nat ∧ Forall (λ v, -1944 ≤ v ≤ 1944) buf.
Proof.
  rewrite generate_white_noise_pairs. cbn [fst]. intros [= <-].
  assert (Hr : ∀ l : list Z, Forall (λ x, -2047 ≤ x < 2048) l →
            Forall (λ v, -1944 ≤ v ≤ 1944) (scale095 <$> l)).
  { intros l Hl. apply Forall_fmap. eapply Forall_impl; [exact Hl|].
    intros x Hx. cbn in Hx |- *. rewrite scale095_exact by lia.
    apply trunc095_bound. lia. }
  split.
  - rewrite length_pair_up; unfold raw_i, raw_q;
      rewrite !length_fmap, !length_randint_array; lia.
  - apply Forall_pair_up; apply Hr; by apply randint_array_range.
Qed.

End GeneratorMore.

(** ** The scaling as a function *)

Lemma trunc095_opp (x : Z) : trunc095 (- x) = - trunc095 x.
Proof.
  unfold trunc095. replace (- x * 95) with (- (x * 95)) by lia.
  apply Z.quot_opp_l. lia.
Qed.

Lemma trunc095_nonneg (x : Z) : 0 ≤ x → 0 ≤ trunc095 x ≤ x ∧ (trunc095 x = 0 ↔ x ≤ 1).
Proof.
  intros Hx. unfold trunc095. rewrite Z.quot_div_nonneg by lia.
  pose proof (Z.div_mod (x * 95) 100 ltac:(lia)) as Hdm.
  pose proof (Z.mod_pos_bound (x * 95) 100 ltac:(lia)) as Hmod.
  split; [lia|]. split; lia.
Qed.

(** X2: on the range of the generator the scaling is odd (truncation
    toward zero introduces no offset), does not increase the magnitude,
    is monotone, and sends exactly [-1], [0] and [1] to [0]. *)
Theorem X2_scale095_shape (x y : Z) :
  -2047 ≤ x ≤ 2047 → -2047 ≤ y ≤ 2047 →
  scale095 (- x) = - scale095 x ∧
  Z.abs (scale095 x) ≤ Z.abs x ∧
  (x ≤ y → scale095 x ≤ scale095 y) ∧
  (scale095 x = 0 ↔ -1 ≤ x ≤ 1).
Proof.
  intros Hx Hy. rewrite !scale095_exact by lia.
  split; [apply trunc095_opp|]. split; [|split].
  - destruct (Z.le_gt_cases 0 x) as [H0|H0].
    + pose proof (trunc095_nonneg x H0). lia.
    + pose proof (trunc095_nonneg (- x) ltac:(lia)) as H. rewrite trunc095_opp in H. lia.
  - intros Hle. unfold trunc095. apply Z.quot_le_mono; lia.
  - destruct (Z.le_gt_cases 0 x) as [H0|H0].
    + pose proof (trunc095_nonneg x H0). lia.
    + pose proof (trunc095_nonneg (- x) ltac:(lia)) as H. rewrite trunc095_opp in H. lia.
Qed.

Lemma X2_scale095_shape_witness :
  -2047 ≤ -20 ≤ 2047 ∧ -2047 ≤ 1 ≤ 2047 ∧
  scale095 (- -20) = - scale095 (-20) ∧
  Z.abs (scale095 (-20)) ≤ Z.abs (-20) ∧
  (-20 ≤ 1 → scale095 (-20) ≤ scale095 1) ∧
  (scale095 (-20) = 0 ↔ -1 ≤ -20 ≤ 1).
Proof.
  split; [lia|]. split; [lia|]. apply (X2_scale095_shape (-20) 1); lia.
Defined.

(** ** The interleaving step on buffers of the wrong size *)


Lemma slice_set_broadcast (r m n : nat) (v : Z) (dst : list Z) :
  (r < m)%nat → length dst = (m * n)%nat →
  slice_set r m [v] dst = Some (slice_store r m (replicate n v) dst).
Proof.
  intros Hr Hdst. unfold slice_set. rewrite Hdst, slice_len_exact by done.
  destruct (decide (length [v] = n)) as [<-|Hn]; [done|].
  by rewrite decide_True.
Qed.

Section InterleaverMore.
Context {G : Type} `{!NumpyRuntime G}.

Lemma length_view (r m : nat) (a : list Z) :
  (r < 2)%nat → length a = (2 * m)%nat → length (slice_get r 2 a) = m.
Proof. intros Hr Ha. by rewrite length_slice_get, Ha, slice_len_exact. Qed.


(** X4: a channel-0 buffer that holds one sample [i0, q0] does not
    raise: the sample is broadcast, every slot of the transfer buffer
    carries it, next to the samples of channel 1. *)
Theorem X4_dual_interleave_broadcast (g : G) (n : nat) (i0 q0 : Z) (ch1 : list Z) :
  length ch1 = (2 * n)%nat →
  ∃ out : list Z,
    dual_interleave g n [i0; q0] ch1 = Some out ∧
    length out = (4 * n)%nat ∧
    ∀ s, (s < n)%nat →
      out !! (4 * s)%nat = Some i0 ∧
      out !! (4 * s + 1)%nat = Some q0 ∧
      out !! (4 * s + 2)%nat = ch1 !! (2 * s)%nat ∧
      out !! (4 * s + 3)%nat = ch1 !! (2 * s + 1)%nat.
Proof.
  intros H1. unfold dual_interleave.
  change (slice_get 0 2 [i0; q0]) with [i0]. change (slice_get 1 2 [i0; q0]) with [q0].
  rewrite (slice_set_broadcast 0 4 n) by (rewrite ?length_np_empty; lia).
  cbn [mbind option_bind].
  rewrite (slice_set_broadcast 1 4 n)
    by (rewrite ?length_slice_store, ?length_np_empty; lia).
  cbn [mbind option_bind].
  rewrite (slice_set_exact 2 4 n)
    by (rewrite ?length_slice_store, ?length_np_empty, ?(length_view _ n); lia).
  cbn [mbind option_bind].
  rewrite (slice_set_exact 3 4 n)
    by (rewrite ?length_slice_store, ?length_np_empty, ?(length_view _ n); lia).
  eexists. split; [reflexivity|].
  split; [rewrite !length_slice_store, length_np_empty; lia|].
  intros s Hs.
  destruct (lookup_lt_is_Some_2 ch1 (0 + s * 2)%nat) as [v2 Hv2]; [lia|].
  destruct (lookup_lt_is_Some_2 ch1 (1 + s * 2)%nat) as [v3 Hv3]; [lia|].
  replace (2 * s + 1)%nat with (1 + s * 2)%nat by lia.
  replace (2 * s)%nat with (0 + s * 2)%nat by lia.
  rewrite Hv2, Hv3.
  replace (4 * s + 1)%nat with (1 + s * 4)%nat by lia.
  replace (4 * s + 2)%nat with (2 + s * 4)%nat by lia.
  replace (4 * s + 3)%nat with (3 + s * 4)%nat by lia.
  replace (4 * s)%nat with (0 + s * 4)%nat by lia.
  repeat split.
  - do 3 (rewrite slice_store_miss by (intros; lia)).
    apply slice_store_hit; [lia|by apply lookup_replicate_2|rewrite length_np_empty; lia].
  - do 2 (rewrite slice_store_miss by (intros; lia)).
    apply slice_store_hit;
      [lia|by apply lookup_replicate_2|rewrite ?length_slice_store, length_np_empty; lia].
  - rewrite slice_store_miss by (intros; lia).
    apply slice_store_hit;
      [lia|rewrite (slice_get_lookup 0 2 n) by lia; done
          |rewrite ?length_slice_store, length_np_empty; lia].
  - apply slice_store_hit;
      [lia|rewrite (slice_get_lookup 1 2 n) by lia; done
          |rewrite ?length_slice_store, length_np_empty; lia].
Qed.

(** The transfer buffer holds the samples of its two inputs and no
    others. *)
Lemma dual_interleave_perm (g : G) (n : nat) (ch0 ch1 out : list Z) :
  length ch0 = (2 * n)%nat → length ch1 = (2 * n)%nat →
  dual_interleave g n ch0 ch1 = Some out →
  length out = (4 * n)%nat ∧ out ≡ₚ ch0 ++ ch1.
Proof.
  intros H0 H1 Hout.
  destruct (dual_interleave_spec g n ch0 ch1 H0 H1) as (out' & Hout' & Hlen & _).
  destruct (dual_interleave_views g n ch0 ch1 out H0 H1 Hout) as (V0 & V1 & V2 & V3).
  simplify_eq. split; [done|].
  rewrite <- (quad_up_slices n out Hlen), V0, V1, V2, V3, quad_up_perm.
  - by rewrite (pair_up_slices n ch0), (pair_up_slices n ch1).
  - rewrite !(length_view _ n) by (done || lia). done.
  - rewrite !(length_view _ n) by (done || lia). done.
  - rewrite !(length_view _ n) by (done || lia). done.
Qed.

End InterleaverMore.


Lemma X4_dual_interleave_broadcast_witness :
  length [5; 6; 7; 8] = (2 * 2)%nat ∧
  ∃ out : list Z,
    dual_interleave (0 : Z) 2 [1; 2] [5; 6; 7; 8] = Some out ∧
    length out = (4 * 2)%nat ∧
    ∀ s, (s < 2)%nat →
      out !! (4 * s)%nat = Some 1 ∧
      out !! (4 * s + 1)%nat = Some 2 ∧
      out !! (4 * s + 2)%nat = [5; 6; 7; 8] !! (2 * s)%nat ∧
      out !! (4 * s + 3)%nat = [5; 6; 7; 8] !! (2 * s + 1)%nat.
Proof.
  split; [reflexivity|].
  apply (X4_dual_interleave_broadcast (0 : Z) 2 1 2 [5; 6; 7; 8]). reflexivity.
Defined.

(** ** Invariants over a whole run *)

Section RunInvariants.
Context {S G : Type} `{!Environment S} `{!NumpyRuntime G}.
Implicit Types (w : world S G) (c : call).
Implicit Types (I P U : world S G → Prop) (E : exn → world S G → Prop).

Ltac closed_step ok :=
  first [ by apply (closed_do_ ok)
        | by apply (closed_do_call ok)
        | apply closed_per_million
        | by apply (closed_set_gain_stages ok)
        | by apply (closed_try_do_ ok)
        | by apply (closed_bind_dev ok)
        | by apply (closed_np_run ok)
        | apply (closed_configure_channel ok); [assumption|by intros []|done|done] ].

Lemma triple_raise_weaken {A} (m : M A) P Q E (E' : exn → world S G → Prop) U :
  triple P m Q E' U → (∀ e w, E' e w → E e w) → triple P m Q E U.
Proof. intros Hm HE. by eapply triple_weaken. Qed.

Lemma generate_good (n : nat) (g : G) :
  ∃ buf, (generate_white_noise n g).1 = Some buf ∧ in_headroom n buf.
Proof.
  destruct (generate_some n g) as (buf & Hgen & _). exists buf.
  rewrite Hgen. split; [done|]. apply (generate_in_range n g). by rewrite Hgen.
Qed.

(** The dual-channel loop, told what it transmits. *)
Lemma dual_loop_on I (Ib Q : world S G → Prop) E (fuel n : nat) (t : Z) :
  (∀ w pending, I w →
     if running (signalled w pending)
     then Ib (emit (EvPoll true) (signalled w pending))
     else Q (emit (EvPoll false) (signalled w pending))) →
  (∀ w g out pending r s, in_headroom (2 * n) out → Ib w →
     match r with
     | Returns _ =>
         ∀ pending', I (emit EvSleep
                          (signalled (after_call (with_np w g) pending (SyncTx out t) r s)
                             pending'))
     | Raises e => E e (after_call (with_np w g) pending (SyncTx out t) r s)
     end) →
  triple I (dual_loop fuel n t) (λ _, Q) E I.
Proof.
  intros Hpoll Hbody. induction fuel as [|fuel IH]; intros w Hw; [done|].
  cbn [dual_loop].
  assert (Hp : poll_running w =
               (Ok (running (handle_signals w)),
                emit (EvPoll (running (handle_signals w))) (handle_signals w))) by done.
  rewrite (bind_ok _ _ _ _ _ Hp). rewrite handle_signals_eq in *.
  specialize (Hpoll w (sigint (env w)).1 Hw).
  destruct (running (signalled w (sigint (env w)).1)); [|done].
  set (w1 := emit (EvPoll true) (signalled w (sigint (env w)).1)) in *.
  destruct (dual_iteration_eq n t w1)
    as (b0 & b1 & out & Hb0 & Hb1 & Hout & pending & r & s & Hit).
  assert (Hgood : in_headroom (2 * n) out).
  { destruct (generate_in_range n (np w1) b0) as [Hl0 Hr0]; [by rewrite Hb0|].
    destruct (generate_in_range n (np_after n (np w1)) b1) as [Hl1 Hr1]; [by rewrite Hb1|].
    destruct (dual_interleave_perm _ n b0 b1 out Hl0 Hl1 Hout) as [Hlen Hperm].
    split; [lia|]. rewrite Hperm. by apply Forall_app. }
  specialize (Hbody w1 (np_after n (np_after n (np w1))) out pending r s Hgood Hpoll).
  destruct r as [v|e].
  - rewrite (bind_ok _ _ _ _ _ Hit). rewrite handle_signals_eq. apply IH, Hbody.
  - by rewrite (bind_raise _ _ _ _ _ Hit).
Qed.

(** The single-channel loop, told what it transmits. *)
Lemma single_loop_on I (Ib Q : world S G → Prop) E (fuel n : nat) (t : Z) (buf : list Z) :
  in_headroom n buf →
  (∀ w pending, I w →
     if running (signalled w pending)
     then Ib (emit (EvPoll true) (signalled w pending))
     else Q (emit (EvPoll false) (signalled w pending))) →
  (∀ w buf' g pending r s, in_headroom n buf' → Ib w →
     match r with
     | Returns _ =>
         ∀ pending', I (emit EvSleep
                          (signalled (with_np (after_call w pending (SyncTx buf' t) r s) g)
                             pending'))
     | Raises e => E e (after_call w pending (SyncTx buf' t) r s)
     end) →
  triple I (single_loop fuel n t buf) (λ _, Q) E I.
Proof.
  intros Hbuf Hpoll Hbody. revert buf Hbuf.
  induction fuel as [|fuel IH]; intros buf Hbuf w Hw; [done|].
  cbn [single_loop].
  assert (Hp : poll_running w =
               (Ok (running (handle_signals w)),
                emit (EvPoll (running (handle_signals w))) (handle_signals w))) by done.
  rewrite (bind_ok _ _ _ _ _ Hp). rewrite handle_signals_eq in *.
  specialize (Hpoll w (sigint (env w)).1 Hw).
  destruct (running (signalled w (sigint (env w)).1)); [|done].
  set (w1 := emit (EvPoll true) (signalled w (sigint (env w)).1)) in *.
  destruct (single_iteration_eq n t buf w1) as (pending & r & s & _ & fresh & Hfresh & Hit).
  cbn zeta in Hit.
  pose proof (Hbody w1 buf (np_after n (randint 0 100 (np w1)).2) pending r s Hbuf Hpoll) as Hb1.
  pose proof (Hbody w1 buf (randint 0 100 (np w1)).2 pending r s Hbuf Hpoll) as Hb2.
  destruct r as [v|e]; [|by rewrite (bind_raise _ _ _ _ _ Hit)].
  destruct (decide ((randint 0 100 (np w1)).1 = 0));
    rewrite (bind_ok _ _ _ _ _ Hit), handle_signals_eq; apply IH; try done.
  apply (generate_in_range n (randint 0 100 (np w1)).2). by rewrite Hfresh.
Qed.

(** An invariant of the calls other than [sync_tx] passes through the
    [try] blocks, given what the loops do to it. *)
Lemma dual_try_closed I (Q : world S G → Prop) E k p (fuel : nat) :
  closed not_tx I → (∀ e w, I w → E e w) →
  triple I (dual_loop fuel (buffer_size p) (timeout_ms p)) (λ _, Q) E I →
  triple I (dual_try k p fuel) (λ _, Q) E I.
Proof.
  intros Hc HE Hloop. unfold dual_try.
  repeat (eapply triple_bind;
            [eapply triple_raise_weaken; [closed_step not_tx|exact HE]|intros ?]).
  exact Hloop.
Qed.

Lemma single_try_closed I (Q : world S G → Prop) E f gdb p (fuel : nat) :
  closed not_tx I → (∀ e w, I w → E e w) →
  (∀ buf, in_headroom (buffer_size p) buf →
     triple I (single_loop fuel (buffer_size p) (timeout_ms p) buf) (λ _, Q) E I) →
  triple I (single_try f gdb p fuel) (λ _, Q) E I.
Proof.
  intros Hc HE Hloop. unfold single_try.
  do 18 (eapply triple_bind;
            [eapply triple_raise_weaken; [closed_step not_tx|exact HE]|intros ?]).
  eapply triple_bind.
  - apply (triple_np_run _ (in_headroom (buffer_size p)) I (λ buf w, I w ∧ in_headroom (buffer_size p) buf)).
    + apply generate_good.
    + intros w buf g Hw Hbuf. split; [|done]. by apply Hc.
  - intros buf. apply triple_pre_pure, Hloop.
Qed.

(** What holds after the [try] block holds after [main], if the calls
    of the [finally] block keep it. *)
Lemma try_except_finally_inv (try_block finally_block : M unit)
    (Qok Qraise Qrun : world S G → Prop) w0 :
  match try_block w0 with
  | (Ok _, w1) => Qok w1
  | (Raise _, w1) => Qraise w1
  | (Unfinished, w1) => Qrun w1
  end →
  triple Qok finally_block (λ _, Qok) (λ _ _, False) (λ _, False) →
  triple Qraise finally_block (λ _, Qraise) (λ _ _, False) (λ _, False) →
  match try_except_finally try_block finally_block w0 with
  | (Exit code, w2) => (code = 0 ∧ Qok w2) ∨ (code = 1 ∧ Qraise w2)
  | (Uncaught _, _) => False
  | (StillRunning, w2) => Qrun w2
  end.
Proof.
  intros Htry Hok Hraise. unfold try_except_finally.
  destruct (try_block w0) as [[[]|e|] w1].
  - specialize (Hok w1 Htry). destruct (finally_block w1) as [[[]|e|] w2]; by auto.
  - specialize (Hraise w1 Htry). destruct (finally_block w1) as [[[]|e'|] w2]; by auto.
  - done.
Qed.

Lemma closed_mono (ok ok' : call → bool) I :
  (∀ c, ok' c = true → ok c = true) → closed ok I → closed ok' I.
Proof. intros Hok (Hcall & Hrest). split; [|done]. intros; apply Hcall; auto. Qed.

Lemma shutdown_not_tx c : shutdown_call c = true → not_tx c = true.
Proof. by destruct c. Qed.

(** The [finally] blocks make calls of the shutdown path only. *)
Lemma dual_finally_keeps I E U :
  closed shutdown_call I → triple I dual_finally (λ _, I) E U.
Proof.
  intros HI. unfold dual_finally.
  eapply triple_bind with (Q1 := λ _, I); [by intros w Hw|].
  intros [|]; [|by apply triple_ret].
  apply triple_try_pass.
  eapply triple_bind; [by apply (closed_do_ shutdown_call)|intros ?].
  eapply triple_bind; [by apply (closed_do_ shutdown_call)|intros ?].
  by apply (closed_do_ shutdown_call).
Qed.

Lemma single_finally_keeps I E U :
  closed shutdown_call I → triple I single_finally (λ _, I) E U.
Proof.
  intros HI. unfold single_finally.
  eapply triple_bind with (Q1 := λ _, I); [by intros w Hw|].
  intros [|]; [|by apply triple_ret].
  apply triple_try_pass. cbn zeta.
  eapply triple_bind; [by apply (closed_do_ shutdown_call)|intros ?].
  by apply (closed_do_ shutdown_call).
Qed.

(** An invariant of the loop that the other calls keep holds at the end
    of [main]: [Q] after the loop left, [R] after a failure. *)
Lemma dual_main_inv I (Q R : world S G → Prop) k p (fuel : nat) w0 :
  closed not_tx I → closed shutdown_call Q → closed shutdown_call R →
  (∀ w, I w → R w) → I w0 →
  triple I (dual_loop fuel (buffer_size p) (timeout_ms p)) (λ _, Q) (λ _, R) I →
  match dual_main k p fuel w0 with
  | (Exit code, w2) => (code = 0 ∧ Q w2) ∨ (code = 1 ∧ R w2)
  | (Uncaught _, _) => False
  | (StillRunning, w2) => I w2
  end.
Proof.
  intros HI HQ HR HIR H0 Hloop. unfold dual_main.
  apply (try_except_finally_inv _ _ Q R I).
  - pose proof (dual_try_closed I Q (λ _, R) k p fuel HI ltac:(auto) Hloop w0 H0) as H.
    by destruct (dual_try k p fuel w0) as [[[]|e|] w1].
  - by apply dual_finally_keeps.
  - by apply dual_finally_keeps.
Qed.

Lemma single_main_inv I (Q R : world S G → Prop) f gdb p (fuel : nat) w0 :
  closed not_tx I → closed shutdown_call Q → closed shutdown_call R →
  (∀ w, I w → R w) → I w0 →
  (∀ buf, in_headroom (buffer_size p) buf →
     triple I (single_loop fuel (buffer_size p) (timeout_ms p) buf) (λ _, Q) (λ _, R) I) →
  match single_main f gdb p fuel w0 with
  | (Exit code, w2) => (code = 0 ∧ Q w2) ∨ (code = 1 ∧ R w2)
  | (Uncaught _, _) => False
  | (StillRunning, w2) => I w2
  end.
Proof.
  intros HI HQ HR HIR H0 Hloop. unfold single_main.
  apply (try_except_finally_inv _ _ Q R I).
  - pose proof (single_try_closed I Q (λ _, R) f gdb p fuel HI ltac:(auto) Hloop w0 H0) as H.
    by destruct (single_try f gdb p fuel w0) as [[[]|e|] w1].
  - by apply single_finally_keeps.
  - by apply single_finally_keeps.
Qed.

(** *** What is transmitted *)

Lemma good_tx_closed (n : nat) (t : Z) :
  closed (S:=S) (G:=G) not_tx (λ w, Forall (good_tx n t) (log w)).
Proof.
  split; [|done]. intros w pending c r s Hw Hc. cbn [log after_call].
  rewrite !Forall_app. split; [done|]. split; [by destruct pending; repeat constructor|].
  constructor; [|done]. by destruct c.
Qed.

Lemma good_tx_emit (n : nat) (t : Z) w pending e :
  good_tx n t e → Forall (good_tx n t) (log w) →
  Forall (good_tx n t) (log (emit e (signalled w pending))).
Proof.
  intros He Hw. cbn [log emit signalled]. rewrite !Forall_app.
  split; [split; [done|by destruct pending; repeat constructor]|by constructor].
Qed.

Lemma good_tx_call (n : nat) (t : Z) w pending buf r s :
  in_headroom n buf → Forall (good_tx n t) (log w) →
  Forall (good_tx n t) (log (after_call w pending (SyncTx buf t) r s)).
Proof.
  intros Hbuf Hw. cbn [log after_call]. rewrite !Forall_app.
  split; [done|]. split; [by destruct pending; repeat constructor|by constructor].
Qed.

Lemma good_tx_poll (n : nat) (t : Z) w pending :
  Forall (good_tx n t) (log w) →
  if running (signalled w pending)
  then Forall (good_tx n t) (log (emit (EvPoll true) (signalled w pending)))
  else Forall (good_tx n t) (log (emit (EvPoll false) (signalled w pending))).
Proof. intros Hw. destruct (running _); by apply good_tx_emit. Qed.

(** *** The flag and the exit code *)

Lemma flag_after_call w pending c r s :
  flag_tracks_log w → flag_tracks_log (after_call w pending c r s).
Proof.
  unfold flag_tracks_log. cbn [running log after_call]. intros ->.
  rewrite !has_sigint_app, has_sigint_sig_events.
  change (has_sigint [EvCall c r]) with false.
  by destruct (has_sigint (log w)), pending.
Qed.

Lemma flag_emit w pending e :
  is_sigint e = false → flag_tracks_log w → flag_tracks_log (emit e (signalled w pending)).
Proof.
  unfold flag_tracks_log. cbn [running log emit signalled]. intros He ->.
  rewrite !has_sigint_app, has_sigint_sig_events.
  replace (has_sigint [e]) with false by (unfold has_sigint; cbn [existsb]; by rewrite He).
  by destruct (has_sigint (log w)), pending.
Qed.

Lemma flag_closed ok : closed (S:=S) (G:=G) ok flag_tracks_log.
Proof. split; [|done]. intros w pending c r s Hw _. by apply flag_after_call. Qed.

Lemma flag_down_closed ok :
  closed (S:=S) (G:=G) ok (λ w, flag_tracks_log w ∧ running w = false).
Proof.
  split; [|done]. intros w pending c r s [Hw Hr] _. split; [by apply flag_after_call|].
  cbn [running after_call]. by rewrite Hr.
Qed.

Lemma flag_poll w pending :
  flag_tracks_log w →
  if running (signalled w pending)
  then flag_tracks_log (emit (EvPoll true) (signalled w pending))
  else flag_tracks_log (emit (EvPoll false) (signalled w pending)) ∧
       running (emit (EvPoll false) (signalled w pending)) = false.
Proof.
  intros Hw. destruct (running (signalled w pending)) eqn:Hr.
  - by apply flag_emit.
  - split; [by apply flag_emit|exact Hr].
Qed.

Lemma exit_reason_intro (steps : list call) (fuel : nat) (run : outcome * world S G) :
  verdict steps fuel run →
  match run with
  | (Exit code, w2) =>
      (code = 0 ∧ flag_tracks_log w2 ∧ running w2 = false) ∨ (code = 1 ∧ flag_tracks_log w2)
  | (Uncaught _, _) => False
  | (StillRunning, w2) => flag_tracks_log w2
  end →
  exit_reason fuel run.
Proof.
  unfold verdict, exit_reason. destruct run as [[code|e|] w2]; cbn [fst snd].
  - intros V [(-> & Hf & Hr)|[-> Hf]]; (split; [done|]).
    + left. destruct V as [(_ & Hff & _)|(? & _)]; [|done].
      split; [done|]. split; [done|]. split; [|done].
      unfold flag_tracks_log in Hf. rewrite Hr in Hf. by destruct (has_sigint (log w2)).
    + right. by destruct V as [(? & _)|(_ & Hff & _)].
  - done.
  - intros [V1 V2] Hf. done.
Qed.

(** *** Pauses and transmissions *)

Lemma count_sleep_app (l1 l2 : list event) :
  count_sleep (l1 ++ l2) = (count_sleep l1 + count_sleep l2)%nat.
Proof. unfold count_sleep. by rewrite List.filter_app, length_app. Qed.

Lemma count_tx_ok_app (l1 l2 : list event) :
  count_tx_ok (l1 ++ l2) = (count_tx_ok l1 + count_tx_ok l2)%nat.
Proof. unfold count_tx_ok. by rewrite List.filter_app, length_app. Qed.

Lemma count_sleep_sig_events b : count_sleep (sig_events b) = 0%nat.
Proof. by destruct b. Qed.

Lemma count_tx_ok_sig_events b : count_tx_ok (sig_events b) = 0%nat.
Proof. by destruct b. Qed.

Lemma counts_after_call w pending c r s :
  not_tx c = true →
  count_sleep (log (after_call w pending c r s)) = count_sleep (log w) ∧
  count_tx_ok (log (after_call w pending c r s)) = count_tx_ok (log w) ∧
  count_tx (log (after_call w pending c r s)) = count_tx (log w).
Proof.
  intros Hc. cbn [log after_call].
  rewrite !count_sleep_app, !count_tx_ok_app, !count_tx_app,
    count_sleep_sig_events, count_tx_ok_sig_events, count_tx_sig_events.
  change (count_sleep [EvCall c r]) with 0%nat.
  replace (count_tx_ok [EvCall c r]) with 0%nat by (by destruct c).
  replace (count_tx [EvCall c r]) with 0%nat by (by destruct c).
  lia.
Qed.

Lemma counts_poll w pending b :
  count_sleep (log (emit (EvPoll b) (signalled w pending))) = count_sleep (log w) ∧
  count_tx_ok (log (emit (EvPoll b) (signalled w pending))) = count_tx_ok (log w) ∧
  count_tx (log (emit (EvPoll b) (signalled w pending))) = count_tx (log w).
Proof.
  cbn [log emit signalled].
  rewrite !count_sleep_app, !count_tx_ok_app, !count_tx_app,
    count_sleep_sig_events, count_tx_ok_sig_events, count_tx_sig_events.
  change (count_sleep [EvPoll b]) with 0%nat.
  change (count_tx_ok [EvPoll b]) with 0%nat.
  change (count_tx [EvPoll b]) with 0%nat.
  lia.
Qed.

Lemma counts_tx w pending buf t r s :
  count_sleep (log (after_call w pending (SyncTx buf t) r s)) = count_sleep (log w) ∧
  count_tx_ok (log (after_call w pending (SyncTx buf t) r s)) =
    (count_tx_ok (log w) + match r with Returns _ => 1 | Raises _ => 0 end)%nat ∧
  count_tx (log (after_call w pending (SyncTx buf t) r s)) = Datatypes.S (count_tx (log w)).
Proof.
  cbn [log after_call].
  rewrite !count_sleep_app, !count_tx_ok_app, !count_tx_app,
    count_sleep_sig_events, count_tx_ok_sig_events, count_tx_sig_events.
  change (count_sleep [EvCall (SyncTx buf t) r]) with 0%nat.
  change (count_tx [EvCall (SyncTx buf t) r]) with 1%nat.
  replace (count_tx_ok [EvCall (SyncTx buf t) r])
    with (match r with Returns _ => 1 | Raises _ => 0 end)%nat by (by destruct r).
  lia.
Qed.

Lemma counts_sleep w pending :
  count_sleep (log (emit EvSleep (signalled w pending))) = Datatypes.S (count_sleep (log w)) ∧
  count_tx_ok (log (emit EvSleep (signalled w pending))) = count_tx_ok (log w) ∧
  count_tx (log (emit EvSleep (signalled w pending))) = count_tx (log w).
Proof.
  cbn [log emit signalled].
  rewrite !count_sleep_app, !count_tx_ok_app, !count_tx_app,
    count_sleep_sig_events, count_tx_ok_sig_events, count_tx_sig_events.
  change (count_sleep [EvSleep]) with 1%nat.
  change (count_tx_ok [EvSleep]) with 0%nat.
  change (count_tx [EvSleep]) with 0%nat.
  lia.
Qed.

Lemma in_step_closed : closed (S:=S) (G:=G) not_tx (λ w, in_step (log w)).
Proof.
  split; [|done]. intros w pending c r s Hw Hc. unfold in_step in *.
  destruct (counts_after_call w pending c r s Hc) as (-> & -> & ->). done.
Qed.

Lemma paced_closed : closed (S:=S) (G:=G) not_tx (λ w, paced (log w)).
Proof.
  split; [|done]. intros w pending c r s Hw Hc. unfold paced in *.
  destruct (counts_after_call w pending c r s Hc) as (-> & -> & ->). done.
Qed.

Lemma in_step_poll w pending :
  in_step (log w) →
  if running (signalled w pending)
  then in_step (log (emit (EvPoll true) (signalled w pending)))
  else in_step (log (emit (EvPoll false) (signalled w pending))).
Proof.
  intros Hw. unfold in_step in *.
  destruct (running _);
    [destruct (counts_poll w pending true) as (-> & -> & ->)
    |destruct (counts_poll w pending false) as (-> & -> & ->)]; done.
Qed.

Lemma in_step_pass w w1 pending buf t r s :
  log w1 = log w → in_step (log w) →
  match r with
  | Returns _ =>
      ∀ pending', in_step (log (emit EvSleep
                                  (signalled (with_np (after_call w1 pending (SyncTx buf t) r s)
                                                (np w)) pending')))
  | Raises _ => paced (log (after_call w1 pending (SyncTx buf t) r s))
  end.
Proof.
  intros Hlog [H1 H2].
  pose proof (counts_tx w1 pending buf t r s) as (Ha & Hb & Hc). rewrite Hlog in *.
  destruct r as [v|e].
  - intros pending'. unfold in_step.
    destruct (counts_sleep (with_np (after_call w1 pending (SyncTx buf t) (Returns v) s) (np w))
                pending') as (-> & -> & ->).
    cbn [log with_np]. lia.
  - unfold paced. lia.
Qed.

(** *** Opening the device *)

Lemma opened_closed ok : closed (S:=S) (G:=G) ok opened.
Proof.
  split; [|split].
  - intros w pending c r s [Hd (v & rest & Hr)] _. split; [done|].
    exists v, (rest ++ [(c, r)]). cbn [log after_call].
    by rewrite !replies_of_app, replies_of_sig_events, Hr.
  - by intros w g Hw.
  - intros w [_ Hr]. by split.
Qed.

Lemma opened_emit w pending e : opened w → opened (emit e (signalled w pending)).
Proof.
  intros [Hd (v & rest & Hr)]. split; [done|].
  exists v, (rest ++ replies_of [e]). cbn [log emit signalled].
  by rewrite !replies_of_app, replies_of_sig_events, Hr, app_nil_r.
Qed.

Lemma unopened_finally (finally_block : M unit) (w : world S G) :
  (dev w = false → finally_block w = (Ok tt, w)) →
  unopened w → finally_block w = (Ok tt, w).
Proof. intros H [Hd _]. by apply H. Qed.

Lemma dual_finally_unbound (w : world S G) : dev w = false → dual_finally w = (Ok tt, w).
Proof.
  intros Hd. unfold dual_finally, dev_bound, mbind, M_bind, bind. cbn. by rewrite Hd.
Qed.

Lemma single_finally_unbound (w : world S G) : dev w = false → single_finally w = (Ok tt, w).
Proof.
  intros Hd. unfold single_finally, dev_bound, mbind, M_bind, bind. cbn. by rewrite Hd.
Qed.

Lemma open_step U :
  triple (S:=S) (G:=G) (λ w, dev w = false ∧ replies_of (log w) = []) (do_ Open)
    (λ _ w, dev w = false ∧ ∃ v, replies_of (log w) = [(Open, Returns v)])
    (λ _, unopened) U.
Proof.
  apply triple_do_, triple_do_call. intros w pending r s [Hd Hr] _.
  assert (replies_of (log (after_call w pending Open r s)) = [(Open, r)]) as Hlog.
  { cbn [log after_call]. by rewrite !replies_of_app, replies_of_sig_events, Hr. }
  destruct r as [v|e]; (split; [done|]); eauto.
Qed.

Lemma bind_dev_step E U :
  triple (S:=S) (G:=G) (λ w, dev w = false ∧ ∃ v, replies_of (log w) = [(Open, Returns v)])
    bind_dev (λ _, opened) E U.
Proof. intros w [_ [v Hr]]. split; [done|]. by exists v, []. Qed.

Lemma dual_loop_opened (fuel n : nat) (t : Z) :
  triple (S:=S) (G:=G) opened (dual_loop fuel n t) (λ _, opened) (λ _, opened) opened.
Proof.
  apply (dual_loop_on opened opened).
  - intros w pending Hw. destruct (running _); by apply opened_emit.
  - intros w g out pending r s _ Hw.
    assert (opened (after_call (with_np w g) pending (SyncTx out t) r s)) as Hc
      by (by apply (proj1 (opened_closed (λ _, true)))).
    destruct r; [|done]. intros pending'. by apply opened_emit.
Qed.

Lemma single_loop_opened (fuel n : nat) (t : Z) (buf : list Z) :
  in_headroom n buf →
  triple (S:=S) (G:=G) opened (single_loop fuel n t buf) (λ _, opened) (λ _, opened) opened.
Proof.
  intros Hbuf. apply (single_loop_on opened opened); [done|..].
  - intros w pending Hw. destruct (running _); by apply opened_emit.
  - intros w buf' g pending r s _ Hw.
    assert (opened (after_call w pending (SyncTx buf' t) r s)) as Hc
      by (by apply (proj1 (opened_closed (λ _, true)))).
    destruct r; [|done]. intros pending'.
    by apply (opened_emit (with_np (after_call w pending (SyncTx buf' t) (Returns v) s) g)).
Qed.

Lemma dual_try_opened k p (fuel : nat) :
  triple (S:=S) (G:=G) (λ w, dev w = false ∧ replies_of (log w) = []) (dual_try k p fuel)
    (λ _, opened) (λ _ w, opened w ∨ unopened w) opened.
Proof.
  pose proof (opened_closed not_tx) as Hc. unfold dual_try.
  eapply triple_bind;
    [eapply triple_raise_weaken; [apply open_step|by right]|intros ?; cbn beta].
  eapply triple_bind; [apply bind_dev_step|intros ?; cbn beta].
  repeat (eapply triple_bind;
            [eapply triple_raise_weaken; [closed_step not_tx|by left]|intros ?]).
  eapply triple_raise_weaken; [apply dual_loop_opened|by left].
Qed.

Lemma single_try_opened f gdb p (fuel : nat) :
  triple (S:=S) (G:=G) (λ w, dev w = false ∧ replies_of (log w) = []) (single_try f gdb p fuel)
    (λ _, opened) (λ _ w, opened w ∨ unopened w) opened.
Proof.
  pose proof (opened_closed not_tx) as Hc. unfold single_try.
  assert (HE : ∀ (e : exn) (w : world S G), opened w → opened w ∨ unopened w)
    by (intros; by left).
  eapply triple_bind;
    [eapply triple_raise_weaken; [apply open_step|by right]|intros ?; cbn beta].
  eapply triple_bind; [apply bind_dev_step|intros ?; cbn beta].
  do 16 (eapply triple_bind;
           [eapply triple_raise_weaken; [closed_step not_tx|exact HE]|intros ?]).
  eapply triple_bind.
  - apply (triple_np_run _ (in_headroom (buffer_size p)) opened
             (λ buf w, opened w ∧ in_headroom (buffer_size p) buf)).
    + apply generate_good.
    + intros w buf g Hw Hbuf. by split.
  - intros buf. apply triple_pre_pure. intros Hbuf.
    eapply triple_raise_weaken; [by apply single_loop_opened|by left].
Qed.

(** After [main]: the device was opened first, or opening it failed and
    nothing else was called. *)
Lemma main_opened (try_block finally_block : M unit) (s : S) (g : G) :
  triple (λ w, dev w = false ∧ replies_of (log w) = []) try_block
    (λ _, opened) (λ _ w, opened w ∨ unopened w) opened →
  triple opened finally_block (λ _, opened) (λ _ _, False) (λ _, False) →
  (∀ w, dev w = false → finally_block w = (Ok tt, w)) →
  let run := try_except_finally try_block finally_block (init_world s g) in
  opened run.2 ∨ (run.1 = Exit 1 ∧ unopened run.2).
Proof.
  intros Htry Hfin Hun. cbv zeta. unfold try_except_finally.
  specialize (Htry (init_world s g) ltac:(done)).
  destruct (try_block (init_world s g)) as [[[]|e|] w1].
  - specialize (Hfin w1 Htry). destruct (finally_block w1) as [[[]|e|] w2]; by auto.
  - destruct Htry as [Ho|Hu].
    + specialize (Hfin w1 Ho). destruct (finally_block w1) as [[[]|e'|] w2]; by auto.
    + rewrite (Hun w1 (proj1 Hu)). by right.
  - by left.
Qed.

End RunInvariants.

(** ** The order of the calls before the loop *)

Section Startup.
Context {S G : Type} `{!Environment S} `{!NumpyRuntime G}.
Implicit Types (w : world S G) (c : call) (L : list call) (base : list event).
Implicit Types (E : exn → world S G → Prop) (U : world S G → Prop).

Lemma setting_up_traced base L w : setting_up base L w → traced base L w.
Proof. intros (evs & ? & ? & ? & _). by exists evs. Qed.

Lemma traced_after_call base L w pending c r s :
  not_tx c = true → traced base L w → traced base (L ++ [c]) (after_call w pending c r s).
Proof.
  intros Hc (evs & Hlog & Hcalls & Htx).
  exists (evs ++ sig_events pending ++ [EvCall c r]). cbn [log after_call].
  rewrite Hlog, <- app_assoc. split; [done|].
  rewrite !calls_of_app, calls_of_sig_events, !count_tx_app, count_tx_sig_events, Hcalls, Htx.
  split; [done|]. by destruct c.
Qed.

Lemma setting_up_after_call base L w pending c r s :
  not_tx c = true → failure_at fatal (EvCall c r) = false →
  setting_up base L w → setting_up base (L ++ [c]) (after_call w pending c r s).
Proof.
  intros Hc Hr (evs & Hlog & Hcalls & Htx & Hf).
  exists (evs ++ sig_events pending ++ [EvCall c r]). cbn [log after_call].
  rewrite Hlog, <- app_assoc. split; [done|].
  rewrite !calls_of_app, calls_of_sig_events, !count_tx_app, count_tx_sig_events,
    !failure_app, failure_sig_events, Hcalls, Htx, Hf.
  split; [done|]. split; [by destruct c|].
  unfold failure. cbn [existsb]. by rewrite Hr.
Qed.

Lemma su_do_call base L c U :
  not_tx c = true →
  triple (setting_up base L) (do_call c)
    (λ _, setting_up base (L ++ [c])) (λ _, traced base (L ++ [c])) U.
Proof.
  intros Hc. apply triple_do_call. intros w pending r s Hw _. destruct r as [v|e].
  - by apply setting_up_after_call.
  - by apply traced_after_call, setting_up_traced.
Qed.

Lemma su_do_ base L c U :
  not_tx c = true →
  triple (setting_up base L) (do_ c)
    (λ _, setting_up base (L ++ [c])) (λ _, traced base (L ++ [c])) U.
Proof. intros Hc. by apply triple_do_, su_do_call. Qed.

Lemma su_try_do_ base L c E U :
  not_tx c = true → fatal c = false →
  triple (setting_up base L) (try_pass (do_ c)) (λ _, setting_up base (L ++ [c])) E U.
Proof.
  intros Hc Hf. apply triple_try_pass, triple_do_, triple_do_call.
  intros w pending r s Hw _.
  destruct r as [v|e]; by apply setting_up_after_call.
Qed.

Lemma su_bind_dev base L E U :
  triple (setting_up base L) bind_dev (λ _, setting_up base L) E U.
Proof. by intros w Hw. Qed.

Lemma su_np_run {A} base L (f : G → option A * G) U :
  triple (setting_up base L) (np_run f) (λ _, setting_up base L) (λ _, traced base L) U.
Proof.
  intros w Hw. unfold np_run. destruct (f (np w)) as [[a|] g]; [done|].
  by apply setting_up_traced in Hw.
Qed.

Lemma su_generate base L (n : nat) U :
  triple (setting_up base L) (np_run (generate_white_noise n))
    (λ buf w, setting_up base L w ∧ in_headroom n buf) (λ _, traced base L) U.
Proof.
  apply (triple_np_run _ (in_headroom n)); [apply generate_good|].
  intros w buf g Hw Hbuf. split; [exact Hw|done].
Qed.

Lemma su_per_million base L v U :
  triple (setting_up base L) (per_million v) (λ _, setting_up base L) (λ _, traced base L) U.
Proof. intros w Hw. destruct v; try done; by apply setting_up_traced in Hw. Qed.

Lemma su_stage_writes base ch (names : list string) L E U :
  triple (setting_up base L)
    (for_each names (λ stage,
       try_pass (if contains "dsa" (lower stage)
                 then do_ (SetGainStage ch stage 0)
                 else do_ (SetGainStage ch stage 60))))
    (λ _, setting_up base (L ++ stage_writes ch names)) E U.
Proof.
  revert L. induction names as [|stage names IH]; intros L; cbn [for_each].
  - apply triple_ret. intros w Hw. unfold stage_writes. cbn. by rewrite app_nil_r.
  - rewrite stage_branches. eapply triple_bind; [by apply su_try_do_|intros ?].
    replace (L ++ stage_writes ch (stage :: names))
      with ((L ++ [SetGainStage ch stage (stage_gain stage)]) ++ stage_writes ch names)
      by (by rewrite <- app_assoc).
    apply IH.
Qed.

Lemma su_set_gain_stages base L ch v U :
  triple (setting_up base L) (set_gain_stages ch v)
    (λ _ w, ∃ names, setting_up base (L ++ stage_writes ch names) w)
    (λ _, traced base L) U.
Proof.
  destruct v as [|z|names]; try (by intros w Hw; apply setting_up_traced in Hw).
  unfold set_gain_stages, for_stage_in.
  eapply triple_weaken; [apply (su_stage_writes base ch names L (λ _, traced base L) U)|..];
    try done.
  intros ? w Hw. by exists names.
Qed.

Lemma triple_pre_exists {A X} (m : M A) (P : X → world S G → Prop) Q E U :
  (∀ x, triple (P x) m Q E U) → triple (λ w, ∃ x, P x w) m Q E U.
Proof. intros H w [x Hw]. by apply (H x). Qed.

Lemma traced_prefix base L L' (H : list call) w :
  traced base (L ++ L') w → L' `prefix_of` H → L' ≠ [] →
  ∃ L', traced base (L ++ L') w ∧ L' `prefix_of` H ∧ L' ≠ [].
Proof. intros. by exists L'. Qed.

Ltac assoc_in H := rewrite <- ?app_assoc in H; cbn [app] in H.

Ltac head_prefix :=
  intros ? w Hw; try apply setting_up_traced in Hw;
  assoc_in Hw;
  eapply traced_prefix;
    [ exact Hw
    | unfold channel_head; eexists; cbn [app]; reflexivity
    | done ].

Ltac su_step tac :=
  eapply triple_bind;
    [ eapply triple_raise_weaken;
        [ first [ by apply su_do_ | by apply su_do_call | apply su_per_million
                | apply su_set_gain_stages
                | by apply (su_try_do_ _ _ _ (λ _ _, False))
                | apply (su_bind_dev _ _ (λ _ _, False)) | apply su_np_run ]
        | tac ]
    | intros ?; cbn beta ].

(** [configure_channel] makes its calls in program order. *)
Lemma configure_channel_order base L channel_idx freq_hz gain_db U :
  triple (setting_up base L) (configure_channel channel_idx freq_hz gain_db)
    (λ ch w, (∃ names, setting_up base
                         (L ++ channel_calls channel_idx freq_hz gain_db names) w) ∧
             ch = CHANNEL_TX channel_idx)
    (λ _ w, ∃ L', traced base (L ++ L') w ∧
                  L' `prefix_of` channel_head channel_idx freq_hz gain_db ∧ L' ≠ [])
    U.
Proof.
  unfold configure_channel.
  do 12 su_step head_prefix.
  su_step head_prefix.
  apply triple_pre_exists. intros names.
  eapply triple_bind; [by apply su_try_do_|intros ?].
  apply triple_ret. intros w Hw. split; [|done]. exists names.
  unfold channel_calls, channel_head. by rewrite <- !app_assoc in Hw.
Qed.

(** *** From the startup to the end of the run *)

Lemma armed_extend L w w' (evs : list event) :
  armed L w → log w' = log w ++ evs →
  Forall (λ c, streaming c = true) (calls_of evs) → armed L w'.
Proof.
  intros (pre & post & Hlog & Hcalls & Htx & Hf & Hpost) Hlog' Hevs.
  exists pre, (post ++ evs). rewrite Hlog', Hlog, <- app_assoc.
  repeat (split; [done|]). rewrite calls_of_app. by apply Forall_app.
Qed.

Lemma setting_up_armed L w : setting_up [] L w → armed L w.
Proof.
  intros (evs & Hlog & Hcalls & Htx & Hf). exists evs, [].
  rewrite app_nil_r. by repeat (split; [done|]).
Qed.

Lemma armed_after_call L w pending c r s :
  streaming c = true → armed L w → armed L (after_call w pending c r s).
Proof.
  intros Hc Hw. apply (armed_extend L w _ (sig_events pending ++ [EvCall c r])); try done.
  rewrite calls_of_app, calls_of_sig_events. by repeat constructor.
Qed.

Lemma armed_emit L w pending e :
  calls_of [e] = [] → armed L w → armed L (emit e (signalled w pending)).
Proof.
  intros He Hw. apply (armed_extend L w _ (sig_events pending ++ [e])).
  - done.
  - cbn [log emit signalled]. by rewrite <- app_assoc.
  - rewrite calls_of_app, calls_of_sig_events, He. constructor.
Qed.

Lemma armed_closed L : closed (S:=S) (G:=G) shutdown_call (armed L).
Proof.
  split; [|split; intros; match goal with H : _ |- _ => exact H end]. intros w pending c r s Hw Hc.
  apply armed_after_call; [by destruct c as [| | | | | | | | | | | | |? []| |]|done].
Qed.

Lemma count_tx_closed : closed (S:=S) (G:=G) not_tx (λ w, count_tx (log w) = 0%nat).
Proof. apply sent_closed. Qed.

Lemma armed_some_closed (F : list string → list string → list call) :
  closed (S:=S) (G:=G) shutdown_call (λ w, ∃ names0 names1, armed (F names0 names1) w).
Proof.
  split; [|split; intros; match goal with H : _ |- _ => exact H end]. intros w pending c r s (n0 & n1 & Hw) Hc.
  exists n0, n1. by apply (proj1 (armed_closed (F n0 n1))).
Qed.

Lemma silent_or_armed_closed (F : list string → list string → list call) :
  closed (S:=S) (G:=G) shutdown_call (silent_or_armed F).
Proof.
  split; [|split; intros; match goal with H : _ |- _ => exact H end]. intros w pending c r s [Hw|Hw] Hc.
  - left. by apply (proj1 count_tx_closed); [|apply shutdown_not_tx].
  - right. by apply (proj1 (armed_some_closed F)).
Qed.

Lemma armed_poll L w pending :
  armed L w →
  if running (signalled w pending)
  then armed L (emit (EvPoll true) (signalled w pending))
  else armed L (emit (EvPoll false) (signalled w pending)).
Proof. intros Hw. destruct (running _); by apply armed_emit. Qed.

Lemma dual_loop_armed L (fuel n : nat) (t : Z) :
  triple (armed L) (dual_loop fuel n t) (λ _, armed L) (λ _, armed L) (armed L).
Proof.
  apply (dual_loop_on (armed L) (armed L)).
  - intros w pending. apply armed_poll.
  - intros w g out pending r s _ Hw.
    assert (armed L (after_call (with_np w g) pending (SyncTx out t) r s)) as Hc
      by (by apply armed_after_call).
    destruct r; [|done]. intros pending'. by apply armed_emit.
Qed.

Lemma single_loop_armed L (fuel n : nat) (t : Z) (buf : list Z) :
  in_headroom n buf →
  triple (armed L) (single_loop fuel n t buf) (λ _, armed L) (λ _, armed L) (armed L).
Proof.
  intros Hbuf. apply (single_loop_on (armed L) (armed L)); [done|..].
  - intros w pending. apply armed_poll.
  - intros w buf' g pending r s _ Hw.
    assert (armed L (after_call w pending (SyncTx buf' t) r s)) as Hc
      by (by apply armed_after_call).
    destruct r; [|done]. intros pending'.
    by apply (armed_emit L (with_np (after_call w pending (SyncTx buf' t) (Returns v) s) g)).
Qed.

Ltac silent :=
  intros ? w Hw;
  first [ done
        | try apply setting_up_traced in Hw; left;
          destruct Hw as (evs & Hlog & _ & Htx); cbn [app] in Hlog; by rewrite Hlog ].

Ltac silent_head :=
  intros ? w (L' & Hw & _); left;
  destruct Hw as (evs & Hlog & _ & Htx); cbn [app] in Hlog; by rewrite Hlog.

(** The dual-channel [try] block reaches its loop after the calls of
    [dual_startup], in that order. *)
Lemma dual_try_order k p (fuel : nat) :
  triple (S:=S) (G:=G) (setting_up [] []) (dual_try k p fuel)
    (λ _ w, ∃ names0 names1, armed (dual_startup k p names0 names1) w)
    (λ _, silent_or_armed (dual_startup k p))
    (λ w, ∃ names0 names1, armed (dual_startup k p names0 names1) w).
Proof.
  unfold dual_try.
  do 2 su_step silent.
  eapply triple_bind;
    [eapply triple_raise_weaken; [apply configure_channel_order|silent_head]
    |intros ch0; cbn beta].
  apply triple_pre_pure. intros ->. apply triple_pre_exists. intros names0.
  eapply triple_bind;
    [eapply triple_raise_weaken; [apply configure_channel_order|silent_head]
    |intros ch1; cbn beta].
  apply triple_pre_pure. intros ->. apply triple_pre_exists. intros names1.
  do 3 su_step silent.
  eapply triple_weaken; [apply (dual_loop_armed (dual_startup k p names0 names1))|..].
  - intros w Hw. apply setting_up_armed.
    unfold dual_startup. by rewrite <- !app_assoc in Hw.
  - intros ? w Hw. by exists names0, names1.
  - intros ? w Hw. right. by exists names0, names1.
  - intros w Hw. by exists names0, names1.
Qed.

(** The single-channel [try] block reaches its loop after the calls of
    [single_startup], in that order. *)
Lemma single_try_order f gdb p (fuel : nat) :
  triple (S:=S) (G:=G) (setting_up [] []) (single_try f gdb p fuel)
    (λ _ w, ∃ names, armed (single_startup f gdb p names) w)
    (λ _, silent_or_armed (λ names _, single_startup f gdb p names))
    (λ w, ∃ names, armed (single_startup f gdb p names) w).
Proof.
  unfold single_try. cbn zeta.
  do 15 su_step silent.
  apply triple_pre_exists. intros names.
  do 3 su_step silent.
  eapply triple_bind.
  - eapply triple_raise_weaken; [apply su_generate|silent].
  - intros buf. cbn beta. apply triple_pre_pure. intros Hbuf.
    eapply triple_weaken;
      [apply (single_loop_armed (single_startup f gdb p names) _ _ _ _ Hbuf)|..].
    + intros w Hw. apply setting_up_armed.
      unfold single_startup. by rewrite <- !app_assoc in Hw.
    + intros ? w Hw. by exists names.
    + intros ? w Hw. right. by exists names, [].
    + intros w Hw. by exists names.
Qed.

Lemma setting_up_init (s : S) (g : G) : setting_up [] [] (init_world s g).
Proof. by exists []. Qed.

End Startup.

(** ** Properties of whole runs *)

Section Runs.
Context {S G : Type} `{!Environment S} `{!NumpyRuntime G}.

Lemma dual_loop_good_tx (fuel n : nat) (t : Z) :
  let I := λ w : world S G, Forall (good_tx (2 * n) t) (log w) in
  triple I (dual_loop fuel n t) (λ _, I) (λ _, I) I.
Proof.
  intros I. apply (dual_loop_on I I).
  - intros w pending. apply good_tx_poll.
  - intros w g out pending r s Hout Hw.
    assert (I (after_call (with_np w g) pending (SyncTx out t) r s)) as Hc
      by (by apply good_tx_call).
    destruct r; [|done]. intros pending'. by apply good_tx_emit.
Qed.

Lemma single_loop_good_tx (fuel n : nat) (t : Z) (buf : list Z) :
  let I := λ w : world S G, Forall (good_tx n t) (log w) in
  in_headroom n buf → triple I (single_loop fuel n t buf) (λ _, I) (λ _, I) I.
Proof.
  intros I Hbuf. apply (single_loop_on I I); [done|..].
  - intros w pending. apply good_tx_poll.
  - intros w buf' g pending r s Hout Hw.
    assert (I (after_call w pending (SyncTx buf' t) r s)) as Hc
      by (by apply good_tx_call).
    destruct r; [|done]. intros pending'.
    by apply (good_tx_emit n t (with_np (after_call w pending (SyncTx buf' t) (Returns v) s) g)).
Qed.

Lemma dual_loop_flag (fuel n : nat) (t : Z) :
  triple (S:=S) (G:=G) flag_tracks_log (dual_loop fuel n t)
    (λ _ w, flag_tracks_log w ∧ running w = false) (λ _, flag_tracks_log) flag_tracks_log.
Proof.
  apply (dual_loop_on flag_tracks_log flag_tracks_log).
  - intros w pending. apply flag_poll.
  - intros w g out pending r s _ Hw.
    assert (flag_tracks_log (after_call (with_np w g) pending (SyncTx out t) r s)) as Hc
      by (by apply flag_after_call).
    destruct r; [|done]. intros pending'. by apply flag_emit.
Qed.

Lemma single_loop_flag (fuel n : nat) (t : Z) (buf : list Z) :
  in_headroom n buf →
  triple (S:=S) (G:=G) flag_tracks_log (single_loop fuel n t buf)
    (λ _ w, flag_tracks_log w ∧ running w = false) (λ _, flag_tracks_log) flag_tracks_log.
Proof.
  intros Hbuf. apply (single_loop_on flag_tracks_log flag_tracks_log); [done|..].
  - intros w pending. apply flag_poll.
  - intros w buf' g pending r s _ Hw.
    assert (flag_tracks_log (after_call w pending (SyncTx buf' t) r s)) as Hc
      by (by apply flag_after_call).
    destruct r; [|done]. intros pending'.
    by apply (flag_emit (with_np (after_call w pending (SyncTx buf' t) (Returns v) s) g)).
Qed.

Lemma dual_loop_paced (fuel n : nat) (t : Z) :
  triple (S:=S) (G:=G) (λ w, in_step (log w)) (dual_loop fuel n t)
    (λ _ w, in_step (log w)) (λ _ w, paced (log w)) (λ w, in_step (log w)).
Proof.
  apply (dual_loop_on (λ w, in_step (log w)) (λ w, in_step (log w))).
  - intros w pending. apply in_step_poll.
  - intros w g out pending r s _ Hw.
    pose proof (in_step_pass w (with_np w g) pending out t r s eq_refl Hw) as Hp.
    destruct r; [|done]. intros pending'. exact (Hp pending').
Qed.

Lemma single_loop_paced (fuel n : nat) (t : Z) (buf : list Z) :
  in_headroom n buf →
  triple (S:=S) (G:=G) (λ w, in_step (log w)) (single_loop fuel n t buf)
    (λ _ w, in_step (log w)) (λ _ w, paced (log w)) (λ w, in_step (log w)).
Proof.
  intros Hbuf. apply (single_loop_on (λ w, in_step (log w)) (λ w, in_step (log w))); [done|..].
  - intros w pending. apply in_step_poll.
  - intros w buf' g pending r s _ Hw.
    pose proof (in_step_pass w w pending buf' t r s eq_refl Hw) as Hp.
    destruct r; [|done]. intros pending'. exact (Hp pending').
Qed.

Lemma in_step_paced (l : list event) : in_step l → paced l.
Proof. unfold in_step, paced. lia. Qed.

End Runs.

(** X5: every transmit call of a dual-channel run hands the device a
    buffer of exactly [4 * buffer_size] integers, each between [-1944]
    and [1944], with the timeout [timeout_ms] of the stream
    configuration: whatever the device answers and whenever SIGINT
    arrives, nothing else is ever transmitted. *)
Theorem X5_dual_transmit_buffers {S G : Type} `{!Environment S} `{!NumpyRuntime G}
    (k : dual_script) (p : stream_locals) (fuel : nat) (s : S) (g : G) :
  Forall (good_tx (2 * buffer_size p) (timeout_ms p))
    (log (dual_main k p fuel (init_world s g)).2).
Proof.
  pose proof (good_tx_closed (S:=S) (G:=G) (2 * buffer_size p) (timeout_ms p)) as Hc.
  pose proof (closed_mono _ _ _ shutdown_not_tx Hc) as Hs.
  pose proof (dual_main_inv _ _ _ k p fuel (init_world s g) Hc Hs Hs
                ltac:(done) ltac:(by constructor)
                (dual_loop_good_tx fuel (buffer_size p) (timeout_ms p))) as H.
  destruct (dual_main k p fuel (init_world s g)) as [[code|e|] w2]; cbn [snd];
    [by destruct H as [[_ H]|[_ H]]|done|done].
Qed.

(** X6: every transmit call of a single-channel run hands the device a
    buffer of exactly [2 * buffer_size] integers, each between [-1944]
    and [1944], with the timeout [timeout_ms]: the cached buffer and
    each of its replacements have that shape. *)
Theorem X6_single_transmit_buffers {S G : Type} `{!Environment S} `{!NumpyRuntime G}
    (FREQUENCY_HZ TX_GAIN_DB : Z) (p : stream_locals) (fuel : nat) (s : S) (g : G) :
  Forall (good_tx (buffer_size p) (timeout_ms p))
    (log (single_main FREQUENCY_HZ TX_GAIN_DB p fuel (init_world s g)).2).
Proof.
  pose proof (good_tx_closed (S:=S) (G:=G) (buffer_size p) (timeout_ms p)) as Hc.
  pose proof (closed_mono _ _ _ shutdown_not_tx Hc) as Hs.
  pose proof (single_main_inv _ _ _ FREQUENCY_HZ TX_GAIN_DB p fuel (init_world s g) Hc Hs Hs
                ltac:(done) ltac:(by constructor)
                (single_loop_good_tx fuel (buffer_size p) (timeout_ms p))) as H.
  destruct (single_main FREQUENCY_HZ TX_GAIN_DB p fuel (init_world s g)) as [[code|e|] w2];
    cbn [snd]; [by destruct H as [[_ H]|[_ H]]|done|done].
Qed.


(** X8: a dual-channel run transmits only once the stream is set up:
    unless nothing at all was transmitted, the log starts with the calls
    of [dual_startup] in that order (open, configure channel 0, configure
    channel 1, [sync_config], enable both channels), none of the fatal
    ones failing, and everything after them is a transmission or a call of
    the shutdown path.  A run that ends with [0], or has not ended, is of
    that kind. *)
Theorem X8_dual_startup_order {S G : Type} `{!Environment S} `{!NumpyRuntime G}
    (k : dual_script) (p : stream_locals) (fuel : nat) (s : S) (g : G) :
  let run := dual_main k p fuel (init_world s g) in
  match run.1 with
  | Exit code =>
      (code = 0 ∧ ∃ names0 names1, armed (dual_startup k p names0 names1) run.2) ∨
      (code = 1 ∧ silent_or_armed (dual_startup k p) run.2)
  | Uncaught _ => False
  | StillRunning => ∃ names0 names1, armed (dual_startup k p names0 names1) run.2
  end.
Proof.
  cbv zeta. unfold dual_main.
  pose proof (try_except_finally_inv (dual_try k p fuel) dual_finally
                (λ w, ∃ names0 names1, armed (dual_startup k p names0 names1) w)
                (silent_or_armed (dual_startup k p))
                (λ w, ∃ names0 names1, armed (dual_startup k p names0 names1) w)
                (init_world s g)) as H.
  destruct (try_except_finally (dual_try k p fuel) dual_finally (init_world s g))
    as [[code|e|] w2]; cbn [fst snd]; apply H; clear H;
    try (by apply dual_finally_keeps, armed_some_closed);
    try (by apply dual_finally_keeps, silent_or_armed_closed);
    pose proof (dual_try_order k p fuel (init_world s g) (setting_up_init s g)) as H;
    by destruct (dual_try k p fuel (init_world s g)) as [[[]|e'|] w1].
Qed.

(** X9: a single-channel run transmits only once the stream is set up:
    unless nothing at all was transmitted, the log starts with the calls
    of [single_startup] in that order (there the gain stages are listed
    before the gain is set), none of the fatal ones failing, and
    everything after them is a transmission or a call of the shutdown
    path. *)
Theorem X9_single_startup_order {S G : Type} `{!Environment S} `{!NumpyRuntime G}
    (FREQUENCY_HZ TX_GAIN_DB : Z) (p : stream_locals) (fuel : nat) (s : S) (g : G) :
  let run := single_main FREQUENCY_HZ TX_GAIN_DB p fuel (init_world s g) in
  match run.1 with
  | Exit code =>
      (code = 0 ∧ ∃ names, armed (single_startup FREQUENCY_HZ TX_GAIN_DB p names) run.2) ∨
      (code = 1 ∧
       (count_tx (log run.2) = 0%nat ∨
        ∃ names, armed (single_startup FREQUENCY_HZ TX_GAIN_DB p names) run.2))
  | Uncaught _ => False
  | StillRunning => ∃ names, armed (single_startup FREQUENCY_HZ TX_GAIN_DB p names) run.2
  end.
Proof.
  cbv zeta. unfold single_main.
  set (F := λ (names : list string) (_ : list string),
              single_startup FREQUENCY_HZ TX_GAIN_DB p names).
  pose proof (try_except_finally_inv (single_try FREQUENCY_HZ TX_GAIN_DB p fuel) single_finally
                (λ w, ∃ names0 names1, armed (F names0 names1) w)
                (silent_or_armed F)
                (λ w, ∃ names0 names1, armed (F names0 names1) w)
                (init_world s g)) as H.
  assert (Hdrop : ∀ w : world S G, (∃ names0 names1, armed (F names0 names1) w) →
                    ∃ names, armed (single_startup FREQUENCY_HZ TX_GAIN_DB p names) w).
  { intros w (names & ? & Hw). by exists names. }
  assert (Htry : match single_try FREQUENCY_HZ TX_GAIN_DB p fuel (init_world s g) with
                 | (Ok _, w1) => ∃ names0 names1, armed (F names0 names1) w1
                 | (Raise _, w1) => silent_or_armed F w1
                 | (Unfinished, w1) => ∃ names0 names1, armed (F names0 names1) w1
                 end).
  { pose proof (single_try_order FREQUENCY_HZ TX_GAIN_DB p fuel (init_world s g)
                  (setting_up_init s g)) as Ht.
    destruct (single_try FREQUENCY_HZ TX_GAIN_DB p fuel (init_world s g)) as [[[]|e'|] w1].
    - destruct Ht as [names Ht]. by exists names, [].
    - exact Ht.
    - destruct Ht as [names Ht]. by exists names, []. }
  specialize (H Htry
                ltac:(by apply single_finally_keeps, armed_some_closed)
                ltac:(by apply single_finally_keeps, silent_or_armed_closed)).
  destruct (try_except_finally (single_try FREQUENCY_HZ TX_GAIN_DB p fuel) single_finally
              (init_world s g)) as [[code|e|] w2]; cbn [fst snd].
  - destruct H as [[-> H]|[-> [H|H]]]; auto.
  - done.
  - auto.
Qed.

(** X10: why a run ends.  It ends with [0] only after the SIGINT handler
    ran (and then the flag [running] is down and no fatal call failed),
    with [1] only after a fatal call failed, and never with an exception;
    otherwise it is still transmitting.  At the end of every run
    [running] is [False] exactly when the handler ran: nothing else
    writes the flag, and nothing sets it again. *)
Theorem X10_exit_reasons {S G : Type} `{!Environment S} `{!NumpyRuntime G}
    (fuel : nat) (s : S) (g : G) :
  (∀ k p, exit_reason fuel (dual_main k p fuel (init_world s g))) ∧
  (∀ f gdb p, exit_reason fuel (single_main f gdb p fuel (init_world s g))).
Proof.
  split.
  - intros k p. apply (exit_reason_intro dual_teardown); [apply dual_main_verdict|].
    apply (dual_main_inv flag_tracks_log (λ w, flag_tracks_log w ∧ running w = false)
             flag_tracks_log); try done.
    + apply flag_closed.
    + apply flag_down_closed.
    + apply flag_closed.
    + apply dual_loop_flag.
  - intros f gdb p. apply (exit_reason_intro single_teardown); [apply single_main_verdict|].
    apply (single_main_inv flag_tracks_log (λ w, flag_tracks_log w ∧ running w = false)
             flag_tracks_log); try done.
    + apply flag_closed.
    + apply flag_down_closed.
    + apply flag_closed.
    + intros buf. apply single_loop_flag.
Qed.

(** X11: pacing.  In every run each transmission that returned was
    followed by exactly one pause, there is no other pause, and at most
    one transmit call failed. *)
Theorem X11_one_pause_per_transmission {S G : Type} `{!Environment S} `{!NumpyRuntime G}
    (fuel : nat) (s : S) (g : G) :
  (∀ k p, paced (log (dual_main k p fuel (init_world s g)).2)) ∧
  (∀ f gdb p, paced (log (single_main f gdb p fuel (init_world s g)).2)).
Proof.
  pose proof (in_step_closed (S:=S) (G:=G)) as Hi.
  pose proof (closed_mono _ _ _ shutdown_not_tx Hi) as His.
  pose proof (closed_mono _ _ _ shutdown_not_tx (paced_closed (S:=S) (G:=G))) as Hps.
  split.
  - intros k p.
    pose proof (dual_main_inv _ _ _ k p fuel (init_world s g) Hi His Hps
                  (λ w, in_step_paced (log w)) ltac:(done)
                  (dual_loop_paced fuel (buffer_size p) (timeout_ms p))) as H.
    destruct (dual_main k p fuel (init_world s g)) as [[code|e|] w2]; cbn [snd].
    + destruct H as [[_ H]|[_ H]]; [by apply in_step_paced|done].
    + done.
    + by apply in_step_paced.
  - intros f gdb p.
    pose proof (single_main_inv _ _ _ f gdb p fuel (init_world s g) Hi His Hps
                  (λ w, in_step_paced (log w)) ltac:(done)
                  (single_loop_paced fuel (buffer_size p) (timeout_ms p))) as H.
    destruct (single_main f gdb p fuel (init_world s g)) as [[code|e|] w2]; cbn [snd].
    + destruct H as [[_ H]|[_ H]]; [by apply in_step_paced|done].
    + done.
    + by apply in_step_paced.
Qed.

(** ** The stage policy, by name *)

Lemma lower_append (a b : string) :
  lower (String.append a b) = String.append (lower a) (lower b).
Proof. induction a as [|c a IH]; [done|]. simpl. rewrite IH. reflexivity. Qed.

Lemma lower_split (s a b : string) :
  lower s = String.append a b →
  ∃ s1 s2, s = String.append s1 s2 ∧ lower s1 = a ∧ lower s2 = b.
Proof.
  revert s. induction a as [|c a IH]; intros s Hs.
  - by exists EmptyString, s.
  - destruct s as [|c' s]; [done|]. simpl in Hs. injection Hs as Hc Hs.
    destruct (IH s Hs) as (s1 & s2 & -> & <- & <-).
    exists (String c' s1), s2. simpl. rewrite Hc. repeat split; reflexivity.
Qed.

(** X12: the per-stage value depends on the stage name only through its
    letters, whatever their case: it is [0] exactly when the name has a
    piece that reads "dsa" once lower-cased ("dsa", "DSA", "Dsa", ...),
    anywhere in it, and [60] for every other name. *)
Theorem X12_stage_gain_by_name (stage : string) :
  (stage_gain stage = 0 ∨ stage_gain stage = 60) ∧
  (stage_gain stage = 0 ↔
   ∃ pre d post, stage = String.append pre (String.append d post) ∧ lower d = "dsa"%string).
Proof.
  unfold stage_gain.
  destruct (contains "dsa" (lower stage)) eqn:Hc.
  - split; [by left|]. split; [intros _|done].
    apply contains_spec in Hc as (pre' & post' & Hl).
    apply lower_split in Hl as (pre & rest & -> & _ & Hrest).
    apply lower_split in Hrest as (d & post & -> & Hd & _).
    by exists pre, d, post.
  - split; [by right|]. split; [done|]. intros (pre & d & post & -> & Hd).
    exfalso. assert (contains "dsa" (lower (String.append pre (String.append d post))) = true)
      as Ht; [|by rewrite Ht in Hc].
    apply contains_spec. exists (lower pre), (lower post).
    by rewrite !lower_append, Hd.
Qed.

(** X13: opening the device comes first.  In every run [BladeRF()] is
    the first call made.  When it returns, [dev] is bound from then on;
    when it raises, it is the only call of the run: nothing is configured,
    nothing is transmitted, the shutdown path makes no call on the device
    that is not there, and the run ends with [1]. *)
Theorem X13_open_first {S G : Type} `{!Environment S} `{!NumpyRuntime G}
    (fuel : nat) (s : S) (g : G) :
  (∀ k p, let run := dual_main k p fuel (init_world s g) in
          opened run.2 ∨ (run.1 = Exit 1 ∧ unopened run.2)) ∧
  (∀ f gdb p, let run := single_main f gdb p fuel (init_world s g) in
              opened run.2 ∨ (run.1 = Exit 1 ∧ unopened run.2)).
Proof.
  split.
  - intros k p. apply main_opened.
    + apply dual_try_opened.
    + apply dual_finally_keeps, opened_closed.
    + apply dual_finally_unbound.
  - intros f gdb p. apply main_opened.
    + apply single_try_opened.
    + apply single_finally_keeps, opened_closed.
    + apply single_finally_unbound.
Qed.
